(** * simpleiot: the [db] layer and the NATS node replication, embedded in Rocq

    The development follows [db/db.go] (the repository functions on top of a
    bolthold store) and [nats.SendNode] (recursive replication of a node and
    its children).  Stateful code is written with explicit state passing: a
    bolt transaction is a function from the store to a result, and
    [update] commits the new store only when the callback returns no error. *)

From stdpp Require Import gmap strings list fin_maps sorting.
From Stdlib Require Import ZArith NArith Ascii.

Open Scope string_scope.
Open Scope list_scope.

(** ** Go values used by the layer *)

(** [uuid.UUID] is a 16 byte array; it is represented by the 128 bit number
    its bytes spell (big endian).  [zero] is the declaration [var zero uuid.UUID]
    of db.go. *)
Abbreviation UUID := N (only parsing).
Definition zero : UUID := 0%N.

(** [float64] and [time.Time] values are only stored and copied by this layer,
    never computed on: they are kept as their bit pattern and as a count of
    nanoseconds. *)
Abbreviation float64 := Z (only parsing).
Abbreviation Time := Z (only parsing).

(** Errors.  A Go [error] result is [option Error], [None] being [nil]. *)
Inductive Error :=
  | ErrNotFound                              (* bolthold.ErrNotFound *)
  | ErrKeyExists                             (* bolthold.ErrKeyExists *)
  | ErrGobEncode                             (* the key cannot be gob encoded *)
  | ErrGobDecode                             (* stored bytes do not decode *)
  | ErrRequest                               (* NATS request failure or timeout *)
  | ErrPublish                               (* NATS publish failure *)
  | ErrPbDecode                              (* a payload that is not the expected message *)
  | ErrInflux                                (* the time-series sink refused a write *)
  | Errorf (msg : string) (cause : Error).   (* fmt.Errorf("msg: %v", cause) *)

Abbreviation error := (option Error) (only parsing).

Inductive result (A : Type) :=
  | Ok (a : A)
  | Err (e : Error).
Arguments Ok {A} a.
Arguments Err {A} e.

#[global] Instance result_ret : MRet result := @Ok.
#[global] Instance result_bind : MBind result := fun A B k r =>
  match r with
  | Ok a => k a
  | Err e => Err e
  end.

Fixpoint mapM {A B} (f : A -> result B) (l : list A) : result (list B) :=
  match l with
  | [] => Ok []
  | a :: l' => b ← f a; bs ← mapM f l'; Ok (b :: bs)
  end.

(** ** The data package

    [data.Node], [data.Point], [data.NodeCmd], [data.User], [data.Group] and
    [data.Rule] are declared in files of the repository that are not part of
    the sources at hand; their fields are the ones db.go, nats and sim read
    and write, completed from section 3 of the specification. *)

Record Point := mkPoint {
  Point_Type : string;
  Point_Key : string;
  Point_Text : string;
  Point_Value : float64;
  Point_Min : float64;
  Point_Max : float64;
  Point_Time : Time;
  Point_Duration : Z;
}.

(** Modelled from the spec: the system states of [data] (section 3,
    "online/offline state"); only [SysStateOnline] is used by db.go, and
    only as a value to store. *)
Definition SysStateUnknown : Z := 0.
Definition SysStatePowerOff : Z := 1.
Definition SysStateOffline : Z := 2.
Definition SysStateOnline : Z := 3.

Record Node := mkNode {
  Node_ID : string;
  Node_Type : string;
  Node_Points : list Point;
  Node_Groups : list UUID;
  Node_Rules : list UUID;
  Node_SysState : Z;
  Node_CmdPending : bool;
  Node_SwUpdateState : Z;
}.

Record NodeCmd := mkNodeCmd {
  NodeCmd_ID : string;
  NodeCmd_Cmd : string;
}.

Record User := mkUser {
  User_ID : UUID;
  User_FirstName : string;
  User_LastName : string;
  User_Email : string;
  User_Pass : string;
}.

Record UserRoles := mkUserRoles {
  UserRoles_UserID : UUID;
  UserRoles_Roles : list string;
}.

Record Group := mkGroup {
  Group_ID : UUID;
  Group_Name : string;
  Group_Parent : UUID;
  Group_Users : list UserRoles;
}.

Record RuleConfig := mkRuleConfig {
  RuleConfig_NodeID : string;
  RuleConfig_Description : string;
}.

Record Rule := mkRule {
  Rule_ID : UUID;
  Rule_Config : RuleConfig;
  Rule_State : Z;
}.

(** Go zero values ([var dev data.Node], [var cmd data.NodeCmd]). *)
Definition Node_zero : Node := mkNode "" "" [] [] [] 0 false 0.
Definition NodeCmd_zero : NodeCmd := mkNodeCmd "" "".

Definition Rule_with_ID (id : UUID) (r : Rule) : Rule :=
  mkRule id (Rule_Config r) (Rule_State r).

Definition Rule_with_Config (c : RuleConfig) (r : Rule) : Rule :=
  mkRule (Rule_ID r) c (Rule_State r).

Definition Rule_with_State (s : Z) (r : Rule) : Rule :=
  mkRule (Rule_ID r) (Rule_Config r) s.

Definition Group_with_Parent (p : UUID) (g : Group) : Group :=
  mkGroup (Group_ID g) (Group_Name g) p (Group_Users g).

Definition Node_with_ID (id : string) (n : Node) : Node :=
  mkNode id (Node_Type n) (Node_Points n) (Node_Groups n) (Node_Rules n)
         (Node_SysState n) (Node_CmdPending n) (Node_SwUpdateState n).

Definition Node_with_Groups (gs : list UUID) (n : Node) : Node :=
  mkNode (Node_ID n) (Node_Type n) (Node_Points n) gs (Node_Rules n)
         (Node_SysState n) (Node_CmdPending n) (Node_SwUpdateState n).

Definition Node_with_Rules (rs : list UUID) (n : Node) : Node :=
  mkNode (Node_ID n) (Node_Type n) (Node_Points n) (Node_Groups n) rs
         (Node_SysState n) (Node_CmdPending n) (Node_SwUpdateState n).

Definition Node_with_Points (ps : list Point) (n : Node) : Node :=
  mkNode (Node_ID n) (Node_Type n) ps (Node_Groups n) (Node_Rules n)
         (Node_SysState n) (Node_CmdPending n) (Node_SwUpdateState n).

(** Modelled from the spec: [Node.SetCmdPending], the setter of the
    command-pending flag (section 3, "derived status fields"); it writes
    that flag and nothing else. *)
Definition SetCmdPending (pending : bool) (n : Node) : Node :=
  mkNode (Node_ID n) (Node_Type n) (Node_Points n) (Node_Groups n) (Node_Rules n)
         (Node_SysState n) pending (Node_SwUpdateState n).

(** Modelled from the spec: [Node.SetState], the setter of the
    online/offline state (section 4.2, "set the node's state to online"). *)
Definition SetState (state : Z) (n : Node) : Node :=
  mkNode (Node_ID n) (Node_Type n) (Node_Points n) (Node_Groups n) (Node_Rules n)
         state (Node_CmdPending n) (Node_SwUpdateState n).

(** Modelled from the spec: [Node.SetSwUpdateState], the setter of the
    software-update state. *)
Definition SetSwUpdateState (state : Z) (n : Node) : Node :=
  mkNode (Node_ID n) (Node_Type n) (Node_Points n) (Node_Groups n) (Node_Rules n)
         (Node_SysState n) (Node_CmdPending n) state.

(** Identity of a point for merging: the pair (Type, Key). *)
Definition same_point_id (p q : Point) : bool :=
  bool_decide (Point_Type p = Point_Type q) && bool_decide (Point_Key p = Point_Key q).

(** Modelled from the spec: [Node.ProcessPoint], the merge of an incoming
    point into the point set of a node (section 3: "a new point with the same
    (Type, Key) replaces the prior value", otherwise the point is added; the
    timestamp plays no part in the rule). *)
Definition ProcessPoint (pIn : Point) (n : Node) : Node :=
  let ps := Node_Points n in
  if existsb (same_point_id pIn) ps
  then Node_with_Points (map (fun p => if same_point_id pIn p then pIn else p) ps) n
  else Node_with_Points (ps ++ [pIn]) n.

(** ** The store: bolthold over bolt

    bolthold keeps one bucket per record type; a bucket maps the gob encoding
    of a key to the gob encoding of a record.  Keys are passed as
    [interface{}]: db.go passes strings, UUIDs and, in one place, a method
    value. *)

Inductive GoKey :=
  | GoString (s : string)
  | GoUUID (u : UUID)
  | GoMethodValue.     (* a func value, e.g. the method value [u.ID] of a uuid.UUID *)

Inductive Key :=
  | KString (s : string)
  | KUUID (u : UUID).

#[global] Instance Key_eq_dec : EqDecision Key.
Proof. solve_decision. Defined.

#[global] Instance Key_countable : Countable Key.
Proof.
  refine (inj_countable'
            (fun k => match k with KString s => inl s | KUUID u => inr u end)
            (fun x => match x with inl s => KString s | inr u => KUUID u end) _).
  by intros [].
Defined.

(** gob encodes strings and byte arrays; "attempting to encode a func value
    at the top level will fail". *)
Definition encode (key : GoKey) : result Key :=
  match key with
  | GoString s => Ok (KString s)
  | GoUUID u => Ok (KUUID u)
  | GoMethodValue => Err ErrGobEncode
  end.

(** *** The order of the keys

    bolt keeps a bucket sorted by the bytes of its keys ([bytes.Compare]: a
    proper prefix comes first), and a cursor walks it in that order.  The key
    bytes are the gob encoding of the Go value.

    For a string this is one message: the length of what follows, the type
    id of [string] (6, sent as the signed integer 12), the zero field delta
    of a top-level value, the length of the string and its bytes.  gob sends
    an unsigned integer up to 127 as one byte and a larger one as the
    negated count of its bytes followed by the bytes, most significant
    first. *)
Fixpoint be_bytes (fuel : nat) (x : N) (acc : list N) : list N :=
  match fuel with
  | O => acc
  | S fuel =>
      if (x =? 0)%N then acc
      else be_bytes fuel (x / 256)%N ((x mod 256)%N :: acc)
  end.

Definition gob_uint (x : N) : list N :=
  if (x <=? 127)%N then [x]
  else
    let bs := be_bytes 8 x [] in
    (256 - N.of_nat (length bs))%N :: bs.

Definition string_bytes (s : string) : list N :=
  map N_of_ascii (String.list_ascii_of_string s).

Definition gob_string (s : string) : list N :=
  let body := [12%N; 0%N] ++ gob_uint (N.of_nat (String.length s)) ++ string_bytes s in
  gob_uint (N.of_nat (length body)) ++ body.

(** [bytes.Compare a b <= 0]. *)
Fixpoint bytes_le (a b : list N) : bool :=
  match a, b with
  | [], _ => true
  | _ :: _, [] => false
  | x :: a', y :: b' =>
      if (x <? y)%N then true
      else if (y <? x)%N then false
      else bytes_le a' b'
  end.

(** A [uuid.UUID] key is sent as its 16 bytes behind a preamble that is the
    same for every UUID: the order of two such keys is the order of their
    bytes, which is the order of the numbers the bytes spell.  A bucket
    holds keys of one Go type only (db.go uses string keys for nodes and
    commands, UUID keys for users, groups and rules); between the two kinds
    the UUID keys are put first. *)
Definition key_le (a b : Key) : bool :=
  match a, b with
  | KUUID u, KUUID v => (u <=? v)%N
  | KString s, KString t => bytes_le (gob_string s) (gob_string t)
  | KUUID _, KString _ => true
  | KString _, KUUID _ => false
  end.

Definition row_le {V} (x y : Key * V) : Prop := key_le x.1 y.1 = true.

#[global] Instance row_le_dec {V} (x y : Key * V) : Decision (row_le x y).
Proof. unfold row_le. apply _. Defined.

(** The rows of a bucket as a cursor meets them. *)
Definition rows {V} (b : gmap Key V) : list (Key * V) :=
  merge_sort row_le (map_to_list b).

(** What a bucket holds under a key: bytes that decode to a record, or bytes
    that do not (a damaged page, a record written by another schema). *)
Inductive stored (V : Type) :=
  | Good (v : V)
  | Corrupt.
Arguments Good {V} v.
Arguments Corrupt {V}.

Definition decode {V} (raw : stored V) : result V :=
  match raw with
  | Good v => Ok v
  | Corrupt => Err ErrGobDecode
  end.

Record Store := mkStore {
  nodes : gmap Key (stored Node);
  cmds : gmap Key (stored NodeCmd);
  users : gmap Key (stored User);
  groups : gmap Key (stored Group);
  rules : gmap Key (stored Rule);
}.

Definition empty_store : Store := mkStore ∅ ∅ ∅ ∅ ∅.

(** bolthold finds the bucket of a record from its Go type ([newStorer]). *)
Class Storer (V : Type) := {
  bucket_of : Store -> gmap Key (stored V);
  with_bucket : gmap Key (stored V) -> Store -> Store;
}.

#[global] Instance Node_storer : Storer Node := {|
  bucket_of := nodes;
  with_bucket b st := mkStore b (cmds st) (users st) (groups st) (rules st) |}.
#[global] Instance NodeCmd_storer : Storer NodeCmd := {|
  bucket_of := cmds;
  with_bucket b st := mkStore (nodes st) b (users st) (groups st) (rules st) |}.
#[global] Instance User_storer : Storer User := {|
  bucket_of := users;
  with_bucket b st := mkStore (nodes st) (cmds st) b (groups st) (rules st) |}.
#[global] Instance Group_storer : Storer Group := {|
  bucket_of := groups;
  with_bucket b st := mkStore (nodes st) (cmds st) (users st) b (rules st) |}.
#[global] Instance Rule_storer : Storer Rule := {|
  bucket_of := rules;
  with_bucket b st := mkStore (nodes st) (cmds st) (users st) (groups st) b |}.

(** The bolthold operations inside a transaction.  Each encodes its key
    first; [TxUpdate], [TxUpsert] and [TxDelete] decode the record they
    replace or remove (bolthold needs it to maintain its indexes). *)
Section Primitives.
Context {V : Type} `{Storer V}.

Definition TxGet (tx : Store) (key : GoKey) : result V :=
  gk ← encode key;
  match bucket_of tx !! gk with
  | None => Err ErrNotFound
  | Some raw => decode raw
  end.

Definition TxInsert (tx : Store) (key : GoKey) (v : V) : result Store :=
  gk ← encode key;
  match bucket_of tx !! gk with
  | Some _ => Err ErrKeyExists
  | None => Ok (with_bucket (<[gk := Good v]> (bucket_of tx)) tx)
  end.

Definition TxUpdate (tx : Store) (key : GoKey) (v : V) : result Store :=
  gk ← encode key;
  match bucket_of tx !! gk with
  | None => Err ErrNotFound
  | Some raw =>
      _ ← decode raw;
      Ok (with_bucket (<[gk := Good v]> (bucket_of tx)) tx)
  end.

Definition TxUpsert (tx : Store) (key : GoKey) (v : V) : result Store :=
  gk ← encode key;
  match bucket_of tx !! gk with
  | None => Ok (with_bucket (<[gk := Good v]> (bucket_of tx)) tx)
  | Some raw =>
      _ ← decode raw;
      Ok (with_bucket (<[gk := Good v]> (bucket_of tx)) tx)
  end.

Definition TxDelete (tx : Store) (key : GoKey) : result Store :=
  gk ← encode key;
  match bucket_of tx !! gk with
  | None => Err ErrNotFound
  | Some raw =>
      _ ← decode raw;
      Ok (with_bucket (delete gk (bucket_of tx)) tx)
  end.

Definition decode_row (kv : Key * stored V) : result (Key * V) :=
  v ← decode kv.2; Ok (kv.1, v).

(** The records of the bucket in cursor order, decoded.  A scan decodes
    every record it passes, so one undecodable record makes it fail. *)
Definition scan (tx : Store) : result (list (Key * V)) :=
  mapM decode_row (rows (bucket_of tx)).

(** [TxFind] with a query; a [nil] query is the predicate that accepts
    every record. *)
Definition TxFind (tx : Store) (query : V -> bool) : result (list V) :=
  rows ← scan tx;
  Ok (filter (fun v => query v = true) (rows.*2)).

(** [TxFindOne] runs the query with a limit of one record: the cursor walks
    the bucket, every record it reaches is decoded and tested, and the walk
    ends at the first match.  Records behind the match are not read. *)
Fixpoint find_first (query : V -> bool) (l : list (Key * stored V)) : result V :=
  match l with
  | [] => Err ErrNotFound
  | kv :: rest =>
      v ← decode kv.2;
      if query v then Ok v else find_first query rest
  end.

Definition TxFindOne (tx : Store) (query : V -> bool) : result V :=
  find_first query (rows (bucket_of tx)).

Definition TxDeleteMatching (tx : Store) (query : V -> bool) : result Store :=
  rows ← scan tx;
  Ok (with_bucket
        (foldr (fun kv b => if query kv.2 then delete kv.1 b else b)
               (bucket_of tx) rows) tx).
End Primitives.

Arguments TxDelete V {_} tx key.
Arguments TxDeleteMatching V {_} tx query.

(** A row that decodes and that a query rejects: the walk of [TxFindOne]
    goes past it. *)
Definition passed {V} (query : V -> bool) (raw : stored V) : Prop :=
  exists v, raw = Good v /\ query v = false.

(** [db.update]: bolt commits when the callback returns [nil] and rolls
    back otherwise.  [db.view] is a read-only transaction. *)
Definition update (fn : Store -> result Store) (db : Store) : Store * error :=
  match fn db with
  | Ok tx => (tx, None)
  | Err e => (db, Some e)
  end.

Definition view {A} (fn : Store -> result A) (db : Store) : result A := fn db.

#[global] Instance Error_eq_dec : EqDecision Error.
Proof. solve_decision. Defined.

(** ** Node commands (db.go, NodeSetCmd, NodeDeleteCmd, NodeGetCmd) *)

Definition NodeSetCmd (cmd : NodeCmd) (db : Store) : Store * error :=
  update (fun tx =>
    tx ← TxUpsert tx (GoString (NodeCmd_ID cmd)) cmd;
    (* and set the device pending flag *)
    dev ← TxGet (V:=Node) tx (GoString (NodeCmd_ID cmd));
    TxUpdate tx (GoString (NodeCmd_ID cmd)) (SetCmdPending true dev)) db.

Definition NodeDeleteCmd (id : string) (db : Store) : Store * error :=
  update (fun tx =>
    tx ← TxDelete NodeCmd tx (GoString id);
    (* and clear the device pending flag *)
    dev ← TxGet (V:=Node) tx (GoString id);
    TxUpdate tx (GoString id) (SetCmdPending false dev)) db.

(** The callback of [NodeGetCmd] fills the variable [cmd] of the enclosing
    function before it can fail: the value read is returned whatever the
    transaction does afterwards. *)
Definition NodeGetCmd_tx (id : string) (tx : Store) : NodeCmd * result Store :=
  let '(cmd, err) :=
    match TxGet (V:=NodeCmd) tx (GoString id) with
    | Ok c => (c, None)
    | Err e => (NodeCmd_zero, Some e)
    end in
  (* we don't consider this an error in this case *)
  let err := if decide (err = Some ErrNotFound) then None else err in
  match err with
  | Some e => (cmd, Err e)
  | None =>
      if decide (NodeCmd_Cmd cmd ≠ "") then
        (* a device has fetched a command, delete it *)
        (cmd,
         tx ← TxDelete NodeCmd tx (GoString id);
         dev ← TxGet (V:=Node) tx (GoString id);
         TxUpdate tx (GoString id) (SetCmdPending false dev))
      else (cmd, Ok tx)
  end.

Definition NodeGetCmd (id : string) (db : Store) : Store * (NodeCmd * error) :=
  let run := NodeGetCmd_tx id db in
  let '(db', err) := update (fun _ => run.2) db in
  (db', (run.1, err)).

(** The command/pending relation of a node identifier. *)
Definition pending (db : Store) (id : string) : bool :=
  match nodes db !! KString id with
  | Some (Good n) => Node_CmdPending n
  | _ => false
  end.

Definition has_command (db : Store) (id : string) : Prop :=
  is_Some (cmds db !! KString id).

Definition cmd_invariant (db : Store) (id : string) : Prop :=
  pending db id = true ↔ has_command db id.

Inductive CmdOp :=
  | OpSetCommand (cmd : NodeCmd)
  | OpTakeCommand (id : string)
  | OpClearCommand (id : string).

Definition run_op (op : CmdOp) (db : Store) : Store :=
  match op with
  | OpSetCommand cmd => (NodeSetCmd cmd db).1
  | OpTakeCommand id => (NodeGetCmd id db).1
  | OpClearCommand id => (NodeDeleteCmd id db).1
  end.

(** The stores reached after each operation of a sequence. *)
Fixpoint run_ops (ops : list CmdOp) (db : Store) : list Store :=
  match ops with
  | [] => []
  | op :: ops' => run_op op db :: run_ops ops' (run_op op db)
  end.

(** The loops of db.go that run a step over a slice and return at the first
    error. *)
Fixpoint forM_tx {A} (step : Store -> A -> result Store) (tx : Store) (l : list A)
  : result Store :=
  match l with
  | [] => Ok tx
  | a :: l' => tx ← step tx a; forM_tx step tx l'
  end.

(** ** Nodes (db.go, Node ... NodeSetSwUpdateState) *)

Definition NodeByID (id : string) (db : Store) : result Node :=
  view (fun tx => TxGet tx (GoString id)) db.

Definition Nodes (db : Store) : result (list Node) :=
  view (fun tx => TxFind tx (fun _ => true)) db.

(** [device.Rules] holds [uuid.UUID] values ([RuleInsert] appends [rule.ID],
    the result of [uuid.New()]).  On such a value the selector [r.ID] is
    the method value of [func (uuid UUID) ID() uint32]: the key handed to
    [TxDelete] is a func, not the identifier. *)
Definition UUID_ID (r : UUID) : GoKey := GoMethodValue.

Definition NodeDelete (id : string) (db : Store) : Store * error :=
  update (fun tx =>
    (* first delete all rules for device *)
    device ← TxGet (V:=Node) tx (GoString id);
    tx ← forM_tx (fun tx r => TxDelete Rule tx (UUID_ID r)) tx (Node_Rules device);
    TxDelete Node tx (GoString id)) db.

Definition NodeUpdateGroups (id : string) (gs : list UUID) (db : Store) : Store * error :=
  update (fun tx =>
    dev ← TxGet (V:=Node) tx (GoString id);
    TxUpdate tx (GoString id) (Node_with_Groups gs dev)) db.

(** The read at the head of [NodePoint], [NodeSetState] and
    [NodeSetSwUpdateState]: a missing node is a new node with the identifier. *)
Definition get_or_new (tx : Store) (id : string) : result Node :=
  match TxGet (V:=Node) tx (GoString id) with
  | Ok dev => Ok dev
  | Err e =>
      if decide (e = ErrNotFound) then Ok (Node_with_ID id Node_zero)
      else Err e
  end.

(** Modelled from the spec: the time-series sink [Influx] and
    [PointToInfluxSample] (section 6, "write(nodeID, point), fire-and-forget";
    failures are logged, never propagated). *)
Record InfluxSample := mkInfluxSample {
  InfluxSample_ID : string;
  InfluxSample_Point : Point;
}.

Record Influx := mkInflux {
  Influx_reachable : bool;
  Influx_written : list InfluxSample;
}.

Definition PointToInfluxSample (id : string) (p : Point) : InfluxSample :=
  mkInfluxSample id p.

Definition WriteSamples (samples : list InfluxSample) (i : Influx) : Influx * error :=
  if Influx_reachable i
  then (mkInflux true (Influx_written i ++ samples), None)
  else (i, Some ErrInflux).

Record Db := mkDb {
  store : Store;
  influx : option Influx;
}.

Definition NodePoint (id : string) (point : Point) (db : Db) : Db * error :=
  let influx' :=
    match influx db with
    | Some i => Some (WriteSamples [PointToInfluxSample id point] i).1
    | None => None
    end in
  let '(st, err) :=
    update (fun tx =>
      dev ← get_or_new tx id;
      let dev := ProcessPoint point dev in
      let dev := SetState SysStateOnline dev in
      TxUpsert tx (GoString id) dev) (store db) in
  (mkDb st influx', err).

Definition NodeSetState (id : string) (state : Z) (db : Store) : Store * error :=
  update (fun tx =>
    dev ← get_or_new tx id;
    TxUpsert tx (GoString id) (SetState state dev)) db.

Definition NodeSetSwUpdateState (id : string) (state : Z) (db : Store) : Store * error :=
  update (fun tx =>
    dev ← get_or_new tx id;
    TxUpsert tx (GoString id) (SetSwUpdateState state dev)) db.

(** ** Users and groups (db.go, NodesForUser ... GroupInsert) *)

(** [UserIsRoot]: the group whose [ID] field is [zero], then membership. *)
Definition UserIsRoot (id : UUID) (db : Store) : bool * error :=
  match view (fun tx => TxFindOne (V:=Group) tx
                          (fun g => bool_decide (Group_ID g = zero))) db with
  | Err e => (false, Some e)
  | Ok group =>
      (existsb (fun ur => bool_decide (UserRoles_UserID ur = id)) (Group_Users group),
       None)
  end.

(** [bolthold.Where("Groups").ContainsAny(ids...)]. *)
Definition Groups_ContainsAny (ids : list UUID) (n : Node) : bool :=
  existsb (fun g => existsb (fun i => bool_decide (g = i)) ids) (Node_Groups n).

(** The identifiers collected by the two nested loops of [NodesForUser]. *)
Definition groupIDs_of (userID : UUID) (allGroups : list Group) : list UUID :=
  flat_map (fun o =>
    flat_map (fun ur =>
      if bool_decide (UserRoles_UserID ur = userID) then [Group_ID o] else [])
      (Group_Users o)) allGroups.

Definition NodesForUser (userID : UUID) (db : Store) : list Node * error :=
  match UserIsRoot userID db with
  | (_, Some err) => ([], Some err)
  | (true, None) =>
      (* return all devices for root users *)
      match Nodes db with
      | Ok devices => (devices, None)
      | Err e => ([], Some e)
      end
  | (false, None) =>
      match TxFind (V:=Group) db (fun _ => true) with
      | Err e => ([], Some e)
      | Ok allGroups =>
          let groupIDs := groupIDs_of userID allGroups in
          (* next, find devices that are part of the groups: the error of
             this lookup is assigned and the callback returns nil *)
          let devices :=
            match TxFind (V:=Node) db (Groups_ContainsAny groupIDs) with
            | Ok ds => ds
            | Err _ => []
            end in
          (devices, None)
      end
  end.

(** [sort.Interface], and the methods [Len], [Less], [Swap] of the type
    [users] (db.go).  Go panics on an index out of range; here [Less] is
    then false and [Swap] leaves the slice alone.  [strings.ToLower] is a Go
    library function and is a parameter. *)
Record Interface (S : Type) := mkInterface {
  Len : S -> nat;
  Less : S -> nat -> nat -> bool;
  Swap : S -> nat -> nat -> S;
}.
Arguments Len {S} _ _.
Arguments Less {S} _ _ _ _.
Arguments Swap {S} _ _ _ _.

Definition users_Len (u : list User) : nat := length u.

Definition users_Less (ToLower : string -> string) (u : list User) (i j : nat) : bool :=
  match u !! i, u !! j with
  | Some a, Some b =>
      String.ltb (ToLower (User_FirstName a)) (ToLower (User_FirstName b))
  | _, _ => false
  end.

Definition users_Swap (u : list User) (i j : nat) : list User :=
  match u !! i, u !! j with
  | Some a, Some b => <[i := b]> (<[j := a]> u)
  | _, _ => u
  end.

Definition users_Interface (ToLower : string -> string) : Interface (list User) :=
  mkInterface (list User) users_Len (users_Less ToLower) users_Swap.

(** [Users]; [sort.Sort] is the Go library function and is a parameter. *)
Definition Users (ToLower : string -> string)
    (sort_Sort : forall S, Interface S -> S -> S)
    (db : Store) : list User * error :=
  let '(ret, err) :=
    match view (fun tx => TxFind (V:=User) tx (fun _ => true)) db with
    | Ok us => (us, None)
    | Err e => ([], Some e)
    end in
  (* sort users by first name *)
  (sort_Sort (list User) (users_Interface ToLower) ret, err).

(** What the documentation of [sort.Sort] promises: the data is rearranged
    (by calls of [Swap]) into ascending order as determined by [Less], which
    is what [sort.IsSorted] checks; "the sort is not guaranteed to be
    stable". *)
Definition IsSorted {S} (data_if : Interface S) (data : S) : Prop :=
  forall i, 0 < i < Len data_if data -> Less data_if data i (i - 1) = false.

Definition sorts_users (ToLower : string -> string)
    (sort_Sort : forall S, Interface S -> S -> S) : Prop :=
  forall data : list User,
    sort_Sort (list User) (users_Interface ToLower) data ≡ₚ data
    /\ IsSorted (users_Interface ToLower)
                (sort_Sort (list User) (users_Interface ToLower) data).

(** [strings.ToLower] on strings of ASCII bytes: the letters A-Z are mapped
    to a-z; [is_ascii] recognises these strings. *)
Definition lower_byte (c : ascii) : ascii :=
  let n := nat_of_ascii c in
  if (65 <=? n)%nat && (n <=? 90)%nat then ascii_of_nat (n + 32) else c.

Fixpoint ascii_ToLower (s : string) : string :=
  match s with
  | EmptyString => EmptyString
  | String c s' => String (lower_byte c) (ascii_ToLower s')
  end.

Fixpoint is_ascii (s : string) : bool :=
  match s with
  | EmptyString => true
  | String c s' => (nat_of_ascii c <? 128)%nat && is_ascii s'
  end.

(** Stability with respect to the storage order: the users of any one
    lower-cased first name come out in the order in which they went in. *)
Definition stable_wrt (ToLower : string -> string) (stored sorted : list User) : Prop :=
  forall key : string,
    filter (fun u => ToLower (User_FirstName u) = key) sorted
    = filter (fun u => ToLower (User_FirstName u) = key) stored.

(** ** [sort.Sort] of the Go release the repository builds with

    The workflow of the repository pins Go 1.20.3, whose [sort.Sort] is the
    pattern-defeating quicksort of [sort/zsortinterface.go].  Indices are
    natural numbers; the loops whose number of rounds the code does not
    state take a bound that the range they run over never exceeds. *)
Section Sort.
Context {D : Type} (data_if : Interface D).

(** [for j := i; j > a && data.Less(j, j-1); j-- { data.Swap(j, j-1) }] *)
Fixpoint sink (a j : nat) (data : D) : D :=
  match j with
  | O => data
  | S j' =>
      if (a <? j)%nat && Less data_if data j j'
      then sink a j' (Swap data_if data j j')
      else data
  end.

(** [for i := a + 1; i < b; i++ { ... }] *)
Definition insertionSort (data : D) (a b : nat) : D :=
  foldl (fun data i => sink a i data) data (seq (a + 1) (b - (a + 1))).

(** [siftDown]: the loop runs until [child >= hi]. *)
Fixpoint siftDown_loop (fuel : nat) (data : D) (root hi first : nat) : D :=
  match fuel with
  | O => data
  | S fuel =>
      let child := (2 * root + 1)%nat in
      if (hi <=? child)%nat then data
      else
        let child :=
          if (child + 1 <? hi)%nat
             && Less data_if data (first + child) (first + child + 1)
          then (child + 1)%nat else child in
        if negb (Less data_if data (first + root) (first + child)) then data
        else siftDown_loop fuel (Swap data_if data (first + root) (first + child))
                           child hi first
  end.

Definition siftDown (data : D) (lo hi first : nat) : D :=
  siftDown_loop hi data lo hi first.

Definition heapSort (data : D) (a b : nat) : D :=
  let first := a in
  let lo := 0%nat in
  let hi := (b - a)%nat in
  (* Build heap with greatest element at top. *)
  let data :=
    foldl (fun data i => siftDown data i hi first) data
          (rev (seq 0 ((hi - 1) / 2 + 1))) in
  (* Pop elements, largest first, into end of data. *)
  foldl (fun data i => siftDown (Swap data_if data first (first + i)) lo i first)
        data (rev (seq 0 hi)).

(** [for i <= j && cond(i) { i++ }] and [for i <= j && cond(j) { j-- }]. *)
Fixpoint advance (fuel : nat) (cond : nat -> bool) (i j : nat) : nat :=
  match fuel with
  | O => i
  | S fuel => if (i <=? j)%nat && cond i then advance fuel cond (i + 1) j else i
  end.

Fixpoint retreat (fuel : nat) (cond : nat -> bool) (i j : nat) : nat :=
  match fuel with
  | O => j
  | S fuel => if (i <=? j)%nat && cond j then retreat fuel cond i (j - 1) else j
  end.

(** The [for] loop of [partition]. *)
Fixpoint partition_loop (fuel : nat) (data : D) (a b i j : nat) : D * nat * nat :=
  match fuel with
  | O => (data, i, j)
  | S fuel =>
      let i := advance b (fun i => Less data_if data i a) i j in
      let j := retreat b (fun j => negb (Less data_if data j a)) i j in
      if (j <? i)%nat then (data, i, j)
      else partition_loop fuel (Swap data_if data i j) a b (i + 1) (j - 1)
  end.

Definition partition (data : D) (a b pivot : nat) : D * nat * bool :=
  let data := Swap data_if data a pivot in
  let i := (a + 1)%nat in
  let j := (b - 1)%nat in
  let i := advance b (fun i => Less data_if data i a) i j in
  let j := retreat b (fun j => negb (Less data_if data j a)) i j in
  if (j <? i)%nat then (Swap data_if data j a, j, true)
  else
    let data := Swap data_if data i j in
    let '(data, i, j) := partition_loop b data a b (i + 1) (j - 1) in
    (Swap data_if data j a, j, false).

(** The [for] loop of [partitionEqual]. *)
Fixpoint partitionEqual_loop (fuel : nat) (data : D) (a b i j : nat) : D * nat :=
  match fuel with
  | O => (data, i)
  | S fuel =>
      let i := advance b (fun i => negb (Less data_if data a i)) i j in
      let j := retreat b (fun j => Less data_if data a j) i j in
      if (j <? i)%nat then (data, i)
      else partitionEqual_loop fuel (Swap data_if data i j) a b (i + 1) (j - 1)
  end.

Definition partitionEqual (data : D) (a b pivot : nat) : D * nat :=
  let data := Swap data_if data a pivot in
  partitionEqual_loop b data a b (a + 1) (b - 1).

(** [for i < b && !data.Less(i, i-1) { i++ }] *)
Fixpoint skip_ordered (fuel : nat) (data : D) (i b : nat) : nat :=
  match fuel with
  | O => i
  | S fuel =>
      if (i <? b)%nat && negb (Less data_if data i (i - 1))
      then skip_ordered fuel data (i + 1) b else i
  end.

(** [for j := i - 1; j >= 1; j-- { if !data.Less(j, j-1) { break }; data.Swap(j, j-1) }] *)
Fixpoint shift_left (j : nat) (data : D) : D :=
  match j with
  | O => data
  | S j' =>
      if negb (Less data_if data j j') then data
      else shift_left j' (Swap data_if data j j')
  end.

(** [for j := i + 1; j < b; j++ { if !data.Less(j, j-1) { break }; data.Swap(j, j-1) }] *)
Fixpoint shift_right (fuel : nat) (data : D) (j b : nat) : D :=
  match fuel with
  | O => data
  | S fuel =>
      if (j <? b)%nat then
        if negb (Less data_if data j (j - 1)) then data
        else shift_right fuel (Swap data_if data j (j - 1)) (j + 1) b
      else data
  end.

Definition maxSteps : nat := 5.
Definition shortestShifting : nat := 50.

Fixpoint partialInsertionSort_loop (steps : nat) (data : D) (i a b : nat) : D * bool :=
  match steps with
  | O => (data, false)
  | S steps =>
      let i := skip_ordered b data i b in
      if (i =? b)%nat then (data, true)
      else if (b - a <? shortestShifting)%nat then (data, false)
      else
        let data := Swap data_if data i (i - 1) in
        (* Shift the smaller one to the left. *)
        let data := if (2 <=? i - a)%nat then shift_left (i - 1) data else data in
        (* Shift the greater one to the right. *)
        let data := if (2 <=? b - i)%nat then shift_right b data (i + 1) b else data in
        partialInsertionSort_loop steps data i a b
  end.

Definition partialInsertionSort (data : D) (a b : nat) : D * bool :=
  partialInsertionSort_loop maxSteps data (a + 1) a b.

(** [bits.Len], [nextPowerOfTwo] and the generator [xorshift] (a uint64). *)
Definition bits_Len (n : nat) : nat := N.to_nat (N.size (N.of_nat n)).

Definition nextPowerOfTwo (length : nat) : N :=
  N.shiftl 1 (N.of_nat (bits_Len length)).

Definition uint64 (x : N) : N := (x mod 2 ^ 64)%N.

Definition xorshift_Next (r : N) : N :=
  let r := N.lxor r (uint64 (N.shiftl r 13)) in
  let r := N.lxor r (N.shiftr r 17) in
  N.lxor r (uint64 (N.shiftl r 5)).

Definition breakPatterns (data : D) (a b : nat) : D :=
  let length := (b - a)%nat in
  if (8 <=? length)%nat then
    let modulus := nextPowerOfTwo length in
    let idx := (a + (length / 4) * 2 - 1)%nat in
    (foldl (fun '(data, random) i =>
              let random := xorshift_Next random in
              let other := N.to_nat (N.land random (modulus - 1)) in
              let other := if (length <=? other)%nat then (other - length)%nat
                           else other in
              (Swap data_if data (idx - 1 + i) (a + other), random))
           (data, N.of_nat length) [0; 1; 2]%nat).1
  else data.

Inductive sortedHint :=
  | unknownHint
  | increasingHint
  | decreasingHint.

(** [order2], [median] and [medianAdjacent]; the counter [swaps] is passed
    through. *)
Definition order2 (data : D) (a b swaps : nat) : nat * nat * nat :=
  if Less data_if data b a then (b, a, S swaps) else (a, b, swaps).

Definition median (data : D) (a b c swaps : nat) : nat * nat :=
  let '(a, b, swaps) := order2 data a b swaps in
  let '(b, c, swaps) := order2 data b c swaps in
  let '(a, b, swaps) := order2 data a b swaps in
  (b, swaps).

Definition medianAdjacent (data : D) (a swaps : nat) : nat * nat :=
  median data (a - 1) a (a + 1) swaps.

Definition shortestNinther : nat := 50.
Definition maxSwaps : nat := 4 * 3.

Definition choosePivot (data : D) (a b : nat) : nat * sortedHint :=
  let l := (b - a)%nat in
  let swaps := 0%nat in
  let i := (a + l / 4 * 1)%nat in
  let j := (a + l / 4 * 2)%nat in
  let k := (a + l / 4 * 3)%nat in
  let '(j, swaps) :=
    if (8 <=? l)%nat then
      let '(i, j, k, swaps) :=
        if (shortestNinther <=? l)%nat then
          let '(i, swaps) := medianAdjacent data i swaps in
          let '(j, swaps) := medianAdjacent data j swaps in
          let '(k, swaps) := medianAdjacent data k swaps in
          (i, j, k, swaps)
        else (i, j, k, swaps) in
      median data i j k swaps
    else (j, swaps) in
  if (swaps =? 0)%nat then (j, increasingHint)
  else if (swaps =? maxSwaps)%nat then (j, decreasingHint)
  else (j, unknownHint).

(** [for i < j { data.Swap(i, j); i++; j-- }] *)
Fixpoint reverseRange_loop (fuel : nat) (data : D) (i j : nat) : D :=
  match fuel with
  | O => data
  | S fuel =>
      if (i <? j)%nat
      then reverseRange_loop fuel (Swap data_if data i j) (i + 1) (j - 1)
      else data
  end.

Definition reverseRange (data : D) (a b : nat) : D :=
  reverseRange_loop b data a (b - 1).

Definition maxInsertion : nat := 12.

(** [pdqsort]: one round of the [for] loop per unit of [fuel]; the range
    [a..b] shrinks in every round and in every recursive call, so the length
    of the slice bounds both.  [wasBalanced] and [wasPartitioned] are the
    local variables of the Go function, [true] on entry. *)
Fixpoint pdqsort (fuel : nat) (data : D) (a b limit : nat)
    (wasBalanced wasPartitioned : bool) : D :=
  match fuel with
  | O => data
  | S fuel =>
      let length := (b - a)%nat in
      if (length <=? maxInsertion)%nat then insertionSort data a b
      else if (limit =? 0)%nat then
        (* Fall back to heapsort if too many bad choices were made. *)
        heapSort data a b
      else
        (* If the last partitioning was imbalanced, we need to breakPatterns. *)
        let '(data, limit) :=
          if negb wasBalanced then (breakPatterns data a b, (limit - 1)%nat)
          else (data, limit) in
        let '(pivot, hint) := choosePivot data a b in
        let '(data, pivot, hint) :=
          match hint with
          | decreasingHint =>
              (reverseRange data a b, ((b - 1) - (pivot - a))%nat, increasingHint)
          | _ => (data, pivot, hint)
          end in
        (* The slice is likely already sorted. *)
        let '(data, sorted) :=
          match hint with
          | increasingHint =>
              if wasBalanced && wasPartitioned then partialInsertionSort data a b
              else (data, false)
          | _ => (data, false)
          end in
        if sorted then data
        else if (0 <? a)%nat && negb (Less data_if data (a - 1) pivot) then
          let '(data, mid) := partitionEqual data a b pivot in
          pdqsort fuel data mid b limit wasBalanced wasPartitioned
        else
          let '(data, mid, alreadyPartitioned) := partition data a b pivot in
          let leftLen := (mid - a)%nat in
          let rightLen := (b - mid)%nat in
          let balanceThreshold := (length / 8)%nat in
          if (leftLen <? rightLen)%nat then
            let data := pdqsort fuel data a mid limit true true in
            pdqsort fuel data (mid + 1) b limit
                    (balanceThreshold <=? leftLen)%nat alreadyPartitioned
          else
            let data := pdqsort fuel data (mid + 1) b limit true true in
            pdqsort fuel data a mid limit
                    (balanceThreshold <=? rightLen)%nat alreadyPartitioned
  end.
End Sort.

(** [sort.Sort]. *)
Definition Sort (S : Type) (data_if : Interface S) (data : S) : S :=
  let n := Len data_if data in
  if (n <=? 1)%nat then data
  else pdqsort data_if (n + 1) data 0 n (bits_Len n) true true.

(** Insertion sort over the whole slice, as [sort.Sort] runs it on a slice
    of at most 12 elements. *)
Definition insertion_Sort (S : Type) (data_if : Interface S) (data : S) : S :=
  insertionSort data_if data 0 (Len data_if data).

(** [uuid.UUID.String]: the 8-4-4-4-12 hexadecimal form. *)
Definition hex_digit (n : N) : ascii :=
  nth (N.to_nat n)
      ["0"; "1"; "2"; "3"; "4"; "5"; "6"; "7";
       "8"; "9"; "a"; "b"; "c"; "d"; "e"; "f"]%char "0"%char.

Definition UUID_byte (u : UUID) (i : N) : N :=
  ((u / 2 ^ (8 * (15 - i))) mod 256)%N.

Definition hex_bytes (u : UUID) (from count : nat) : string :=
  foldr (fun i acc =>
           let b := UUID_byte u (N.of_nat i) in
           String (hex_digit (b / 16)) (String (hex_digit (b mod 16)) acc))
        "" (seq from count).

Definition UUID_String (u : UUID) : string :=
  hex_bytes u 0 4 +:+ "-" +:+ hex_bytes u 4 2 +:+ "-" +:+ hex_bytes u 6 2 +:+ "-"
    +:+ hex_bytes u 8 2 +:+ "-" +:+ hex_bytes u 10 6.

(** [uuid.New()] draws a random identifier: the drawn value [id] is an
    argument of the functions that call it. *)
Definition UserInsert (id : UUID) (user : User) (db : Store) : Store * (string * error) :=
  let '(db', err) := update (fun tx => TxInsert tx (GoUUID id) user) db in
  (db', (UUID_String id, err)).

Definition UserUpdate (user : User) (db : Store) : Store * error :=
  update (fun tx =>
    match TxUpdate tx (GoUUID (User_ID user)) user with
    | Ok tx => Ok tx
    | Err _ =>
        (* Delete current user with bad key *)
        tx ← TxDeleteMatching User tx (fun u => bool_decide (User_ID u = User_ID user));
        (* try to insert group *)
        TxUpsert tx (GoUUID (User_ID user)) user
    end) db.

Definition UserDelete (id : UUID) (db : Store) : Store * error :=
  update (fun tx => TxDelete User tx (GoUUID id)) db.

Definition GroupInsert (id : UUID) (group : Group) (db : Store) : Store * (string * error) :=
  let group := Group_with_Parent zero group in
  let '(db', err) := update (fun tx => TxInsert tx (GoUUID id) group) db in
  (db', (UUID_String id, err)).

Definition GroupUpdate (gUpdate : Group) (db : Store) : Store * error :=
  update (fun tx =>
    match TxUpdate tx (GoUUID (Group_ID gUpdate)) gUpdate with
    | Ok tx => Ok tx
    | Err _ =>
        tx ← TxDeleteMatching Group tx (fun g => bool_decide (Group_ID g = Group_ID gUpdate));
        TxUpsert tx (GoUUID (Group_ID gUpdate)) gUpdate
    end) db.

(** [initialize]: the admin user and the root group, both under [zero]. *)
Definition RoleAdmin : string := "admin".

Definition initialize (db : Store) : Store * error :=
  match view (fun tx => TxFindOne (V:=Group) tx
                          (fun g => bool_decide (Group_Name g = "root"))) db with
  | Ok _ => (db, None)
  | Err e =>
      if decide (e = ErrNotFound) then
        update (fun tx =>
          let admin := mkUser zero "admin" "user" "admin@admin.com" "admin" in
          tx ← TxInsert tx (GoUUID (User_ID admin)) admin;
          let group := mkGroup zero "root" zero [mkUserRoles zero [RoleAdmin]] in
          TxInsert tx (GoUUID (Group_ID group)) group) db
      else (db, Some e)
  end.

(** ** Rules (db.go, RuleInsert ... RuleDelete) *)

Definition RuleByID (id : UUID) (db : Store) : result Rule :=
  view (fun tx => TxGet tx (GoUUID id)) db.

Definition RuleInsert (newID : UUID) (rule : Rule) (db : Store)
  : Store * (UUID * error) :=
  let rule := Rule_with_ID newID rule in
  let '(db', err) :=
    update (fun tx =>
      tx ← TxInsert tx (GoUUID (Rule_ID rule)) rule;
      device ← TxGet (V:=Node) tx (GoString (RuleConfig_NodeID (Rule_Config rule)));
      let device := Node_with_Rules (Node_Rules device ++ [Rule_ID rule]) device in
      TxUpdate tx (GoString (Node_ID device)) device) db in
  (db', (Rule_ID rule, err)).

Definition RuleDelete (id : UUID) (db : Store) : Store * error :=
  update (fun tx =>
    rule ← TxGet (V:=Rule) tx (GoUUID id);
    (* delete references from device *)
    device ← TxGet (V:=Node) tx (GoString (RuleConfig_NodeID (Rule_Config rule)));
    TxDelete Rule tx (GoUUID id)) db.

(** ** Sample stores used to instantiate the properties *)

Definition demo_node : Node :=
  mkNode "n1" "device" [] [] [] SysStateOnline false 0.

Definition demo_store : Store :=
  mkStore {[ KString "n1" := Good demo_node ]} ∅ ∅ ∅ ∅.

Definition demo_cmd : NodeCmd := mkNodeCmd "n1" "reboot".

Definition demo_store_cmd : Store :=
  mkStore {[ KString "n1" := Good (SetCmdPending true demo_node) ]}
          {[ KString "n1" := Good demo_cmd ]} ∅ ∅ ∅.

Definition demo_store_empty_cmd : Store :=
  mkStore {[ KString "n1" := Good (SetCmdPending true demo_node) ]}
          {[ KString "n1" := Good (mkNodeCmd "n1" "") ]} ∅ ∅ ∅.

Definition demo_point (value : Z) (time : Z) : Point :=
  mkPoint "volt" "V0" "" value 0 0 time 0.

Definition demo_db : Db := mkDb empty_store (Some (mkInflux false [])).

Definition demo_rule : Rule := mkRule zero (mkRuleConfig "n1" "temp > 80") 0.

(** The store after [RuleInsert] drew the identifier 7 for [demo_rule]. *)
Definition demo_store_rule : Store := (RuleInsert 7 demo_rule demo_store).1.

Definition demo_group : Group :=
  mkGroup 21 "plant" 99 [mkUserRoles 5 ["user"]].

Definition demo_user : User := mkUser zero "Alice" "Doe" "alice@example.com" "secret".

(** A bucket all of whose records decode. *)
Definition healthy {V} (b : gmap Key (stored V)) : Prop :=
  forall k, b !! k <> Some Corrupt.

(** Membership of a user in the group of a given identifier, as the store
    records it. *)
Definition user_in_group (db : Store) (userID g : UUID) : Prop :=
  exists k grp ur,
    groups db !! k = Some (Good grp) /\ Group_ID grp = g
    /\ ur ∈ Group_Users grp /\ UserRoles_UserID ur = userID.

Definition root_group : Group :=
  mkGroup zero "root" zero [mkUserRoles zero [RoleAdmin]].

Definition plant_group : Group :=
  mkGroup 21 "plant" zero [mkUserRoles 5 ["user"]].

Definition plant_node : Node :=
  mkNode "n1" "device" [] [21%N] [] SysStateOnline false 0.

(** Two groups, a node of the plant group, and one node record whose bytes
    do not decode. *)
Definition faulty_store : Store :=
  mkStore (<[KString "n2" := Corrupt]> {[ KString "n1" := Good plant_node ]})
          ∅ ∅
          (<[KUUID 21 := Good plant_group]> {[ KUUID zero := Good root_group ]})
          ∅.

Definition sound_store : Store :=
  mkStore {[ KString "n1" := Good plant_node ]}
          ∅ ∅
          (<[KUUID 21 := Good plant_group]> {[ KUUID zero := Good root_group ]})
          ∅.

(** ** Replication over NATS (package nats: GetNode, GetNodeChildren, SendNode) *)

(** Modelled from the spec: the protobuf payloads and [data.PbDecodeNode],
    [data.PbDecodeNodes] (section 6: the encoding round-trips); a payload is
    the message it decodes to, or bytes that are no such message. *)
Inductive Payload :=
  | PbNode (n : Node)
  | PbNodes (ns : list Node)
  | PbInvalid.

Definition PbDecodeNode (data : Payload) : result Node :=
  match data with
  | PbNode n => Ok n
  | _ => Err ErrPbDecode
  end.

Definition PbDecodeNodes (data : Payload) : result (list Node) :=
  match data with
  | PbNodes ns => Ok ns
  | _ => Err ErrPbDecode
  end.

Record Publication := mkPublication {
  Publication_ID : string;
  Publication_Points : list Point;
  Publication_Ack : bool;
}.

(** A NATS connection as the replication sees it: what a request on a
    subject returns within the 20 s timeout (a reply or an error), which
    node identifiers cannot be published to, and the point batches delivered
    so far. *)
Record Conn := mkConn {
  replies : string -> result Payload;
  refuses : string -> bool;
  published : list Publication;
}.

Definition Request (nc : Conn) (subject : string) : result Payload :=
  replies nc subject.

Definition GetNode (nc : Conn) (id : string) : result Node :=
  nodeMsg ← Request nc ("node." +:+ id);
  PbDecodeNode nodeMsg.

Definition GetNodeChildren (nc : Conn) (id : string) : result (list Node) :=
  nodeMsg ← Request nc ("node." +:+ id +:+ ".children");
  PbDecodeNodes nodeMsg.

(** Modelled from the spec: [SendPoints] (section 4.4, step 3: "publish that
    point set to destination for nodeID, marked for durable application"). *)
Definition SendPoints (nc : Conn) (id : string) (points : list Point) (ack : bool)
  : Conn * error :=
  if refuses nc id
  then (nc, Some ErrPublish)
  else (mkConn (replies nc) (refuses nc)
               (published nc ++ [mkPublication id points ack]), None).

(** Modelled from the spec: the point types of the two synthetic points
    ([data.PointTypeNodeType], [data.PointTypeParent]). *)
Definition PointTypeNodeType : string := "nodeType".
Definition PointTypeParent : string := "parent".

(** The point list [SendNode] builds before publishing: [node.Points], then
    [data.Point{Type: data.PointTypeNodeType, Text: node.Type}], then, if
    [parent != ""], [data.Point{Type: data.PointTypeParent, Text: parent}];
    the fields a composite literal does not name have their zero value. *)
Definition outgoing_points (node : Node) (parent : string) : list Point :=
  let points := Node_Points node in
  let points :=
    points ++ [{| Point_Type := PointTypeNodeType; Point_Key := "";
                  Point_Text := Node_Type node; Point_Value := 0;
                  Point_Min := 0; Point_Max := 0; Point_Time := 0;
                  Point_Duration := 0 |}] in
  if decide (parent <> "")
  then points ++ [{| Point_Type := PointTypeParent; Point_Key := "";
                     Point_Text := parent; Point_Value := 0;
                     Point_Min := 0; Point_Max := 0; Point_Time := 0;
                     Point_Duration := 0 |}]
  else points.

(** The loop over the children: the first child that fails ends it. *)
Fixpoint send_children (send : Conn -> string -> option (Conn * error))
    (childNodes : list Node) (dest : Conn) : option (Conn * error) :=
  match childNodes with
  | [] => Some (dest, None)
  | childNode :: rest =>
      match send dest (Node_ID childNode) with
      | None => None
      | Some (dest, Some err) => Some (dest, Some (Errorf "Error sending child node" err))
      | Some (dest, None) => send_children send rest dest
      end
  end.

(** [SendNode]; the recursion of the Go function follows the children the
    source reports, so the embedding counts the nesting depth it may still
    use ([None]: depth exhausted). *)
Fixpoint SendNode (fuel : nat) (src dest : Conn) (id parent : string)
  : option (Conn * error) :=
  match fuel with
  | O => None
  | S fuel =>
      match GetNode src id with
      | Err err => Some (dest, Some (Errorf "Error getting local node" err))
      | Ok node =>
          let points := outgoing_points node parent in
          match SendPoints dest id points true with
          | (dest, Some err) =>
              Some (dest, Some (Errorf "Error sending node upstream" err))
          | (dest, None) =>
              (* process child nodes *)
              match GetNodeChildren src id with
              | Err err =>
                  Some (dest, Some (Errorf "Error getting node children" err))
              | Ok childNodes =>
                  send_children (fun dest cid => SendNode fuel src dest cid id)
                                childNodes dest
              end
          end
      end
  end.

(** A subtree of the source: a node and the subtrees of its children. *)
#[local] Set Warnings "-register-all".
Inductive tree :=
  | TNode (n : Node) (children : list tree).

Definition root (t : tree) : Node :=
  match t with TNode n _ => n end.

Fixpoint depth (t : tree) : nat :=
  match t with
  | TNode _ cs => S (foldr (fun c d => Nat.max (depth c) d) 0%nat cs)
  end.

Fixpoint tree_ids (t : tree) : list string :=
  match t with
  | TNode n cs => Node_ID n :: flat_map tree_ids cs
  end.

(** The source answers the two subjects of every node of the subtree. *)
Inductive serves (src : Conn) : tree -> Prop :=
  | serves_node (n : Node) (cs : list tree) :
      Request src ("node." +:+ Node_ID n) = Ok (PbNode n) ->
      Request src ("node." +:+ Node_ID n +:+ ".children") = Ok (PbNodes (map root cs)) ->
      Forall (serves src) cs ->
      serves src (TNode n cs).

(** What the destination is to receive, in the words of the claim.  The
    batch of a node: its existing points, one node-type point carrying the
    Type of the node and, exactly when the parent argument is not empty, one
    parent point carrying the parent identifier. *)
Definition node_batch (node : Node) (parent : string) : list Point :=
  Node_Points node
    ++ [mkPoint PointTypeNodeType "" (Node_Type node) 0 0 0 0 0]
    ++ (if decide (parent = "") then []
        else [mkPoint PointTypeParent "" parent 0 0 0 0 0]).

(** The publications of a subtree, parent first, children in the order the
    source lists them, each child with its parent's identifier. *)
Fixpoint subtree_publications (parent : string) (t : tree) : list Publication :=
  match t with
  | TNode n cs =>
      mkPublication (Node_ID n) (node_batch n parent) true
        :: flat_map (subtree_publications (Node_ID n)) cs
  end.

Definition publish_all (dest : Conn) (ps : list Publication) : Conn :=
  mkConn (replies dest) (refuses dest) (published dest ++ ps).

(** A source with the subtree r -> (a -> g), b and two destinations, one of
    which cannot be published to for b. *)
Definition node_r : Node := mkNode "r" "gateway" [demo_point 1 10] [] [] 0 false 0.
Definition node_a : Node := mkNode "a" "sensor" [demo_point 2 20] [] [] 0 false 0.
Definition node_g : Node := mkNode "g" "probe" [] [] [] 0 false 0.
Definition node_b : Node := mkNode "b" "sensor" [demo_point 3 30] [] [] 0 false 0.

Definition demo_tree : tree :=
  TNode node_r [TNode node_a [TNode node_g []]; TNode node_b []].

Definition demo_src : Conn :=
  mkConn (fun subject =>
            if decide (subject = "node.r") then Ok (PbNode node_r)
            else if decide (subject = "node.r.children") then Ok (PbNodes [node_a; node_b])
            else if decide (subject = "node.a") then Ok (PbNode node_a)
            else if decide (subject = "node.a.children") then Ok (PbNodes [node_g])
            else if decide (subject = "node.g") then Ok (PbNode node_g)
            else if decide (subject = "node.g.children") then Ok (PbNodes [])
            else if decide (subject = "node.b") then Ok (PbNode node_b)
            else if decide (subject = "node.b.children") then Ok (PbNodes [])
            else Err ErrRequest)
         (fun _ => false) [].

Definition demo_dest : Conn := mkConn (fun _ => Err ErrRequest) (fun _ => false) [].

Definition demo_dest_no_b : Conn :=
  mkConn (fun _ => Err ErrRequest) (fun id => bool_decide (id = "b")) [].

(** Thirteen users in ascending order of first name, but for liam and bob,
    which have changed places; Bob and bob differ by case only. *)
Definition tie_user (id : UUID) (first : string) : User :=
  mkUser id first "" "" "".

Definition tie_users : list User :=
  [tie_user 1 "alice"; tie_user 2 "liam"; tie_user 3 "Bob"; tie_user 4 "carl";
   tie_user 5 "dave"; tie_user 6 "erin"; tie_user 7 "fred"; tie_user 8 "gina";
   tie_user 9 "hank"; tie_user 10 "ivan"; tie_user 11 "judy"; tie_user 12 "kate";
   tie_user 13 "bob"].

(** Each of them stored under the key of its ID field, written in another
    order than the order of the keys. *)
Definition tie_store : Store :=
  mkStore ∅ ∅
    (list_to_map (map (fun u => (KUUID (User_ID u), Good u)) (reverse tie_users)))
    ∅ ∅.

Definition abc_store : Store :=
  mkStore ∅ ∅
    (list_to_map
       [(KUUID 1, Good (tie_user 1 "bob")); (KUUID 2, Good (tie_user 2 "Alice"));
        (KUUID 3, Good (tie_user 3 "charlie"))])
    ∅ ∅.

(** Ascending order of two users by lower-cased first name. *)
Definition name_le (ToLower : string -> string) (a b : User) : Prop :=
  String.leb (ToLower (User_FirstName a)) (ToLower (User_FirstName b)) = true.

(** ** The rest of db.go *)

(** [NodeCmds], [Rules], [Groups]: the whole bucket.  [Groups] wraps the
    error of the lookup. *)
Definition NodeCmds (db : Store) : list NodeCmd * error :=
  match view (fun tx => TxFind (V:=NodeCmd) tx (fun _ => true)) db with
  | Ok ret => (ret, None)
  | Err e => ([], Some e)
  end.

Definition Rules (db : Store) : list Rule * error :=
  match view (fun tx => TxFind (V:=Rule) tx (fun _ => true)) db with
  | Ok ret => (ret, None)
  | Err e => ([], Some e)
  end.

Definition Groups (db : Store) : list Group * error :=
  match view (fun tx => TxFind (V:=Group) tx (fun _ => true)) db with
  | Ok ret => (ret, None)
  | Err e => ([], Some (Errorf "problem finding groups" e))
  end.

(** [Nodes] with the two results of the Go function. *)
Definition Nodes_list (db : Store) : list Node * error :=
  match Nodes db with
  | Ok ret => (ret, None)
  | Err e => ([], Some e)
  end.

(** [UserCheck]: exact match of email and password; no match is
    [(nil, nil)]. *)
Definition UserCheck (email password : string) (db : Store) : option User * error :=
  match view (fun tx => TxFindOne (V:=User) tx
                (fun u => bool_decide (User_Email u = email)
                          && bool_decide (User_Pass u = password))) db with
  | Err e =>
      if decide (e <> ErrNotFound) then (None, Some e) else (None, None)
  | Ok u => (Some u, None)
  end.

Definition UserByEmail (email : string) (db : Store) : result User :=
  view (fun tx => TxFindOne (V:=User) tx
          (fun u => bool_decide (User_Email u = email))) db.

(** [UsersForGroup]: the loop appends to [ret], a variable of the enclosing
    function, so the users read before a failure are returned with the
    error. *)
Fixpoint UsersForGroup_loop (tx : Store) (roles : list UserRoles) (ret : list User)
  : list User * error :=
  match roles with
  | [] => (ret, None)
  | role :: roles' =>
      match TxGet (V:=User) tx (GoUUID (UserRoles_UserID role)) with
      | Err e => (ret, Some e)
      | Ok user => UsersForGroup_loop tx roles' (ret ++ [user])
      end
  end.

Definition UsersForGroup (id : UUID) (db : Store) : list User * error :=
  match TxGet (V:=Group) db (GoUUID id) with
  | Err e => ([], Some e)
  | Ok group => UsersForGroup_loop db (Group_Users group) []
  end.

(** [bolthold.Where("Groups").Contains(groupID)]. *)
Definition Groups_Contains (groupID : UUID) (n : Node) : bool :=
  existsb (fun g => bool_decide (g = groupID)) (Node_Groups n).

Definition NodesForGroup (tx : Store) (groupID : UUID) : list Node * error :=
  match TxFind (V:=Node) tx (Groups_Contains groupID) with
  | Ok devices => (devices, None)
  | Err e => ([], Some e)
  end.

Definition GroupDelete (id : UUID) (db : Store) : Store * error :=
  update (fun tx => TxDelete Group tx (GoUUID id)) db.

Definition RuleUpdateConfig (id : UUID) (config : RuleConfig) (db : Store)
  : Store * error :=
  update (fun tx =>
    rule ← TxGet (V:=Rule) tx (GoUUID id);
    TxUpdate tx (GoUUID id) (Rule_with_Config config rule)) db.

Definition RuleUpdateState (id : UUID) (state : Z) (db : Store) : Store * error :=
  update (fun tx =>
    rule ← TxGet (V:=Rule) tx (GoUUID id);
    TxUpdate tx (GoUUID id) (Rule_with_State state rule)) db.

(** [dbDump] and [DumpDb]; the JSON encoder onto the writer is a parameter. *)
Record dbDump := mkDbDump {
  dump_Nodes : list Node;
  dump_Users : list User;
  dump_Groups : list Group;
  dump_Rules : list Rule;
  dump_NodeCmds : list NodeCmd;
}.

Definition DumpDb {W : Type} (ToLower : string -> string)
    (sort_Sort : forall S, Interface S -> S -> S)
    (Encode : dbDump -> W -> W * error)
    (db : Store) (out : W) : W * error :=
  match Nodes_list db with
  | (_, Some err) => (out, Some err)
  | (ns, None) =>
      match Users ToLower sort_Sort db with
      | (_, Some err) => (out, Some err)
      | (us, None) =>
          match Groups db with
          | (_, Some err) => (out, Some err)
          | (gs, None) =>
              match Rules db with
              | (_, Some err) => (out, Some err)
              | (rs, None) =>
                  match NodeCmds db with
                  | (_, Some err) => (out, Some err)
                  | (cs, None) => Encode (mkDbDump ns us gs rs cs) out
                  end
              end
          end
      end
  end.

(** ** The register simulation of cmd/modbus-server (main.go, the final loop)

    One pass of the [for] loop: the coil value is negated, the register value
    walks up to 10 and down to 0, and both are written ([WriteCoil(128, _)],
    [WriteReg(2, uint16(_))]; the errors of the writes are discarded). *)
Record SimLoop := mkSimLoop {
  loop_value : bool;
  loop_regValue : Z;
  loop_up : bool;
}.

Definition SimLoop_init : SimLoop := mkSimLoop true 0 true.

Definition uint16 (n : Z) : Z := n mod 65536.

Definition loop_pass (s : SimLoop) : SimLoop * (bool * Z) :=
  let value := negb (loop_value s) in
  let '(regValue, up) :=
    if loop_up s then
      let regValue := (loop_regValue s + 1)%Z in
      (regValue, if (10 <=? regValue)%Z then false else true)
    else
      let regValue := (loop_regValue s - 1)%Z in
      (regValue, if (regValue <=? 0)%Z then true else false) in
  (mkSimLoop value regValue up, (value, uint16 regValue)).

(** The state after [n] passes and what the passes wrote, oldest first. *)
Fixpoint loop_run (n : nat) (s : SimLoop) : SimLoop * list (bool * Z) :=
  match n with
  | O => (s, [])
  | S n' =>
      let '(s1, w) := loop_pass s in
      let '(s2, ws) := loop_run n' s1 in
      (s2, w :: ws)
  end.

(** The triangle wave of period 20 between 0 and 10. *)
Definition triangle (n : nat) : Z :=
  let m := Z.of_nat (n mod 20) in
  if (m <=? 10)%Z then m else (20 - m)%Z.

(** The store left by deleting the node of a pending command. *)
Definition orphan_store : Store := (NodeDelete "n1" demo_store_cmd).1.

(** ** Sequences of calls of the db layer

    Every function of db.go that writes to the store, with its arguments
    (and, where the function calls [uuid.New()], the identifier drawn). *)
Inductive DbOp :=
  | CallNodeDelete (id : string)
  | CallNodeUpdateGroups (id : string) (gs : list UUID)
  | CallNodePoint (id : string) (point : Point)
  | CallNodeSetState (id : string) (state : Z)
  | CallNodeSetSwUpdateState (id : string) (state : Z)
  | CallNodeSetCmd (cmd : NodeCmd)
  | CallNodeDeleteCmd (id : string)
  | CallNodeGetCmd (id : string)
  | CallInitialize
  | CallUserInsert (drawn : UUID) (user : User)
  | CallUserUpdate (user : User)
  | CallUserDelete (id : UUID)
  | CallGroupInsert (drawn : UUID) (group : Group)
  | CallGroupUpdate (group : Group)
  | CallGroupDelete (id : UUID)
  | CallRuleInsert (drawn : UUID) (rule : Rule)
  | CallRuleUpdateConfig (id : UUID) (config : RuleConfig)
  | CallRuleUpdateState (id : UUID) (state : Z)
  | CallRuleDelete (id : UUID).

Definition call (op : DbOp) (db : Store) : Store :=
  match op with
  | CallNodeDelete id => (NodeDelete id db).1
  | CallNodeUpdateGroups id gs => (NodeUpdateGroups id gs db).1
  | CallNodePoint id point => store (NodePoint id point (mkDb db None)).1
  | CallNodeSetState id state => (NodeSetState id state db).1
  | CallNodeSetSwUpdateState id state => (NodeSetSwUpdateState id state db).1
  | CallNodeSetCmd cmd => (NodeSetCmd cmd db).1
  | CallNodeDeleteCmd id => (NodeDeleteCmd id db).1
  | CallNodeGetCmd id => (NodeGetCmd id db).1
  | CallInitialize => (initialize db).1
  | CallUserInsert drawn user => (UserInsert drawn user db).1
  | CallUserUpdate user => (UserUpdate user db).1
  | CallUserDelete id => (UserDelete id db).1
  | CallGroupInsert drawn group => (GroupInsert drawn group db).1
  | CallGroupUpdate group => (GroupUpdate group db).1
  | CallGroupDelete id => (GroupDelete id db).1
  | CallRuleInsert drawn rule => (RuleInsert drawn rule db).1
  | CallRuleUpdateConfig id config => (RuleUpdateConfig id config db).1
  | CallRuleUpdateState id state => (RuleUpdateState id state db).1
  | CallRuleDelete id => (RuleDelete id db).1
  end.

Definition calls (ops : list DbOp) (db : Store) : Store :=
  foldl (fun db op => call op db) db ops.

(** Every node record is stored under its own ID field. *)
Definition node_keys_ok (db : Store) : Prop :=
  forall k n, nodes db !! k = Some (Good n) -> k = KString (Node_ID n).

(** What a call may do to the nodes bucket: nothing, remove one record, or
    put a record under the key of its ID field. *)
Definition nodes_step (db db' : Store) : Prop :=
  nodes db' = nodes db
  \/ (exists k, nodes db' = delete k (nodes db))
  \/ (exists n, nodes db' = <[KString (Node_ID n) := Good n]> (nodes db)).


(** A group that a caller inserts without setting its ID field, into a store
    that has no root group. *)
Definition ops_group : Group := mkGroup zero "ops" 99 [mkUserRoles 5 ["user"]].

Definition stray_root_store : Store := (GroupInsert 42 ops_group empty_store).1.

Definition corrupt_group_store : Store :=
  mkStore ∅ ∅ ∅ {[ KUUID 1 := Corrupt ]} ∅.

(** The root group followed by an undecodable record, and an undecodable
    record followed by a group whose ID field was left at zero. *)
Definition root_corrupt_store : Store :=
  mkStore ∅ ∅ ∅ (<[KUUID 9 := Corrupt]> {[ KUUID zero := Good root_group ]}) ∅.

Definition corrupt_stray_store : Store :=
  mkStore ∅ ∅ ∅
    (<[KUUID 1 := Corrupt]> {[ KUUID 42 := Good (Group_with_Parent zero ops_group) ]})
    ∅.

(** Stores in which the all-zero key is taken before [initialize] runs: by a
    user and by a group whose ID fields were left at their zero value. *)
Definition zero_user_store : Store := (UserUpdate demo_user empty_store).1.
Definition zero_group_store : Store := (GroupUpdate ops_group empty_store).1.

(** The store after [initialize] on the empty store. *)
Definition initialized_store : Store := (initialize empty_store).1.

(** The admin user followed by an undecodable user record. *)
Definition admin_corrupt_store : Store :=
  mkStore ∅ ∅ (<[KUUID 1 := Corrupt]> (users initialized_store)) ∅ ∅.

(** A group one of whose members has no User record. *)
Definition crew_store : Store :=
  mkStore ∅ ∅
    (<[KUUID 5 := Good (tie_user 5 "eve")]> {[ KUUID 6 := Good (tie_user 6 "fay") ]})
    {[ KUUID 21 := Good (mkGroup 21 "crew" zero
                           [mkUserRoles 5 ["user"]; mkUserRoles 6 ["user"];
                            mkUserRoles 8 ["user"]; mkUserRoles 5 ["admin"]]) ]}
    ∅.

(** The records a bucket holds. *)
Definition holds {V} (b : gmap Key (stored V)) (v : V) : Prop :=
  exists k, b !! k = Some (Good v).

(** An encoder that appends the document to the output. *)
Definition append_dump (d : dbDump) (out : list dbDump) : list dbDump * error :=
  (out ++ [d], None).

(** The state of the loop after [n] passes, in closed form. *)
Definition loop_state_at (n : nat) : SimLoop :=
  mkSimLoop (Nat.even n) (triangle n) (n mod 20 <? 10)%nat.

(** A call that leaves the Command records and every pending flag as they
    were. *)
Definition keeps_pending (db db' : Store) : Prop :=
  cmds db' = cmds db /\ forall id, pending db' id = pending db id.

Definition is_NodeDelete (op : DbOp) : bool :=
  match op with
  | CallNodeDelete _ => true
  | _ => false
  end.

Definition is_command_call (op : DbOp) : bool :=
  match op with
  | CallNodeSetCmd _ | CallNodeDeleteCmd _ | CallNodeGetCmd _ => true
  | _ => false
  end.

(** A set pending flag comes with a Command record, for every node. *)
Definition flag_has_command (db : Store) : Prop :=
  forall id, pending db id = true -> has_command db id.

(** * Properties *)

(** ** Command/pending invariant *)

Lemma NodeSetCmd_spec (cmd : NodeCmd) (db : Store) :
  let k := KString (NodeCmd_ID cmd) in
  (exists dev,
      nodes db !! k = Some (Good dev) /\
      cmds db !! k <> Some Corrupt /\
      NodeSetCmd cmd db =
        (mkStore (<[k := Good (SetCmdPending true dev)]> (nodes db))
                 (<[k := Good cmd]> (cmds db))
                 (users db) (groups db) (rules db), None))
  \/ (exists e, NodeSetCmd cmd db = (db, Some e) /\
                (nodes db !! k = None -> cmds db !! k = None -> e = ErrNotFound)).
Proof.
  intros k. unfold NodeSetCmd, update, TxUpsert, TxGet, TxUpdate. cbn.
  fold k.
  destruct (cmds db !! k) as [[c|]|] eqn:Hc; cbn;
    destruct (nodes db !! k) as [[dev|]|] eqn:Hn; cbn;
    try (right; eexists; split; [reflexivity | congruence]);
    left; exists dev; (split; [done|]); (split; [congruence|done]).
Qed.

Lemma NodeDeleteCmd_spec (id : string) (db : Store) :
  let k := KString id in
  (exists c dev,
      cmds db !! k = Some (Good c) /\
      nodes db !! k = Some (Good dev) /\
      NodeDeleteCmd id db =
        (mkStore (<[k := Good (SetCmdPending false dev)]> (nodes db))
                 (delete k (cmds db))
                 (users db) (groups db) (rules db), None))
  \/ (exists e, NodeDeleteCmd id db = (db, Some e)).
Proof.
  intros k. unfold NodeDeleteCmd, update, TxDelete, TxGet, TxUpdate. cbn.
  fold k.
  destruct (cmds db !! k) as [[c|]|] eqn:Hc; cbn;
    destruct (nodes db !! k) as [[dev|]|] eqn:Hn; cbn;
    try (right; eexists; reflexivity).
  left. by exists c, dev.
Qed.

Lemma NodeGetCmd_absent (id : string) (db : Store) :
  cmds db !! KString id = None ->
  NodeGetCmd id db = (db, (NodeCmd_zero, None)).
Proof.
  intros Hc. unfold NodeGetCmd, NodeGetCmd_tx, update, TxGet. cbn.
  by rewrite Hc.
Qed.

Lemma NodeGetCmd_corrupt (id : string) (db : Store) :
  cmds db !! KString id = Some Corrupt ->
  NodeGetCmd id db = (db, (NodeCmd_zero, Some ErrGobDecode)).
Proof.
  intros Hc. unfold NodeGetCmd, NodeGetCmd_tx, update, TxGet. cbn.
  by rewrite Hc.
Qed.

Lemma NodeGetCmd_empty (id : string) (db : Store) (c : NodeCmd) :
  cmds db !! KString id = Some (Good c) ->
  NodeCmd_Cmd c = "" ->
  NodeGetCmd id db = (db, (c, None)).
Proof.
  intros Hc He. unfold NodeGetCmd, NodeGetCmd_tx, update, TxGet. cbn.
  rewrite Hc. cbn [decode].
  repeat case_decide; try done; congruence.
Qed.

Lemma NodeGetCmd_taken (id : string) (db : Store) (c : NodeCmd) (dev : Node) :
  cmds db !! KString id = Some (Good c) ->
  NodeCmd_Cmd c <> "" ->
  nodes db !! KString id = Some (Good dev) ->
  NodeGetCmd id db =
    (mkStore (<[KString id := Good (SetCmdPending false dev)]> (nodes db))
             (delete (KString id) (cmds db))
             (users db) (groups db) (rules db), (c, None)).
Proof.
  intros Hc He Hn.
  unfold NodeGetCmd, NodeGetCmd_tx, update, TxGet, TxDelete, TxUpdate. cbn.
  rewrite Hc. cbn [decode].
  repeat case_decide; try done; cbn; by rewrite Hn.
Qed.

Lemma NodeGetCmd_node_unreadable (id : string) (db : Store) (c : NodeCmd) :
  cmds db !! KString id = Some (Good c) ->
  NodeCmd_Cmd c <> "" ->
  (forall dev, nodes db !! KString id <> Some (Good dev)) ->
  exists e, NodeGetCmd id db = (db, (c, Some e)).
Proof.
  intros Hc He Hn.
  unfold NodeGetCmd, NodeGetCmd_tx, update, TxGet, TxDelete, TxUpdate. cbn.
  rewrite Hc. cbn [decode].
  repeat case_decide; try done. cbn.
  destruct (nodes db !! KString id) as [[dev|]|] eqn:E; cbn; eauto.
  by destruct (Hn dev).
Qed.

(** Every command operation either leaves the store as it is or leaves, for
    its own identifier, a command with the flag set or no command with the
    flag cleared; other identifiers are not touched. *)
Definition cmd_step (db db' : Store) : Prop :=
  db' = db \/
  exists k dev (c : option NodeCmd),
    nodes db' = <[KString k := Good (SetCmdPending (bool_decide (is_Some c)) dev)]> (nodes db) /\
    cmds db' = match c with
               | Some c => <[KString k := Good c]> (cmds db)
               | None => delete (KString k) (cmds db)
               end.

Lemma run_op_step (op : CmdOp) (db : Store) : cmd_step db (run_op op db).
Proof.
  destruct op as [cmd|id|id]; cbn.
  - destruct (NodeSetCmd_spec cmd db) as [(dev & Hn & Hc & ->)|(e & -> & _)];
      [right|by left].
    by exists (NodeCmd_ID cmd), dev, (Some cmd).
  - destruct (cmds db !! KString id) as [[c|]|] eqn:Hc.
    + destruct (decide (NodeCmd_Cmd c = "")) as [He|He].
      { rewrite (NodeGetCmd_empty _ _ _ Hc He). by left. }
      destruct (nodes db !! KString id) as [[dev|]|] eqn:Hn.
      * rewrite (NodeGetCmd_taken _ _ _ _ Hc He Hn). right.
        by exists id, dev, None.
      * destruct (NodeGetCmd_node_unreadable id db c Hc He) as [e ->];
          [congruence|by left].
      * destruct (NodeGetCmd_node_unreadable id db c Hc He) as [e ->];
          [congruence|by left].
    + rewrite (NodeGetCmd_corrupt _ _ Hc). by left.
    + rewrite (NodeGetCmd_absent _ _ Hc). by left.
  - destruct (NodeDeleteCmd_spec id db) as [(c & dev & Hc & Hn & ->)|(e & ->)];
      [right|by left].
    by exists id, dev, None.
Qed.

Lemma cmd_step_invariant (db db' : Store) (id : string) :
  cmd_step db db' -> cmd_invariant db id -> cmd_invariant db' id.
Proof.
  intros [->|(k & dev & c & Hn & Hc)] Hinv; [done|].
  unfold cmd_invariant, pending, has_command in *. rewrite Hn, Hc.
  destruct (decide (k = id)) as [->|Hne].
  - rewrite lookup_insert_eq. destruct c as [c|]; cbn.
    + rewrite lookup_insert_eq. split; eauto.
    + rewrite lookup_delete_eq. split; [done|]. by intros [? ?].
  - assert (KString k <> KString id) by congruence.
    rewrite lookup_insert_ne by done.
    destruct c as [c|]; [by rewrite lookup_insert_ne|by rewrite lookup_delete_ne].
Qed.

Lemma run_ops_invariant (id : string) (ops : list CmdOp) (db : Store) :
  cmd_invariant db id -> Forall (fun db' => cmd_invariant db' id) (run_ops ops db).
Proof.
  revert db. induction ops as [|op ops IH]; intros db Hinv; cbn; [constructor|].
  assert (cmd_invariant (run_op op db) id)
    by eauto using cmd_step_invariant, run_op_step.
  constructor; auto.
Qed.

(** C1. For every node identifier and every sequence of setCommand,
    takeCommand and clearCommand operations run on a store in which the
    pending flag of the node agrees with the presence of its Command record,
    the two agree again after each operation; and a setCommand whose target
    node does not exist fails with NotFound, the transaction is rolled back and
    no Command record is left for the node. *)
Theorem command_pending_invariant :
  (forall (id : string) (ops : list CmdOp) (db : Store),
      cmd_invariant db id ->
      Forall (fun db' => cmd_invariant db' id) (run_ops ops db))
  /\ (forall (cmd : NodeCmd) (db : Store),
        cmd_invariant db (NodeCmd_ID cmd) ->
        nodes db !! KString (NodeCmd_ID cmd) = None ->
        NodeSetCmd cmd db = (db, Some ErrNotFound)
        /\ ~ has_command (NodeSetCmd cmd db).1 (NodeCmd_ID cmd)).
Proof.
  split; [apply run_ops_invariant|].
  intros cmd db Hinv Hn.
  assert (Hc : cmds db !! KString (NodeCmd_ID cmd) = None).
  { destruct (cmds db !! KString (NodeCmd_ID cmd)) as [x|] eqn:E; [|done].
    assert (Hp : pending db (NodeCmd_ID cmd) = true)
      by (apply Hinv; unfold has_command; rewrite E; eauto).
    unfold pending in Hp. by rewrite Hn in Hp. }
  destruct (NodeSetCmd_spec cmd db) as [(dev & Hn' & _)|(e & He & Hnf)];
    [congruence|].
  rewrite He, (Hnf Hn Hc). split; [done|].
  cbn. unfold has_command. rewrite Hc. by intros [? ?].
Qed.

Lemma demo_store_invariant : cmd_invariant demo_store "n1".
Proof.
  unfold cmd_invariant, pending, has_command, demo_store; cbn.
  rewrite lookup_singleton_eq, lookup_empty. cbn.
  split; [done|]. by intros [? ?].
Qed.

Lemma command_pending_invariant_witness :
  Forall (fun db' => cmd_invariant db' "n1")
         (run_ops [OpSetCommand demo_cmd; OpTakeCommand "n1"; OpTakeCommand "n1";
                   OpSetCommand (mkNodeCmd "ghost" "x"); OpSetCommand demo_cmd;
                   OpClearCommand "n1"] demo_store)
  /\ (NodeSetCmd (mkNodeCmd "ghost" "x") demo_store = (demo_store, Some ErrNotFound)
      /\ ~ has_command (NodeSetCmd (mkNodeCmd "ghost" "x") demo_store).1 "ghost").
Proof.
  split.
  - apply (proj1 command_pending_invariant). apply demo_store_invariant.
  - apply (proj2 command_pending_invariant (mkNodeCmd "ghost" "x") demo_store).
    + unfold cmd_invariant, pending, has_command, demo_store; cbn.
      rewrite lookup_singleton_ne by done. rewrite lookup_empty.
      split; [done|]. by intros [? ?].
    + cbn. by rewrite lookup_singleton_ne.
Defined.

(** ** takeCommand *)

(** C5 (as the code has it). For a node identifier with no stored Command,
    takeCommand returns the empty command and no error and leaves the store
    as it is, the pending flag being false; a stored Command with a
    non-empty payload whose node is stored is returned and, in the one
    transaction, its record is deleted and the pending flag of the node is
    cleared; when the node has no record, the command is returned together
    with NotFound and stays stored; a stored Command with an empty payload
    is returned and stays stored. *)
Theorem takeCommand_cases :
  (forall (id : string) (db : Store),
      cmds db !! KString id = None ->
      NodeGetCmd id db = (db, (NodeCmd_zero, None))
      /\ (cmd_invariant db id -> pending (NodeGetCmd id db).1 id = false))
  /\ (forall (id : string) (db : Store) (c : NodeCmd) (dev : Node),
        cmds db !! KString id = Some (Good c) ->
        NodeCmd_Cmd c <> "" ->
        nodes db !! KString id = Some (Good dev) ->
        NodeGetCmd id db =
          (mkStore (<[KString id := Good (SetCmdPending false dev)]> (nodes db))
                   (delete (KString id) (cmds db))
                   (users db) (groups db) (rules db), (c, None))
        /\ cmds (NodeGetCmd id db).1 !! KString id = None
        /\ pending (NodeGetCmd id db).1 id = false)
  /\ (forall (id : string) (db : Store) (c : NodeCmd),
        cmds db !! KString id = Some (Good c) ->
        NodeCmd_Cmd c <> "" ->
        nodes db !! KString id = None ->
        NodeGetCmd id db = (db, (c, Some ErrNotFound))
        /\ cmds (NodeGetCmd id db).1 !! KString id = Some (Good c))
  /\ (forall (id : string) (db : Store) (c : NodeCmd),
        cmds db !! KString id = Some (Good c) ->
        NodeCmd_Cmd c = "" ->
        NodeGetCmd id db = (db, (c, None))
        /\ cmds (NodeGetCmd id db).1 !! KString id = Some (Good c)).
Proof.
  split; [|split; [|split]].
  - intros id db Hc. rewrite (NodeGetCmd_absent _ _ Hc). split; [done|].
    intros Hinv. cbn. destruct (pending db id) eqn:Hp; [|done].
    apply Hinv in Hp. destruct Hp as [x Hx]. congruence.
  - intros id db c dev Hc He Hn.
    rewrite (NodeGetCmd_taken _ _ _ _ Hc He Hn). split; [done|]. cbn.
    split; [apply lookup_delete_eq|].
    unfold pending; cbn. by rewrite lookup_insert_eq.
  - intros id db c Hc He Hn.
    assert (E : NodeGetCmd id db = (db, (c, Some ErrNotFound))).
    { unfold NodeGetCmd, NodeGetCmd_tx, update, TxGet, TxDelete, TxUpdate. cbn.
      rewrite Hc. cbn [decode].
      repeat case_decide; try done. cbn. by rewrite Hn. }
    by rewrite E.
  - intros id db c Hc He. by rewrite (NodeGetCmd_empty _ _ _ Hc He).
Qed.

Lemma takeCommand_cases_witness :
  (NodeGetCmd "n1" demo_store = (demo_store, (NodeCmd_zero, None))
   /\ (cmd_invariant demo_store "n1" -> pending (NodeGetCmd "n1" demo_store).1 "n1" = false))
  /\ (NodeGetCmd "n1" demo_store_cmd =
        (mkStore (<[KString "n1" := Good (SetCmdPending false (SetCmdPending true demo_node))]>
                    (nodes demo_store_cmd))
                 (delete (KString "n1") (cmds demo_store_cmd))
                 (users demo_store_cmd) (groups demo_store_cmd) (rules demo_store_cmd),
         (demo_cmd, None))
      /\ cmds (NodeGetCmd "n1" demo_store_cmd).1 !! KString "n1" = None
      /\ pending (NodeGetCmd "n1" demo_store_cmd).1 "n1" = false)
  /\ (NodeGetCmd "n1" orphan_store = (orphan_store, (demo_cmd, Some ErrNotFound))
      /\ cmds (NodeGetCmd "n1" orphan_store).1 !! KString "n1" = Some (Good demo_cmd))
  /\ (NodeGetCmd "n1" demo_store_empty_cmd = (demo_store_empty_cmd, (mkNodeCmd "n1" "", None))
      /\ cmds (NodeGetCmd "n1" demo_store_empty_cmd).1 !! KString "n1"
         = Some (Good (mkNodeCmd "n1" ""))).
Proof.
  destruct takeCommand_cases as (H1 & H2 & H3 & H4).
  split; [|split; [|split]].
  - apply (H1 "n1" demo_store). reflexivity.
  - apply (H2 "n1" demo_store_cmd demo_cmd (SetCmdPending true demo_node)).
    + reflexivity.
    + discriminate.
    + reflexivity.
  - apply (H3 "n1" orphan_store demo_cmd).
    + reflexivity.
    + discriminate.
    + reflexivity.
  - apply (H4 "n1" demo_store_empty_cmd (mkNodeCmd "n1" "")).
    + reflexivity.
    + reflexivity.
Defined.

(** C5 as stated fails.  A command is set for the stored node n1 and the
    node is then deleted, which leaves the Command record behind: it is a
    stored Command with a non-empty payload, and takeCommand returns it with
    NotFound, deletes nothing and clears no flag. *)
Lemma takeCommand_keeps_command_of_deleted_node :
  let db := (NodeDelete "n1" (NodeSetCmd demo_cmd demo_store).1).1 in
  cmds db !! KString "n1" = Some (Good demo_cmd)
  /\ NodeCmd_Cmd demo_cmd <> ""
  /\ NodeGetCmd "n1" db = (db, (demo_cmd, Some ErrNotFound))
  /\ cmds (NodeGetCmd "n1" db).1 !! KString "n1" = Some (Good demo_cmd).
Proof.
  intros db. split; [reflexivity|]. split; [discriminate|].
  split; reflexivity.
Qed.

(** ** applyPoint *)

Lemma NodePoint_store (id : string) (p : Point) (db : Db) :
  ((NodePoint id p db).1.(store), (NodePoint id p db).2)
  = update (fun tx =>
      dev ← get_or_new tx id;
      TxUpsert tx (GoString id) (SetState SysStateOnline (ProcessPoint p dev)))
    (store db).
Proof.
  unfold NodePoint.
  by destruct (update _ (store db)).
Qed.

Lemma get_or_new_absent (tx : Store) (id : string) :
  nodes tx !! KString id = None ->
  get_or_new tx id = Ok (Node_with_ID id Node_zero).
Proof.
  intros Hn. unfold get_or_new, TxGet. cbn. rewrite Hn.
  by rewrite decide_True.
Qed.

Lemma get_or_new_present (tx : Store) (id : string) (dev : Node) :
  nodes tx !! KString id = Some (Good dev) ->
  get_or_new tx id = Ok dev.
Proof. intros Hn. unfold get_or_new, TxGet. cbn. by rewrite Hn. Qed.

Lemma ProcessPoint_lookup (p : Point) (dev : Node) :
  existsb (same_point_id p) (Node_Points dev) = true ->
  Node_Points (ProcessPoint p dev)
  = map (fun q => if same_point_id p q then p else q) (Node_Points dev).
Proof. intros H. unfold ProcessPoint. by rewrite H. Qed.

(** C2. applyPoint on an identifier that the store does not hold creates one
    node, under that identifier, with the point as its whole point set and
    the online state, and touches no other record.  applyPoint on a stored
    node that already holds a point of the same (Type, Key) puts the new
    point at the place of that point (whatever the timestamps), leaves the
    identifier, the other fields and every point of another (Type, Key) as
    they were, and sets the state to online. *)
Theorem applyPoint_upsert :
  (forall (id : string) (p : Point) (db : Db),
      nodes (store db) !! KString id = None ->
      (NodePoint id p db).2 = None
      /\ store (NodePoint id p db).1
         = mkStore (<[KString id := Good (mkNode id "" [p] [] [] SysStateOnline false 0)]>
                      (nodes (store db)))
                   (cmds (store db)) (users (store db)) (groups (store db))
                   (rules (store db)))
  /\ (forall (id : string) (p : Point) (db : Db) (dev : Node),
        nodes (store db) !! KString id = Some (Good dev) ->
        existsb (same_point_id p) (Node_Points dev) = true ->
        exists dev',
          (NodePoint id p db).2 = None
          /\ store (NodePoint id p db).1
             = mkStore (<[KString id := Good dev']> (nodes (store db)))
                       (cmds (store db)) (users (store db)) (groups (store db))
                       (rules (store db))
          /\ Node_ID dev' = Node_ID dev
          /\ Node_Type dev' = Node_Type dev
          /\ Node_Groups dev' = Node_Groups dev
          /\ Node_Rules dev' = Node_Rules dev
          /\ Node_CmdPending dev' = Node_CmdPending dev
          /\ Node_SwUpdateState dev' = Node_SwUpdateState dev
          /\ Node_SysState dev' = SysStateOnline
          /\ length (Node_Points dev') = length (Node_Points dev)
          /\ (forall (i : nat) (q : Point),
                Node_Points dev !! i = Some q ->
                Node_Points dev' !! i = Some (if same_point_id p q then p else q))).
Proof.
  split.
  - intros id p db Hn.
    pose proof (NodePoint_store id p db) as E.
    unfold update in E. rewrite (get_or_new_absent _ _ Hn) in E.
    unfold TxUpsert in E. cbn in E. rewrite Hn in E.
    by inversion E.
  - intros id p db dev Hn Hex.
    pose proof (NodePoint_store id p db) as E.
    unfold update in E. rewrite (get_or_new_present _ _ _ Hn) in E.
    unfold TxUpsert in E. cbn in E. rewrite Hn in E. cbn in E.
    inversion E as [[E1 E2]].
    exists (SetState SysStateOnline (ProcessPoint p dev)).
    repeat (split; [try done|]).
    + by unfold ProcessPoint; rewrite Hex.
    + by unfold ProcessPoint; rewrite Hex.
    + by unfold ProcessPoint; rewrite Hex.
    + by unfold ProcessPoint; rewrite Hex.
    + by unfold ProcessPoint; rewrite Hex.
    + by unfold ProcessPoint; rewrite Hex.
    + cbn. rewrite (ProcessPoint_lookup _ _ Hex). by rewrite length_map.
    + intros i q Hq. cbn. rewrite (ProcessPoint_lookup _ _ Hex).
      by rewrite list_lookup_fmap, Hq.
Qed.

Lemma applyPoint_upsert_witness :
  let p1 := demo_point 5 100 in
  let p2 := demo_point 7 200 in
  let db1 := (NodePoint "n1" p1 demo_db).1 in
  ((NodePoint "n1" p1 demo_db).2 = None
   /\ store db1
      = mkStore (<[KString "n1" := Good (mkNode "n1" "" [p1] [] [] SysStateOnline false 0)]>
                   (nodes (store demo_db)))
                (cmds (store demo_db)) (users (store demo_db)) (groups (store demo_db))
                (rules (store demo_db)))
  /\ (exists dev',
        (NodePoint "n1" p2 db1).2 = None
        /\ store (NodePoint "n1" p2 db1).1
           = mkStore (<[KString "n1" := Good dev']> (nodes (store db1)))
                     (cmds (store db1)) (users (store db1)) (groups (store db1))
                     (rules (store db1))
        /\ Node_ID dev' = "n1"
        /\ Node_Points dev' = [p2]).
Proof.
  intros p1 p2 db1. split.
  - apply (proj1 applyPoint_upsert "n1" p1 demo_db). reflexivity.
  - destruct (proj2 applyPoint_upsert "n1" p2 db1
                (mkNode "n1" "" [p1] [] [] SysStateOnline false 0))
      as (dev' & He & Hs & Hid & _ & _ & _ & _ & _ & _ & Hlen & Hpts).
    + reflexivity.
    + reflexivity.
    + exists dev'. repeat split; try done.
      specialize (Hpts 0%nat p1 eq_refl).
      assert (Hsame : same_point_id p2 p1 = true) by reflexivity.
      rewrite Hsame in Hpts.
      destruct (Node_Points dev') as [|q [|q' l]]; try done.
      by inversion Hpts.
Defined.

(** ** deleteRule *)

(** C6. deleteRule on a stored rule whose owning node is stored deletes the
    Rule record and writes no Node record: every node, the owning node
    included, is stored as before, so an identifier listed in the Rules of
    the owning node is still listed there after the call. *)
Theorem deleteRule_keeps_nodes (id : UUID) (db : Store) (rule : Rule) (device : Node) :
  rules db !! KUUID id = Some (Good rule) ->
  nodes db !! KString (RuleConfig_NodeID (Rule_Config rule)) = Some (Good device) ->
  RuleDelete id db
  = (mkStore (nodes db) (cmds db) (users db) (groups db) (delete (KUUID id) (rules db)),
     None)
  /\ rules (RuleDelete id db).1 !! KUUID id = None
  /\ nodes (RuleDelete id db).1 = nodes db
  /\ (id ∈ Node_Rules device ->
      exists device',
        nodes (RuleDelete id db).1 !! KString (RuleConfig_NodeID (Rule_Config rule))
        = Some (Good device')
        /\ id ∈ Node_Rules device').
Proof.
  intros Hr Hn.
  assert (E : RuleDelete id db
              = (mkStore (nodes db) (cmds db) (users db) (groups db)
                         (delete (KUUID id) (rules db)), None)).
  { unfold RuleDelete, update, TxGet, TxDelete. cbn.
    rewrite Hr. cbn. by rewrite Hn. }
  rewrite E. cbn. repeat split; [apply lookup_delete_eq|].
  intros Hin. exists device. by rewrite Hn.
Qed.

Lemma deleteRule_keeps_nodes_witness :
  RuleDelete 7 demo_store_rule
  = (mkStore (nodes demo_store_rule) (cmds demo_store_rule) (users demo_store_rule)
             (groups demo_store_rule) (delete (KUUID 7) (rules demo_store_rule)), None)
  /\ rules (RuleDelete 7 demo_store_rule).1 !! KUUID 7 = None
  /\ nodes (RuleDelete 7 demo_store_rule).1 = nodes demo_store_rule
  /\ (7%N ∈ Node_Rules (Node_with_Rules [7%N] demo_node) ->
      exists device',
        nodes (RuleDelete 7 demo_store_rule).1 !! KString "n1" = Some (Good device')
        /\ 7%N ∈ Node_Rules device').
Proof.
  apply (deleteRule_keeps_nodes 7 demo_store_rule (Rule_with_ID 7 demo_rule)
           (Node_with_Rules [7%N] demo_node)).
  - reflexivity.
  - reflexivity.
Defined.

(** ** insertGroup and insertUser *)

(** C9. insertGroup stores, under the identifier drawn for it, the group it
    was given with the Parent field set to the all-zero identifier, whatever
    Parent the caller supplied; the other fields are stored as given. *)
Theorem insertGroup_resets_parent (id : UUID) (g : Group) (db : Store) :
  groups db !! KUUID id = None ->
  exists stored_group,
    GroupInsert id g db
    = (mkStore (nodes db) (cmds db) (users db)
               (<[KUUID id := Good stored_group]> (groups db)) (rules db),
       (UUID_String id, None))
    /\ groups (GroupInsert id g db).1 !! KUUID id = Some (Good stored_group)
    /\ Group_Parent stored_group = zero
    /\ Group_ID stored_group = Group_ID g
    /\ Group_Name stored_group = Group_Name g
    /\ Group_Users stored_group = Group_Users g.
Proof.
  intros Hfresh. exists (Group_with_Parent zero g).
  assert (E : GroupInsert id g db
              = (mkStore (nodes db) (cmds db) (users db)
                   (<[KUUID id := Good (Group_with_Parent zero g)]> (groups db))
                   (rules db), (UUID_String id, None))).
  { unfold GroupInsert, update, TxInsert. cbn. by rewrite Hfresh. }
  rewrite E. cbn. by rewrite lookup_insert_eq.
Qed.

Lemma insertGroup_resets_parent_witness :
  exists stored_group,
    GroupInsert 42 demo_group empty_store
    = (mkStore (nodes empty_store) (cmds empty_store) (users empty_store)
               (<[KUUID 42 := Good stored_group]> (groups empty_store))
               (rules empty_store),
       (UUID_String 42, None))
    /\ groups (GroupInsert 42 demo_group empty_store).1 !! KUUID 42
       = Some (Good stored_group)
    /\ Group_Parent stored_group = zero
    /\ Group_ID stored_group = Group_ID demo_group
    /\ Group_Name stored_group = Group_Name demo_group
    /\ Group_Users stored_group = Group_Users demo_group.
Proof.
  apply (insertGroup_resets_parent 42 demo_group empty_store). reflexivity.
Defined.

Example UUID_String_42 :
  UUID_String 42 = "00000000-0000-0000-0000-00000000002a".
Proof. reflexivity. Qed.

(** ** The order of the keys and the rows of a bucket *)

Lemma bytes_le_total (a b : list N) : bytes_le a b = true \/ bytes_le b a = true.
Proof.
  revert b. induction a as [|x a IH]; intros [|y b]; cbn; auto.
  destruct (N.ltb_spec x y), (N.ltb_spec y x); auto; lia.
Qed.

Lemma bytes_le_trans (a b c : list N) :
  bytes_le a b = true -> bytes_le b c = true -> bytes_le a c = true.
Proof.
  revert b c. induction a as [|x a IH]; intros [|y b] [|z c]; cbn; try done.
  destruct (N.ltb_spec x y), (N.ltb_spec y x), (N.ltb_spec y z),
    (N.ltb_spec z y), (N.ltb_spec x z), (N.ltb_spec z x);
    try done; try lia.
  apply IH.
Qed.

Lemma key_le_total (a b : Key) : key_le a b = true \/ key_le b a = true.
Proof.
  destruct a as [s|u], b as [t|v]; cbn; auto.
  - apply bytes_le_total.
  - destruct (N.leb_spec u v), (N.leb_spec v u); auto; lia.
Qed.

Lemma key_le_trans (a b c : Key) :
  key_le a b = true -> key_le b c = true -> key_le a c = true.
Proof.
  destruct a as [s|u], b as [t|v], c as [r|w]; cbn; try done.
  - apply bytes_le_trans.
  - rewrite !N.leb_le. lia.
Qed.

(** The all-zero UUID is the first key of every bucket that holds it. *)
Lemma key_le_zero (k : Key) : key_le (KUUID zero) k = true.
Proof. destruct k as [s|u]; [done|]. cbn. apply N.leb_le. unfold zero. lia. Qed.

Lemma key_le_zero_inv (k : Key) : key_le k (KUUID zero) = true -> k = KUUID zero.
Proof.
  destruct k as [s|u]; cbn; [done|]. rewrite N.leb_le. unfold zero.
  intros Hu. f_equal. lia.
Qed.

#[local] Instance row_le_total {V} : Total (@row_le V).
Proof. intros x y. apply key_le_total. Qed.

#[local] Instance row_le_trans {V} : Transitive (@row_le V).
Proof. intros x y z. apply key_le_trans. Qed.

Section Rows.
Context {V : Type}.

Lemma rows_Permutation (m : gmap Key V) : rows m ≡ₚ map_to_list m.
Proof. apply merge_sort_Permutation. Qed.

Lemma elem_of_rows (m : gmap Key V) (k : Key) (v : V) :
  (k, v) ∈ rows m <-> m !! k = Some v.
Proof. by rewrite rows_Permutation, elem_of_map_to_list. Qed.

Lemma NoDup_fst_rows (m : gmap Key V) : NoDup (rows m).*1.
Proof. rewrite rows_Permutation. apply NoDup_fst_map_to_list. Qed.

Lemma rows_sorted (m : gmap Key V) : StronglySorted row_le (rows m).
Proof. apply StronglySorted_merge_sort; apply _. Qed.

(** The rows before a key are the records of the keys that precede it. *)
Lemma rows_split (m : gmap Key V) (k0 : Key) (v0 : V) :
  m !! k0 = Some v0 ->
  exists l1 l2,
    rows m = l1 ++ (k0, v0) :: l2
    /\ (forall k v, (k, v) ∈ l1 ->
          m !! k = Some v /\ k <> k0 /\ key_le k k0 = true)
    /\ (forall k v, (k, v) ∈ l2 ->
          m !! k = Some v /\ k <> k0 /\ key_le k0 k = true).
Proof.
  intros Hk. apply elem_of_rows in Hk.
  destruct (list_elem_of_split _ _ Hk) as (l1 & l2 & E).
  exists l1, l2. split; [done|].
  pose proof (NoDup_fst_rows m) as Hnd. pose proof (rows_sorted m) as Hs.
  rewrite E in Hnd, Hs. rewrite fmap_app, fmap_cons in Hnd. cbn in Hnd.
  apply NoDup_app in Hnd as (_ & Hdisj & Hnd2).
  apply NoDup_cons in Hnd2 as [Hnot2 _].
  split; intros k v Hin.
  - split; [apply elem_of_rows; rewrite E; apply elem_of_app; by left|].
    split.
    + intros ->. apply (Hdisj k0); [|by left].
      apply list_elem_of_fmap. by exists (k0, v).
    + apply (StronglySorted_app_1_elem_of row_le l1 ((k0, v0) :: l2) (k, v) (k0, v0));
        [done|done|by left].
  - split; [apply elem_of_rows; rewrite E; apply elem_of_app; right; by right|].
    split.
    + intros ->. apply Hnot2. apply list_elem_of_fmap. by exists (k0, v).
    + apply StronglySorted_app_1_r in Hs. apply StronglySorted_cons in Hs as [Hall _].
      rewrite Forall_forall in Hall. by apply (Hall (k, v)).
Qed.

End Rows.

(** ** Scans of a bucket *)

Section Scan.
Context {V : Type} `{Storer V}.

Lemma mapM_decode_inv (l : list (Key * stored V)) (rs : list (Key * V)) :
  mapM decode_row l = Ok rs ->
  l = map (fun r => (r.1, Good r.2)) rs.
Proof.
  revert rs. induction l as [|[k [v|]] l IH]; intros rs E; cbn in E.
  - by inversion E.
  - destruct (mapM decode_row l) as [rs'|e] eqn:E'; cbn in E; [|done].
    inversion E; subst. cbn. by rewrite <- (IH rs').
  - done.
Qed.

Lemma mapM_decode_good (l : list (Key * stored V)) :
  (forall k, (k, Corrupt) ∉ l) ->
  exists rs, mapM decode_row l = Ok rs.
Proof.
  induction l as [|[k [v|]] l IH]; intros Hgood; cbn.
  - eauto.
  - destruct IH as [rs ->].
    { intros k' Hin. apply (Hgood k'). by right. }
    cbn. eauto.
  - destruct (Hgood k). by left.
Qed.

Lemma mapM_decode_corrupt (l : list (Key * stored V)) (k : Key) :
  (k, Corrupt) ∈ l -> mapM decode_row l = Err ErrGobDecode.
Proof.
  induction l as [|[k' [v|]] l IH]; intros Hin; cbn.
  - by apply elem_of_nil in Hin.
  - apply elem_of_cons in Hin as [Heq|Hin]; [done|].
    by rewrite (IH Hin).
  - done.
Qed.

Lemma scan_unfold (tx : Store) :
  scan tx = mapM decode_row (rows (bucket_of tx)).
Proof. reflexivity. Qed.

Lemma scan_corrupt (tx : Store) (k : Key) :
  bucket_of tx !! k = Some Corrupt -> scan tx = Err ErrGobDecode.
Proof.
  intros Hk. rewrite scan_unfold. apply (mapM_decode_corrupt _ k).
  by apply elem_of_rows.
Qed.

Lemma scan_healthy (tx : Store) :
  healthy (bucket_of tx) -> exists rs, scan tx = Ok rs.
Proof.
  intros Hh. rewrite scan_unfold. apply mapM_decode_good.
  intros k Hin. apply elem_of_rows in Hin. by apply (Hh k).
Qed.

Lemma scan_elem_of (tx : Store) (rs : list (Key * V)) (k : Key) (v : V) :
  scan tx = Ok rs ->
  (k, v) ∈ rs <-> bucket_of tx !! k = Some (Good v).
Proof.
  rewrite scan_unfold. intros E. apply mapM_decode_inv in E.
  rewrite <- elem_of_rows, E, list_elem_of_fmap. split.
  - intros Hin. by exists (k, v).
  - intros ([k' v'] & Heq & Hin). cbn in Heq. by inversion Heq; subst.
Qed.

Lemma scan_healthy_inv (tx : Store) (rs : list (Key * V)) :
  scan tx = Ok rs -> healthy (bucket_of tx).
Proof.
  intros E k Hk. by rewrite (scan_corrupt _ _ Hk) in E.
Qed.

Lemma scan_NoDup (tx : Store) (rs : list (Key * V)) :
  scan tx = Ok rs -> NoDup (rs.*1).
Proof.
  rewrite scan_unfold. intros E. apply mapM_decode_inv in E.
  pose proof (NoDup_fst_rows (bucket_of tx)) as Hnd.
  rewrite E in Hnd. by rewrite <- list_fmap_compose in Hnd.
Qed.

Lemma TxFind_elem_of (tx : Store) (query : V -> bool) (found : list V) (v : V) :
  TxFind tx query = Ok found ->
  v ∈ found <-> query v = true /\ exists k, bucket_of tx !! k = Some (Good v).
Proof.
  unfold TxFind. destruct (scan tx) as [rs|e] eqn:E; cbn; [|done].
  intros [= <-]. rewrite list_elem_of_filter, list_elem_of_fmap.
  split.
  - intros (Hq & [k v'] & -> & Hin). split; [done|].
    exists k. by apply (scan_elem_of tx rs).
  - intros (Hq & k & Hk). split; [done|].
    exists (k, v). split; [done|]. by apply (scan_elem_of tx rs).
Qed.

Lemma TxFind_corrupt (tx : Store) (query : V -> bool) (k : Key) :
  bucket_of tx !! k = Some Corrupt -> TxFind tx query = Err ErrGobDecode.
Proof. intros Hk. unfold TxFind. by rewrite (scan_corrupt _ _ Hk). Qed.

Lemma TxFind_healthy (tx : Store) (query : V -> bool) :
  healthy (bucket_of tx) -> exists found, TxFind tx query = Ok found.
Proof.
  intros Hh. unfold TxFind. destruct (scan_healthy tx Hh) as [rs ->].
  cbn. eauto.
Qed.

(** *** The walk of [TxFindOne] *)

Lemma find_first_app (query : V -> bool) (l1 l2 : list (Key * stored V)) :
  (forall k raw, (k, raw) ∈ l1 -> passed query raw) ->
  find_first query (l1 ++ l2) = find_first query l2.
Proof.
  induction l1 as [|[k raw] l1 IH]; intros Hpass; [done|].
  destruct (Hpass k raw) as (v & -> & Hq); [by left|].
  cbn. rewrite Hq. apply IH. intros k' raw' Hin. apply (Hpass k'). by right.
Qed.

Lemma find_first_inv (query : V -> bool) (l : list (Key * stored V)) (v : V) :
  find_first query l = Ok v ->
  query v = true /\ exists k, (k, Good v) ∈ l.
Proof.
  induction l as [|[k [v'|]] l IH]; cbn; try done.
  destruct (query v') eqn:Hq.
  - intros [= ->]. split; [done|]. exists k. by left.
  - intros E. destruct (IH E) as (Hv & k' & Hin). split; [done|].
    exists k'. by right.
Qed.

(** The first record in key order that the query accepts is the answer, if
    every record before it decodes. *)
Lemma TxFindOne_first (tx : Store) (query : V -> bool) (k0 : Key) (v0 : V) :
  bucket_of tx !! k0 = Some (Good v0) ->
  query v0 = true ->
  (forall k raw, bucket_of tx !! k = Some raw -> k <> k0 -> key_le k k0 = true ->
                 passed query raw) ->
  TxFindOne tx query = Ok v0.
Proof.
  intros Hk Hq Hbefore. unfold TxFindOne.
  destruct (rows_split _ _ _ Hk) as (l1 & l2 & -> & Hl1 & _).
  rewrite find_first_app.
  - cbn. by rewrite Hq.
  - intros k raw Hin. destruct (Hl1 k raw Hin) as (Hm & Hne & Hle).
    by apply (Hbefore k).
Qed.

(** An undecodable record stops the walk with the decode error, if no record
    before it is accepted. *)
Lemma TxFindOne_corrupt (tx : Store) (query : V -> bool) (k0 : Key) :
  bucket_of tx !! k0 = Some Corrupt ->
  (forall k raw, bucket_of tx !! k = Some raw -> k <> k0 -> key_le k k0 = true ->
                 passed query raw) ->
  TxFindOne tx query = Err ErrGobDecode.
Proof.
  intros Hk Hbefore. unfold TxFindOne.
  destruct (rows_split _ _ _ Hk) as (l1 & l2 & -> & Hl1 & _).
  rewrite find_first_app; [done|].
  intros k raw Hin. destruct (Hl1 k raw Hin) as (Hm & Hne & Hle).
  by apply (Hbefore k).
Qed.

Lemma TxFindOne_none (tx : Store) (query : V -> bool) :
  (forall k raw, bucket_of tx !! k = Some raw -> passed query raw) ->
  TxFindOne tx query = Err ErrNotFound.
Proof.
  intros Hall. unfold TxFindOne.
  rewrite <- (app_nil_r (rows (bucket_of tx))). rewrite find_first_app; [done|].
  intros k raw Hin. apply elem_of_rows in Hin. by apply (Hall k).
Qed.

Lemma TxFindOne_inv (tx : Store) (query : V -> bool) (v : V) :
  TxFindOne tx query = Ok v ->
  query v = true /\ exists k, bucket_of tx !! k = Some (Good v).
Proof.
  intros E. apply find_first_inv in E as (Hq & k & Hin).
  split; [done|]. exists k. by apply elem_of_rows.
Qed.

(** On a bucket whose records all decode, the walk finds a record whenever
    the query accepts one. *)
Lemma find_first_healthy (query : V -> bool) (l : list (Key * stored V)) :
  (forall k, (k, Corrupt) ∉ l) ->
  (exists k v, (k, Good v) ∈ l /\ query v = true) ->
  exists v, find_first query l = Ok v.
Proof.
  induction l as [|[k [v|]] l IH]; intros Hgood (k0 & v0 & Hin & Hq).
  - by apply elem_of_nil in Hin.
  - cbn. destruct (query v) eqn:Hv; [eauto|].
    apply IH.
    + intros k' Hc. apply (Hgood k'). by right.
    + apply elem_of_cons in Hin as [[= <- <-]|Hin]; [congruence|eauto].
  - destruct (Hgood k). by left.
Qed.

Lemma TxFindOne_healthy (tx : Store) (query : V -> bool) :
  healthy (bucket_of tx) ->
  (exists k v, bucket_of tx !! k = Some (Good v) /\ query v = true) ->
  exists k v, TxFindOne tx query = Ok v
              /\ bucket_of tx !! k = Some (Good v) /\ query v = true.
Proof.
  intros Hh (k0 & v0 & Hk & Hq).
  destruct (find_first_healthy query (rows (bucket_of tx))) as [v E].
  - intros k Hin. apply elem_of_rows in Hin. by apply (Hh k).
  - exists k0, v0. split; [by apply elem_of_rows|done].
  - destruct (TxFindOne_inv tx query v E) as (Hv & k & Hkv).
    by exists k, v.
Qed.

Lemma healthy_passed (tx : Store) (query : V -> bool) :
  healthy (bucket_of tx) ->
  (forall k v, bucket_of tx !! k = Some (Good v) -> query v = false) ->
  forall k raw, bucket_of tx !! k = Some raw -> passed query raw.
Proof.
  intros Hh Hno k [v|] Hk; [|by destruct (Hh k)].
  exists v. split; [done|]. by apply (Hno k).
Qed.

End Scan.

Lemma foldr_delete_matching_hit {V} (query : V -> bool) (rows : list (Key * V))
    (m : gmap Key (stored V)) (k : Key) (v : V) :
  (k, v) ∈ rows -> query v = true ->
  foldr (fun kv b => if query kv.2 then delete kv.1 b else b) m rows !! k = None.
Proof.
  induction rows as [|[k' v'] rows IH]; intros Hin Hq; cbn.
  - by apply elem_of_nil in Hin.
  - apply elem_of_cons in Hin as [[= <- <-]|Hin].
    + rewrite Hq. apply lookup_delete_eq.
    + destruct (query v'); [|by apply IH].
      destruct (decide (k' = k)) as [->|Hne];
        [apply lookup_delete_eq|rewrite lookup_delete_ne by done; by apply IH].
Qed.

Lemma foldr_delete_matching_miss {V} (query : V -> bool) (rows : list (Key * V))
    (m : gmap Key (stored V)) (k : Key) :
  (forall v, (k, v) ∈ rows -> query v = false) ->
  foldr (fun kv b => if query kv.2 then delete kv.1 b else b) m rows !! k = m !! k.
Proof.
  induction rows as [|[k' v'] rows IH]; intros Hmiss; cbn; [done|].
  assert (IH' : foldr (fun kv b => if query kv.2 then delete kv.1 b else b) m rows !! k
                = m !! k).
  { apply IH. intros v Hin. apply Hmiss. by right. }
  destruct (query v') eqn:Hq; [|done].
  destruct (decide (k' = k)) as [->|Hne].
  - rewrite (Hmiss v') in Hq; [done|by left].
  - by rewrite lookup_delete_ne.
Qed.

(** *** The string form of an identifier names that identifier *)

Lemma hex_digit_inj (a b : N) :
  (a < 16)%N -> (b < 16)%N -> hex_digit a = hex_digit b -> a = b.
Proof.
  assert (H : forall x y : nat, x < 16 -> y < 16 ->
            hex_digit (N.of_nat x) = hex_digit (N.of_nat y) -> x = y).
  { intros x y Hx Hy.
    do 16 (destruct x as [|x];
           [do 16 (destruct y as [|y];
                   [first [reflexivity | (intros E; vm_compute in E; discriminate)]|]);
            lia|]).
    lia. }
  intros Ha Hb E.
  rewrite <- (N2Nat.id a), <- (N2Nat.id b) in E |- *.
  f_equal. apply H; [lia|lia|done].
Qed.

Lemma UUID_byte_lt (u i : N) : (UUID_byte u i < 256)%N.
Proof. unfold UUID_byte. apply N.mod_lt. done. Qed.

Lemma hex_pair_inj (a b : N) (s t : string) :
  (a < 256)%N -> (b < 256)%N ->
  String (hex_digit (a / 16)) (String (hex_digit (a mod 16)) s)
  = String (hex_digit (b / 16)) (String (hex_digit (b mod 16)) t) ->
  a = b /\ s = t.
Proof.
  intros Ha Hb [= E1 E2 E3].
  apply hex_digit_inj in E1; [| apply N.Div0.div_lt_upper_bound; lia ..].
  apply hex_digit_inj in E2; [| apply N.mod_lt; lia ..].
  split; [|done].
  rewrite (N.div_mod a 16), (N.div_mod b 16) by done. by rewrite E1, E2.
Qed.

Lemma string_tail_eq (a : ascii) (s t : string) : String a s = String a t -> s = t.
Proof. by intros [= ->]. Qed.

Lemma UUID_String_bytes (u v : UUID) :
  UUID_String u = UUID_String v ->
  forall i, (i < 16)%N -> UUID_byte u i = UUID_byte v i.
Proof.
  intros E.
  cbv [UUID_String hex_bytes foldr seq String.append] in E.
  repeat match type of E with
    | String (hex_digit _) _ = _ =>
        apply hex_pair_inj in E as [? E]; [|apply UUID_byte_lt..]
    | String _ _ = String _ _ => apply string_tail_eq in E
    end.
  intros i Hi.
  assert (Hc : exists n : nat, n < 16 /\ i = N.of_nat n).
  { exists (N.to_nat i). split; [lia|by rewrite N2Nat.id]. }
  destruct Hc as (n & Hn & ->).
  do 16 (destruct n as [|n]; [done|]). lia.
Qed.

Lemma UUID_String_inj (u v : UUID) :
  (u < 2 ^ 128)%N -> (v < 2 ^ 128)%N ->
  UUID_String u = UUID_String v -> u = v.
Proof.
  intros Hu Hv E. pose proof (UUID_String_bytes u v E) as Hb.
  apply N.bits_inj. intros n.
  destruct (N.lt_ge_cases n 128) as [Hn|Hn].
  - assert (Hk : (n / 8 < 16)%N) by (apply N.Div0.div_lt_upper_bound; lia).
    set (q := (n / 8)%N) in *.
    assert (Hq : (15 - q < 16)%N) by lia.
    specialize (Hb (15 - q)%N Hq).
    unfold UUID_byte in Hb.
    replace (15 - (15 - q))%N with q in Hb by lia.
    apply (f_equal (fun x => N.testbit x (n mod 8))) in Hb.
    change 256%N with (2 ^ 8)%N in Hb.
    rewrite !N.mod_pow2_bits_low in Hb by (apply N.mod_lt; lia).
    rewrite <- !N.shiftr_div_pow2, !N.shiftr_spec' in Hb.
    replace (n mod 8 + 8 * q)%N with n in Hb; [done|].
    unfold q. rewrite (N.div_mod n 8) at 1 by done. lia.
  - assert (Hbig : forall x, (x < 2 ^ 128)%N -> N.testbit x n = false).
    { intros x Hx. destruct (decide (x = 0%N)) as [->|Hne]; [apply N.bits_0|].
      apply N.bits_above_log2.
      assert (N.log2 x < 128)%N by (apply N.log2_lt_pow2; lia). lia. }
    by rewrite !Hbig.
Qed.

(** C10 (as the code has it). insertUser stores the user it was given, its
    ID field untouched, under the identifier drawn for it and returns the
    string form of that identifier, which is the string form of no other
    identifier; when the ID field of the user is not the drawn identifier,
    the key and the ID field of the stored record differ.  From that state
    updateUser recovers when no record is stored under the key of the ID
    field: finding nothing to update, it deletes the record by its ID field
    and stores the update under the ID field.  When a record is stored under
    that key, updateUser overwrites it and the inserted record stays where
    it is. *)
Theorem insertUser_key_and_id (id : UUID) (u : User) (db : Store) :
  users db !! KUUID id = None ->
  UserInsert id u db
  = (mkStore (nodes db) (cmds db) (<[KUUID id := Good u]> (users db))
             (groups db) (rules db), (UUID_String id, None))
  /\ ((id < 2 ^ 128)%N ->
      forall id' : UUID,
        (id' < 2 ^ 128)%N -> UUID_String id' = (UserInsert id u db).2.1 -> id' = id)
  /\ users (UserInsert id u db).1 !! KUUID id = Some (Good u)
  /\ (User_ID u <> id ->
      exists stored_user,
        users (UserInsert id u db).1 !! KUUID id = Some (Good stored_user)
        /\ User_ID stored_user <> id)
  /\ (forall u' : User,
        User_ID u <> id ->
        User_ID u' = User_ID u ->
        healthy (users db) ->
        users db !! KUUID (User_ID u) = None ->
        exists db2,
          UserUpdate u' (UserInsert id u db).1 = (db2, None)
          /\ users db2 !! KUUID (User_ID u) = Some (Good u')
          /\ users db2 !! KUUID id = None)
  /\ (forall u' other : User,
        User_ID u <> id ->
        User_ID u' = User_ID u ->
        users db !! KUUID (User_ID u) = Some (Good other) ->
        exists db2,
          UserUpdate u' (UserInsert id u db).1 = (db2, None)
          /\ users db2 !! KUUID (User_ID u) = Some (Good u')
          /\ users db2 !! KUUID id = Some (Good u)).
Proof.
  intros Hfresh.
  assert (E : UserInsert id u db
              = ({| nodes := nodes db; cmds := cmds db;
                    users := <[KUUID id := Good u]> (users db);
                    groups := groups db; rules := rules db |},
                 (UUID_String id, None))).
  { unfold UserInsert, update, TxInsert. cbn. by rewrite Hfresh. }
  rewrite E. cbn. split; [done|].
  split.
  { intros Hid id' Hid' Hs. by apply UUID_String_inj. }
  split; [apply lookup_insert_eq|].
  split.
  { intros Hne. exists u. split; [apply lookup_insert_eq|done]. }
  split.
  - intros u' Hne Hid Hh Hnone.
    set (db1 := {| nodes := nodes db; cmds := cmds db;
                   users := <[KUUID id := Good u]> (users db);
                   groups := groups db; rules := rules db |}).
    assert (Hk : KUUID id <> KUUID (User_ID u)) by congruence.
    assert (Hh1 : healthy (bucket_of (V:=User) db1)).
    { intros k. cbn. destruct (decide (KUUID id = k)) as [<-|Hnk].
      - by rewrite lookup_insert_eq.
      - rewrite lookup_insert_ne by done. apply Hh. }
    destruct (scan_healthy (V:=User) db1 Hh1) as [rs Hrows].
    unfold UserUpdate, update, TxUpdate, TxDeleteMatching, TxUpsert. cbn.
    rewrite Hid. rewrite lookup_insert_ne by done. rewrite Hnone. cbn.
    rewrite Hrows. cbn.
    set (q := fun u0 : User => bool_decide (User_ID u0 = User_ID u)).
    assert (Hgone : foldr (fun kv b => if q kv.2 then delete kv.1 b else b)
                      (<[KUUID id := Good u]> (users db)) rs !! KUUID (User_ID u)
                    = None).
    { rewrite foldr_delete_matching_miss.
      - by rewrite lookup_insert_ne.
      - intros v Hin. apply (scan_elem_of (V:=User) db1 rs) in Hin; [|done].
        cbn in Hin. rewrite lookup_insert_ne in Hin by done. congruence. }
    unfold q in Hgone. cbv beta in Hgone.
    rewrite Hgone. eexists. split; [reflexivity|]. cbn.
    split; [apply lookup_insert_eq|].
    rewrite lookup_insert_ne by congruence.
    apply (foldr_delete_matching_hit q rs _ _ u).
    + apply (scan_elem_of (V:=User) db1 rs); [done|]. cbn. apply lookup_insert_eq.
    + unfold q. by apply bool_decide_eq_true.
  - intros u' other Hne Hid Hother.
    assert (Hk : KUUID id <> KUUID (User_ID u)) by congruence.
    unfold UserUpdate, update, TxUpdate. cbn.
    rewrite Hid. rewrite lookup_insert_ne by done. rewrite Hother. cbn.
    eexists. split; [reflexivity|]. cbn.
    split; [apply lookup_insert_eq|].
    rewrite lookup_insert_ne by congruence. apply lookup_insert_eq.
Qed.

Lemma insertUser_key_and_id_witness :
  let u' := mkUser zero "Alice" "Roe" "alice@example.com" "secret" in
  UserInsert 9 demo_user empty_store
  = (mkStore ∅ ∅ (<[KUUID 9 := Good demo_user]> ∅) ∅ ∅, (UUID_String 9, None))
  /\ (forall id' : UUID,
        (id' < 2 ^ 128)%N -> UUID_String id' = UUID_String 9 -> id' = 9%N)
  /\ (exists db2,
        UserUpdate u' (UserInsert 9 demo_user empty_store).1 = (db2, None)
        /\ users db2 !! KUUID zero = Some (Good u')
        /\ users db2 !! KUUID 9 = None)
  /\ (exists db2,
        UserUpdate u' (UserInsert 9 demo_user initialized_store).1 = (db2, None)
        /\ users db2 !! KUUID zero = Some (Good u')
        /\ users db2 !! KUUID 9 = Some (Good demo_user)).
Proof.
  intros u'.
  destruct (insertUser_key_and_id 9 demo_user empty_store eq_refl)
    as (E & Hinj & _ & _ & Hrec & _).
  destruct (insertUser_key_and_id 9 demo_user initialized_store eq_refl)
    as (_ & _ & _ & _ & _ & Hover).
  split; [exact E|]. split; [|split].
  - intros id' Hid'. apply Hinj; [reflexivity|done].
  - apply (Hrec u'); [discriminate|reflexivity| |reflexivity].
    intros k Hk. cbn in Hk. by rewrite lookup_empty in Hk.
  - apply (Hover u' (mkUser zero "admin" "user" "admin@admin.com" "admin"));
      [discriminate|reflexivity|reflexivity].
Defined.

(** C10 as stated fails.  A user whose ID field was left at zero is inserted
    into the initialized store under the drawn identifier 9: key and ID
    field differ.  updateUser for that user finds the admin record under
    the all-zero key and overwrites it; the inserted record stays under 9
    with its ID field zero, so the state is not recovered from. *)
Lemma updateUser_overwrites_admin :
  let db1 := (UserInsert 9 demo_user initialized_store).1 in
  let u' := mkUser zero "Alice" "Roe" "alice@example.com" "secret" in
  users db1 !! KUUID 9 = Some (Good demo_user)
  /\ User_ID demo_user <> 9%N
  /\ users db1 !! KUUID zero
     = Some (Good (mkUser zero "admin" "user" "admin@admin.com" "admin"))
  /\ (UserUpdate u' db1).2 = None
  /\ users (UserUpdate u' db1).1 !! KUUID 9 = Some (Good demo_user)
  /\ users (UserUpdate u' db1).1 !! KUUID zero = Some (Good u').
Proof.
  intros db1 u'. split; [reflexivity|]. split; [discriminate|].
  repeat split; reflexivity.
Qed.

Example updateUser_recovers_key :
  let db1 := (UserInsert 9 demo_user empty_store).1 in
  let u' := mkUser zero "Alice" "Roe" "alice@example.com" "secret" in
  users db1 !! KUUID 9 = Some (Good demo_user)
  /\ users db1 !! KUUID zero = None
  /\ users (UserUpdate u' db1).1 !! KUUID zero = Some (Good u')
  /\ users (UserUpdate u' db1).1 !! KUUID 9 = None.
Proof. vm_compute. repeat split. Qed.

(** ** deleteNode *)

Lemma update_rolls_back (fn : Store -> result Store) (db : Store) (e : Error) :
  (update fn db).2 = Some e -> (update fn db).1 = db.
Proof. unfold update. by destruct (fn db). Qed.

Lemma NodeDelete_missing (id : string) (db : Store) :
  nodes db !! KString id = None ->
  NodeDelete id db = (db, Some ErrNotFound).
Proof.
  intros Hn. unfold NodeDelete, update, TxGet. cbn. by rewrite Hn.
Qed.

Lemma NodeDelete_no_rules (id : string) (db : Store) (device : Node) :
  nodes db !! KString id = Some (Good device) ->
  Node_Rules device = [] ->
  NodeDelete id db
  = (mkStore (delete (KString id) (nodes db)) (cmds db) (users db) (groups db)
             (rules db), None).
Proof.
  intros Hn Hr. unfold NodeDelete, update, TxGet, TxDelete. cbn.
  rewrite Hn. cbn. rewrite Hr. cbn. by rewrite Hn.
Qed.

Lemma NodeDelete_rolls_back (id : string) (db : Store) (e : Error) :
  (NodeDelete id db).2 = Some e -> (NodeDelete id db).1 = db.
Proof. apply update_rolls_back. Qed.

(** C4 (what the code does). deleteNode on a stored node that lists at least
    one rule fails at the first rule: the key it hands to the store for the
    rule is the method value [r.ID], which gob cannot encode; the transaction
    is rolled back and the node and all rules stay stored. *)
Theorem deleteNode_with_rules_aborts (id : string) (db : Store) (device : Node) :
  nodes db !! KString id = Some (Good device) ->
  Node_Rules device <> [] ->
  NodeDelete id db = (db, Some ErrGobEncode)
  /\ nodes (NodeDelete id db).1 !! KString id = Some (Good device)
  /\ rules (NodeDelete id db).1 = rules db.
Proof.
  intros Hn Hr.
  assert (E : NodeDelete id db = (db, Some ErrGobEncode)).
  { unfold NodeDelete, update, TxGet. cbn. rewrite Hn. cbn.
    destruct (Node_Rules device) as [|r rs]; [done|]. reflexivity. }
  by rewrite E.
Qed.

Lemma deleteNode_with_rules_aborts_witness :
  NodeDelete "n1" demo_store_rule = (demo_store_rule, Some ErrGobEncode)
  /\ nodes (NodeDelete "n1" demo_store_rule).1 !! KString "n1"
     = Some (Good (Node_with_Rules [7%N] demo_node))
  /\ rules (NodeDelete "n1" demo_store_rule).1 = rules demo_store_rule.
Proof.
  apply (deleteNode_with_rules_aborts "n1" demo_store_rule
           (Node_with_Rules [7%N] demo_node)).
  - reflexivity.
  - discriminate.
Defined.

Example deleteNode_rule_still_stored :
  rules (NodeDelete "n1" demo_store_rule).1 !! KUUID 7
  = Some (Good (Rule_with_ID 7 demo_rule)).
Proof. reflexivity. Qed.

Example deleteNode_without_rules :
  NodeDelete "n1" demo_store = (empty_store, None).
Proof.
  rewrite (NodeDelete_no_rules "n1" demo_store demo_node) by reflexivity.
  unfold demo_store, empty_store; cbn. by rewrite delete_singleton_eq.
Qed.

(** ** nodesForUser *)

Lemma groupIDs_of_elem (userID g : UUID) (allGroups : list Group) :
  g ∈ groupIDs_of userID allGroups
  <-> exists grp ur, grp ∈ allGroups /\ Group_ID grp = g
                     /\ ur ∈ Group_Users grp /\ UserRoles_UserID ur = userID.
Proof.
  unfold groupIDs_of. rewrite list_elem_of_In, in_flat_map. split.
  - intros (grp & Hgrp & Hin). apply in_flat_map in Hin as (ur & Hur & Hin).
    case_bool_decide as Hu; [|done].
    destruct Hin as [<-|[]].
    exists grp, ur. by rewrite !list_elem_of_In.
  - intros (grp & ur & Hgrp & <- & Hur & Hu).
    exists grp. split; [by apply list_elem_of_In|].
    apply in_flat_map. exists ur. split; [by apply list_elem_of_In|].
    rewrite bool_decide_eq_true_2 by done. by left.
Qed.

Lemma Groups_ContainsAny_true (ids : list UUID) (n : Node) :
  Groups_ContainsAny ids n = true <-> exists g, g ∈ Node_Groups n /\ g ∈ ids.
Proof.
  unfold Groups_ContainsAny. rewrite existsb_exists. split.
  - intros (g & Hg & Hex). apply existsb_exists in Hex as (i & Hi & Heq).
    apply bool_decide_eq_true in Heq as ->.
    exists i. by rewrite !list_elem_of_In.
  - intros (g & Hg & Hi). exists g. split; [by apply list_elem_of_In|].
    apply existsb_exists. exists g. split; [by apply list_elem_of_In|].
    by apply bool_decide_eq_true.
Qed.

(** Root users see the whole node collection. *)
Lemma nodesForUser_root (userID : UUID) (db : Store) :
  UserIsRoot userID db = (true, None) ->
  healthy (nodes db) ->
  exists devices,
    NodesForUser userID db = (devices, None)
    /\ Nodes db = Ok devices
    /\ forall n, n ∈ devices <-> exists k, nodes db !! k = Some (Good n).
Proof.
  intros Hroot Hh. unfold NodesForUser. rewrite Hroot.
  change (healthy (bucket_of (V:=Node) db)) in Hh.
  destruct (TxFind_healthy (V:=Node) db (fun _ => true) Hh) as [devices Hd].
  unfold Nodes, view. rewrite Hd. exists devices. repeat split; try done.
  - intros Hin. by apply (TxFind_elem_of (V:=Node) db _ devices n Hd) in Hin as [_ ?].
  - intros Hk. by apply (TxFind_elem_of (V:=Node) db _ devices n Hd).
Qed.

(** Other users see the nodes one of whose groups they belong to. *)
Lemma nodesForUser_groups (userID : UUID) (db : Store) :
  UserIsRoot userID db = (false, None) ->
  healthy (groups db) ->
  healthy (nodes db) ->
  exists devices,
    NodesForUser userID db = (devices, None)
    /\ forall n, n ∈ devices
                 <-> (exists k, nodes db !! k = Some (Good n))
                     /\ exists g, g ∈ Node_Groups n /\ user_in_group db userID g.
Proof.
  intros Hroot Hhg Hh. unfold NodesForUser. rewrite Hroot.
  change (healthy (bucket_of (V:=Group) db)) in Hhg.
  destruct (TxFind_healthy (V:=Group) db (fun _ => true) Hhg) as [allGroups Hg].
  rewrite Hg.
  change (healthy (bucket_of (V:=Node) db)) in Hh.
  destruct (TxFind_healthy (V:=Node) db
              (Groups_ContainsAny (groupIDs_of userID allGroups)) Hh)
    as [devices Hd].
  rewrite Hd. exists devices. split; [done|]. intros n.
  rewrite (TxFind_elem_of (V:=Node) db _ devices n Hd).
  rewrite Groups_ContainsAny_true.
  assert (Hmem : forall g, g ∈ groupIDs_of userID allGroups
                           <-> user_in_group db userID g).
  { intros g. rewrite groupIDs_of_elem. unfold user_in_group. split.
    - intros (grp & ur & Hin & Hid & Hur & Hu).
      apply (TxFind_elem_of (V:=Group) db _ allGroups grp Hg) in Hin as [_ [k Hk]].
      by exists k, grp, ur.
    - intros (k & grp & ur & Hk & Hid & Hur & Hu).
      exists grp, ur. repeat split; try done.
      apply (TxFind_elem_of (V:=Group) db _ allGroups grp Hg). eauto. }
  split.
  - intros [(g & Hgn & Hgi) Hk]. split; [done|]. exists g. split; [done|].
    by apply Hmem.
  - intros [Hk (g & Hgn & Hgi)]. split; [|done]. exists g. split; [done|].
    by apply Hmem.
Qed.

(** The errors of the root check and of the two other lookups of the root
    and group paths are returned. *)
Lemma nodesForUser_returns_root_check_error (userID : UUID) (db : Store)
    (b : bool) (e : Error) :
  UserIsRoot userID db = (b, Some e) -> NodesForUser userID db = ([], Some e).
Proof. intros Hroot. unfold NodesForUser. rewrite Hroot. by destruct b. Qed.

Lemma nodesForUser_root_returns_node_error (userID : UUID) (db : Store) (k : Key) :
  UserIsRoot userID db = (true, None) ->
  nodes db !! k = Some Corrupt ->
  NodesForUser userID db = ([], Some ErrGobDecode).
Proof.
  intros Hroot Hk. unfold NodesForUser, Nodes, view. rewrite Hroot.
  change (bucket_of (V:=Node) db !! k = Some Corrupt) in Hk.
  by rewrite (TxFind_corrupt (V:=Node) db _ k Hk).
Qed.

(** C8 (what the code does).  For a user who is not root, on a store whose
    group records all decode, a storage fault of the node lookup is not
    returned: nodesForUser answers with no error and an empty list, although
    listing the nodes of that store fails. *)
Theorem nodesForUser_drops_node_lookup_error (userID : UUID) (db : Store) (k : Key) :
  UserIsRoot userID db = (false, None) ->
  healthy (groups db) ->
  nodes db !! k = Some Corrupt ->
  NodesForUser userID db = ([], None)
  /\ Nodes db = Err ErrGobDecode.
Proof.
  intros Hroot Hhg Hk. unfold NodesForUser, Nodes, view. rewrite Hroot.
  change (healthy (bucket_of (V:=Group) db)) in Hhg.
  destruct (TxFind_healthy (V:=Group) db (fun _ => true) Hhg) as [allGroups ->].
  change (bucket_of (V:=Node) db !! k = Some Corrupt) in Hk.
  by rewrite !(TxFind_corrupt (V:=Node) db _ k Hk).
Qed.

Lemma nodesForUser_drops_node_lookup_error_witness :
  NodesForUser 5 faulty_store = ([], None)
  /\ Nodes faulty_store = Err ErrGobDecode.
Proof.
  apply (nodesForUser_drops_node_lookup_error 5 faulty_store (KString "n2")).
  - reflexivity.
  - intros k Hk. cbn in Hk.
    apply lookup_insert_Some in Hk as [[_ Hk]|[_ Hk]]; [done|].
    by apply lookup_singleton_Some in Hk as [_ Hk].
  - reflexivity.
Defined.

Example nodesForUser_sound_store :
  NodesForUser 5 sound_store = ([plant_node], None)
  /\ NodesForUser zero sound_store = ([plant_node], None)
  /\ NodesForUser 6 sound_store = ([], None).
Proof. vm_compute. repeat split. Qed.

(** ** Replication of a subtree *)

Lemma tree_ind' (P : tree -> Prop) :
  (forall n cs, Forall P cs -> P (TNode n cs)) -> forall t, P t.
Proof.
  intros Hstep. fix IH 1. intros [n cs]. apply Hstep.
  induction cs as [|c cs IHcs]; constructor; [apply IH|apply IHcs].
Qed.

Lemma publish_all_nil (dest : Conn) : publish_all dest [] = dest.
Proof. destruct dest. unfold publish_all; cbn. by rewrite app_nil_r. Qed.

Lemma publish_all_app (dest : Conn) (ps qs : list Publication) :
  publish_all (publish_all dest ps) qs = publish_all dest (ps ++ qs).
Proof. unfold publish_all; cbn. by rewrite app_assoc. Qed.

Lemma SendPoints_accepted (dest : Conn) (id : string) (points : list Point) (ack : bool) :
  refuses dest id = false ->
  SendPoints dest id points ack = (publish_all dest [mkPublication id points ack], None).
Proof. intros Hr. unfold SendPoints. by rewrite Hr. Qed.

Lemma SendPoints_extends (dest dest' : Conn) (id : string) (points : list Point)
    (ack : bool) (err : error) :
  SendPoints dest id points ack = (dest', err) ->
  exists ps, dest' = publish_all dest ps.
Proof.
  unfold SendPoints. destruct (refuses dest id); intros [= <- <-].
  - exists []. by rewrite publish_all_nil.
  - by eexists.
Qed.

Lemma send_children_extends (send : Conn -> string -> option (Conn * error)) :
  (forall dest cid dest' err,
      send dest cid = Some (dest', err) -> exists ps, dest' = publish_all dest ps) ->
  forall childNodes dest dest' err,
    send_children send childNodes dest = Some (dest', err) ->
    exists ps, dest' = publish_all dest ps.
Proof.
  intros Hsend childNodes.
  induction childNodes as [|c rest IH]; intros dest dest' err E; cbn in E.
  - inversion E; subst. exists []. by rewrite publish_all_nil.
  - destruct (send dest (Node_ID c)) as [[dest1 [e|]]|] eqn:Ec; [| |done].
    + inversion E; subst. by apply Hsend in Ec.
    + apply Hsend in Ec as [ps ->]. apply IH in E as [qs ->].
      exists (ps ++ qs). apply publish_all_app.
Qed.

(** Whatever [SendNode] returns, the destination holds what it held before,
    followed by the batches published during the call. *)
Lemma SendNode_extends (fuel : nat) (src dest : Conn) (id parent : string)
    (dest' : Conn) (err : error) :
  SendNode fuel src dest id parent = Some (dest', err) ->
  exists ps, dest' = publish_all dest ps.
Proof.
  revert dest id parent dest' err.
  induction fuel as [|fuel IH]; intros dest id parent dest' err E; [done|].
  cbn in E. destruct (GetNode src id) as [node|e].
  2:{ inversion E; subst. exists []. by rewrite publish_all_nil. }
  destruct (SendPoints dest id (outgoing_points node parent) true)
    as [dest1 [e|]] eqn:Es.
  { inversion E; subst. by apply SendPoints_extends in Es. }
  apply SendPoints_extends in Es as [ps ->].
  destruct (GetNodeChildren src id) as [childNodes|e].
  2:{ inversion E; subst. by eexists. }
  apply send_children_extends in E as [qs ->].
  - exists (ps ++ qs). apply publish_all_app.
  - intros d cid d' err'. apply IH.
Qed.

Lemma serves_GetNode (src : Conn) (n : Node) (cs : list tree) :
  serves src (TNode n cs) ->
  GetNode src (Node_ID n) = Ok n
  /\ GetNodeChildren src (Node_ID n) = Ok (map root cs).
Proof.
  inversion 1 as [n' cs' Hn Hc Hcs]; subst.
  unfold GetNode, GetNodeChildren. by rewrite Hn, Hc.
Qed.

Lemma depth_children (n : Node) (cs : list tree) (fuel : nat) :
  depth (TNode n cs) < S fuel -> Forall (fun c => depth c < fuel) cs.
Proof.
  cbn. intros Hd. apply Nat.succ_lt_mono in Hd.
  induction cs as [|c cs IH]; cbn in *; constructor; [lia|apply IH; lia].
Qed.

(** The children loop over served subtrees that the destination accepts. *)
Lemma send_children_subtrees (fuel : nat) (src : Conn) (id : string) (cs : list tree) :
  Forall (fun t => forall dest parent fuel,
            serves src t ->
            (forall i, i ∈ tree_ids t -> refuses dest i = false) ->
            depth t < fuel ->
            SendNode fuel src dest (Node_ID (root t)) parent
            = Some (publish_all dest (subtree_publications parent t), None)) cs ->
  Forall (serves src) cs ->
  Forall (fun c => depth c < fuel) cs ->
  forall (rest : list Node) (dest : Conn),
    (forall i, i ∈ flat_map tree_ids cs -> refuses dest i = false) ->
    send_children (fun dest cid => SendNode fuel src dest cid id)
                  (map root cs ++ rest) dest
    = send_children (fun dest cid => SendNode fuel src dest cid id) rest
        (publish_all dest (flat_map (subtree_publications id) cs)).
Proof.
  intros HP Hs Hd rest.
  induction cs as [|c cs IH]; intros dest Hacc; cbn.
  - by rewrite publish_all_nil.
  - inversion HP as [|? ? HPc HPcs]; subst.
    inversion Hs as [|? ? Hsc Hscs]; subst.
    inversion Hd as [|? ? Hdc Hdcs]; subst.
    rewrite (HPc dest id fuel Hsc); [|
      intros i Hi; apply Hacc; cbn; apply elem_of_app; by left | done].
    rewrite (IH HPcs Hscs Hdcs).
    + by rewrite publish_all_app.
    + intros i Hi. cbn. apply Hacc. cbn. apply elem_of_app. by right.
Qed.

Lemma outgoing_points_batch (node : Node) (parent : string) :
  outgoing_points node parent = node_batch node parent.
Proof.
  unfold outgoing_points, node_batch.
  destruct (decide (parent = "")) as [->|Hne].
  - rewrite decide_False by (intros Hc; by apply Hc). by rewrite app_nil_r.
  - rewrite decide_True by done. by rewrite <- app_assoc.
Qed.

Lemma SendNode_subtree (t : tree) :
  forall (src dest : Conn) (parent : string) (fuel : nat),
    serves src t ->
    (forall i, i ∈ tree_ids t -> refuses dest i = false) ->
    depth t < fuel ->
    SendNode fuel src dest (Node_ID (root t)) parent
    = Some (publish_all dest (subtree_publications parent t), None).
Proof.
  induction t as [n cs IH] using tree_ind'.
  intros src dest parent [|fuel] Hs Hacc Hd; [lia|].
  destruct (serves_GetNode _ _ _ Hs) as [Hn Hc].
  cbn [SendNode root]. rewrite Hn.
  rewrite SendPoints_accepted by (apply Hacc; cbn; by left).
  rewrite Hc.
  pose proof (send_children_subtrees fuel src (Node_ID n) cs) as Hloop.
  specialize (Hloop
    (Forall_impl _ _ _ IH (fun t Ht dest parent fuel => Ht src dest parent fuel))).
  inversion Hs as [n' cs' _ _ Hscs]; subst.
  specialize (Hloop Hscs (depth_children _ _ _ Hd) []).
  rewrite app_nil_r in Hloop. rewrite Hloop.
  - cbn. by rewrite publish_all_app, outgoing_points_batch.
  - intros i Hi. cbn. apply Hacc. cbn. by right.
Qed.

(** C3. Whenever replicateSubtree has fetched the node and the destination
    accepts its batch, the first thing it publishes is, for the identifier
    it was called with, the points of the node followed by one point of the
    node-type type whose text is the Type of the node and, exactly when the
    parent argument is not empty, by one point of the parent type whose text
    is the parent identifier.  It then replicates the children the source
    lists, in order, each with this node as parent: over a subtree that the
    source serves and the destination accepts, the destination receives the
    publications of the whole subtree, parent first.  The first child whose
    replication fails ends the call with that error, later children are not
    visited, and whatever was published before stays at the destination. *)
Theorem replicateSubtree_publishes :
  (forall (fuel : nat) (src dest : Conn) (id parent : string) (node : Node)
          (dest' : Conn) (err : error),
      GetNode src id = Ok node ->
      refuses dest id = false ->
      SendNode fuel src dest id parent = Some (dest', err) ->
      exists ps,
        published dest'
        = published dest
            ++ mkPublication id
                 (Node_Points node
                    ++ [mkPoint PointTypeNodeType "" (Node_Type node) 0 0 0 0 0]
                    ++ (if decide (parent = "") then []
                        else [mkPoint PointTypeParent "" parent 0 0 0 0 0]))
                 true
               :: ps)
  /\ (forall (t : tree) (src dest : Conn) (parent : string) (fuel : nat),
        serves src t ->
        (forall i, i ∈ tree_ids t -> refuses dest i = false) ->
        depth t < fuel ->
        SendNode fuel src dest (Node_ID (root t)) parent
        = Some (publish_all dest (subtree_publications parent t), None))
  /\ (forall (fuel : nat) (src dest : Conn) (id parent : string) (node : Node)
             (cs1 : list tree) (child : Node) (rest : list Node)
             (dest2 : Conn) (err : Error),
        GetNode src id = Ok node ->
        refuses dest id = false ->
        GetNodeChildren src id = Ok (map root cs1 ++ child :: rest) ->
        Forall (serves src) cs1 ->
        Forall (fun c => depth c < fuel) cs1 ->
        (forall i, i ∈ flat_map tree_ids cs1 -> refuses dest i = false) ->
        SendNode fuel src
          (publish_all dest (mkPublication id (node_batch node parent) true
                               :: flat_map (subtree_publications id) cs1))
          (Node_ID child) id
        = Some (dest2, Some err) ->
        SendNode (S fuel) src dest id parent
        = Some (dest2, Some (Errorf "Error sending child node" err))
        /\ exists ps,
             dest2 = publish_all dest
                       (mkPublication id (node_batch node parent) true
                          :: flat_map (subtree_publications id) cs1 ++ ps))
  /\ (forall (fuel : nat) (src dest : Conn) (id parent : string)
             (dest' : Conn) (err : error),
        SendNode fuel src dest id parent = Some (dest', err) ->
        published dest `prefix_of` published dest').
Proof.
  split; [|split; [|split]].
  - intros [|fuel] src dest id parent node dest' err Hn Hacc E; [done|].
    cbn [SendNode] in E. rewrite Hn, (SendPoints_accepted _ _ _ _ Hacc) in E.
    rewrite outgoing_points_batch in E.
    destruct (GetNodeChildren src id) as [childNodes|e].
    + apply send_children_extends in E as [ps ->].
      * exists ps. cbn. by rewrite <- app_assoc.
      * intros d cid d' err'. apply SendNode_extends.
    + inversion E; subst. exists []. reflexivity.
  - intros t src dest parent fuel. apply SendNode_subtree.
  - intros fuel src dest id parent node cs1 child rest dest2 err
           Hn Hacc Hc Hs Hd Hacc1 Hchild.
    cbn [SendNode]. rewrite Hn, (SendPoints_accepted _ _ _ _ Hacc), Hc.
    rewrite outgoing_points_batch.
    rewrite (send_children_subtrees fuel src id cs1); try done.
    + cbn [send_children]. rewrite publish_all_app. cbn [app].
      rewrite Hchild. split; [done|].
      apply SendNode_extends in Hchild as [ps ->].
      exists ps. by rewrite publish_all_app.
    + apply Forall_forall. intros t _ d p f. apply SendNode_subtree.
  - intros fuel src dest id parent dest' err E.
    apply SendNode_extends in E as [ps ->]. cbn. by apply prefix_app_r.
Qed.

Lemma demo_src_serves : serves demo_src demo_tree.
Proof.
  repeat (constructor; [reflexivity|reflexivity|]); repeat constructor.
Qed.

Lemma replicateSubtree_publishes_witness :
  (exists ps,
      published (publish_all demo_dest (subtree_publications "" demo_tree))
      = published demo_dest
          ++ mkPublication "r"
               (Node_Points node_r
                  ++ [mkPoint PointTypeNodeType "" (Node_Type node_r) 0 0 0 0 0]
                  ++ (if decide ("" = "") then []
                      else [mkPoint PointTypeParent "" "" 0 0 0 0 0]))
               true
             :: ps)
  /\ (SendNode 4 demo_src demo_dest (Node_ID (root demo_tree)) ""
      = Some (publish_all demo_dest (subtree_publications "" demo_tree), None))
  /\ (let dest1 :=
        publish_all demo_dest_no_b
          (mkPublication "r" (node_batch node_r "") true
             :: flat_map (subtree_publications "r") [TNode node_a [TNode node_g []]]) in
      SendNode 4 demo_src demo_dest_no_b "r" ""
      = Some (dest1, Some (Errorf "Error sending child node"
                             (Errorf "Error sending node upstream" ErrPublish)))
      /\ exists ps,
           dest1 = publish_all demo_dest_no_b
                     (mkPublication "r" (node_batch node_r "") true
                        :: flat_map (subtree_publications "r")
                             [TNode node_a [TNode node_g []]] ++ ps))
  /\ (published demo_dest
        `prefix_of` published (publish_all demo_dest (subtree_publications "" demo_tree))).
Proof.
  destruct replicateSubtree_publishes as (H1 & H2 & H3 & H4).
  assert (Hrun : SendNode 4 demo_src demo_dest "r" ""
                 = Some (publish_all demo_dest (subtree_publications "" demo_tree), None)).
  { apply (H2 demo_tree demo_src demo_dest "" 4%nat).
    - apply demo_src_serves.
    - reflexivity.
    - cbn. lia. }
  split; [|split; [|split]].
  - apply (H1 4%nat demo_src demo_dest "r" "" node_r _ None).
    + reflexivity.
    + reflexivity.
    + exact Hrun.
  - exact Hrun.
  - apply (H3 3%nat demo_src demo_dest_no_b "r" "" node_r
              [TNode node_a [TNode node_g []]] node_b []).
    + reflexivity.
    + reflexivity.
    + reflexivity.
    + pose proof demo_src_serves as Hs.
      inversion Hs as [n cs _ _ Hcs]; subst.
      inversion Hcs as [|c cs' Ha _]; subst. by constructor.
    + repeat constructor; cbn; lia.
    + intros i Hi. cbn in Hi.
      repeat (apply elem_of_cons in Hi as [->|Hi]; [reflexivity|]).
      by apply elem_of_nil in Hi.
    + reflexivity.
  - apply (H4 4%nat demo_src demo_dest "r" "" _ None). exact Hrun.
Defined.

(** The run on the sample subtree r -> (a -> g), b: what the destination
    holds afterwards, written out. *)
Example replicateSubtree_order :
  (fun r => match r with
            | Some (dest, err) => Some (published dest, err)
            | None => None
            end) (SendNode 4 demo_src demo_dest "r" "")
  = Some
      ([mkPublication "r"
          [demo_point 1 10; mkPoint "nodeType" "" "gateway" 0 0 0 0 0] true;
        mkPublication "a"
          [demo_point 2 20; mkPoint "nodeType" "" "sensor" 0 0 0 0 0;
           mkPoint "parent" "" "r" 0 0 0 0 0] true;
        mkPublication "g"
          [mkPoint "nodeType" "" "probe" 0 0 0 0 0;
           mkPoint "parent" "" "a" 0 0 0 0 0] true;
        mkPublication "b"
          [demo_point 3 30; mkPoint "nodeType" "" "sensor" 0 0 0 0 0;
           mkPoint "parent" "" "r" 0 0 0 0 0] true],
       None).
Proof. reflexivity. Qed.

(** ** listUsers *)

Lemma ascii_compare_refl (x : ascii) : Ascii.compare x x = Eq.
Proof. unfold Ascii.compare. apply N.compare_refl. Qed.

Lemma ascii_compare_lt_trans (x y z : ascii) :
  Ascii.compare x y = Lt -> Ascii.compare y z = Lt -> Ascii.compare x z = Lt.
Proof.
  unfold Ascii.compare. rewrite !N.compare_lt_iff. apply N.lt_trans.
Qed.

Lemma string_leb_trans (a b c : string) :
  String.leb a b = true -> String.leb b c = true -> String.leb a c = true.
Proof.
  unfold String.leb. revert b c.
  induction a as [|x a IH]; intros [|y b] [|z c]; cbn; try done.
  destruct (Ascii.compare x y) eqn:Exy; try done.
  - apply Ascii.compare_eq_iff in Exy as ->.
    destruct (Ascii.compare y z) eqn:Eyz; try done. apply IH.
  - destruct (Ascii.compare y z) eqn:Eyz; try done.
    + apply Ascii.compare_eq_iff in Eyz as <-. by rewrite Exy.
    + by rewrite (ascii_compare_lt_trans _ _ _ Exy Eyz).
Qed.

Lemma string_leb_refl (a : string) : String.leb a a = true.
Proof. by destruct (String.leb_total a a). Qed.

Lemma string_ltb_false_leb (a b : string) :
  String.ltb b a = false -> String.leb a b = true.
Proof.
  unfold String.ltb, String.leb. rewrite (String.compare_antisym a b).
  by destruct (String.compare b a).
Qed.

Lemma string_ltb_asym (a b : string) :
  String.ltb a b = true -> String.ltb b a = false.
Proof.
  unfold String.ltb. rewrite (String.compare_antisym b a).
  by destruct (String.compare a b).
Qed.

#[local] Instance name_le_trans (ToLower : string -> string) :
  Transitive (name_le ToLower).
Proof. intros a b c. apply string_leb_trans. Qed.

Lemma IsSorted_users_cons (ToLower : string -> string) (x : User) (l : list User) :
  IsSorted (users_Interface ToLower) (x :: l) ->
  IsSorted (users_Interface ToLower) l.
Proof.
  intros Hs i [Hi Hlen]. cbn in *. unfold users_Len in *.
  specialize (Hs (S i)). cbn in Hs.
  destruct i as [|i]; [lia|].
  replace (S i - 1)%nat with i by lia.
  replace (S i - 0)%nat with (S i) in Hs by lia.
  unfold users_Less in *. cbn in Hs. apply Hs. lia.
Qed.

Lemma IsSorted_users_Sorted (ToLower : string -> string) (l : list User) :
  IsSorted (users_Interface ToLower) l -> Sorted (name_le ToLower) l.
Proof.
  induction l as [|x l IH]; intros Hs; constructor.
  - apply IH. by apply IsSorted_users_cons in Hs.
  - destruct l as [|y l]; constructor.
    specialize (Hs 1%nat). cbn in Hs. unfold users_Len in Hs; cbn in Hs.
    apply string_ltb_false_leb, Hs. lia.
Qed.

Lemma StronglySorted_lookup_le {A} (R : relation A) `{!Reflexive R}
    (l : list A) (i j : nat) (a b : A) :
  StronglySorted R l -> i <= j -> l !! i = Some a -> l !! j = Some b -> R a b.
Proof.
  intros Hs. revert i j. induction Hs as [|x l Hs IH Hall]; intros i j Hij Hi Hj.
  - done.
  - destruct i as [|i], j as [|j]; cbn in *; try lia.
    + by simplify_eq.
    + simplify_eq. rewrite Forall_forall in Hall. apply Hall.
      by apply list_elem_of_lookup_2 in Hj.
    + apply (IH i j); [lia|done..].
Qed.

#[local] Instance name_le_refl (ToLower : string -> string) :
  Reflexive (name_le ToLower).
Proof. intros a. apply string_leb_refl. Qed.

Lemma abc_sorted_unique (ToLower : string -> string) (ua ub uc : User)
    (us : list User) :
  ToLower (User_FirstName ua) = "alice" ->
  ToLower (User_FirstName ub) = "bob" ->
  ToLower (User_FirstName uc) = "charlie" ->
  us ≡ₚ [ub; ua; uc] ->
  StronglySorted (name_le ToLower) us ->
  us = [ua; ub; uc].
Proof.
  intros Ha Hb Hc Hperm Hs.
  apply (StronglySorted_unique_strong (name_le ToLower)); try done.
  - intros x1 x2 H1 H2 H12 H21.
    rewrite Hperm in H1. unfold name_le in *.
    assert (Hk : ToLower (User_FirstName x1) = ToLower (User_FirstName x2))
      by by apply String.leb_antisym.
    repeat (apply elem_of_cons in H1 as [->|H1]);
      [| | |by apply elem_of_nil in H1];
      repeat (apply elem_of_cons in H2 as [->|H2]);
      try (by apply elem_of_nil in H2); try done;
      rewrite ?Ha, ?Hb, ?Hc in Hk; discriminate.
  - unfold name_le. repeat constructor; rewrite ?Ha, ?Hb, ?Hc; reflexivity.
  - rewrite Hperm. apply perm_swap.
Qed.

(** C7 (as the code has it). listUsers returns all stored users, each once,
    in ascending order of the lower-cased first name, for every sort.Sort
    that does what its documentation promises; users whose lower-cased first
    names are equal come in an order the code does not determine.  Users
    with the first names bob, Alice and charlie are returned in the order
    Alice, bob, charlie. *)
Theorem listUsers_sorted (ToLower : string -> string)
    (sort_Sort : forall S, Interface S -> S -> S) (db : Store) :
  sorts_users ToLower sort_Sort ->
  healthy (users db) ->
  exists stored us,
    TxFind (V:=User) db (fun _ => true) = Ok stored
    /\ Users ToLower sort_Sort db = (us, None)
    /\ us ≡ₚ stored
    /\ (forall u, u ∈ us <-> exists k, users db !! k = Some (Good u))
    /\ (forall i j a b,
          i <= j -> us !! i = Some a -> us !! j = Some b -> name_le ToLower a b)
    /\ (forall ua ub uc,
          (forall s, is_ascii s = true -> ToLower s = ascii_ToLower s) ->
          User_FirstName ua = "Alice" ->
          User_FirstName ub = "bob" ->
          User_FirstName uc = "charlie" ->
          stored ≡ₚ [ub; ua; uc] ->
          us = [ua; ub; uc]).
Proof.
  intros Hsort Hh.
  change (healthy (bucket_of (V:=User) db)) in Hh.
  destruct (TxFind_healthy (V:=User) db (fun _ => true) Hh) as [stored Hst].
  destruct (Hsort stored) as [Hperm Hsorted].
  exists stored, (sort_Sort (list User) (users_Interface ToLower) stored).
  assert (Hss : StronglySorted (name_le ToLower)
                  (sort_Sort (list User) (users_Interface ToLower) stored)).
  { apply Sorted_StronglySorted; [apply _|]. by apply IsSorted_users_Sorted. }
  split; [done|]. split; [unfold Users, view; by rewrite Hst|].
  split; [done|]. split; [|split].
  - intros u. rewrite Hperm.
    rewrite (TxFind_elem_of (V:=User) db _ stored u Hst).
    split; [by intros [_ ?]|by intros ?; split].
  - intros i j a b Hij Hi Hj.
    by apply (StronglySorted_lookup_le (name_le ToLower) _ i j a b Hss).
  - intros ua ub uc Hlow Ha Hb Hc Hst3.
    apply (abc_sorted_unique ToLower); try done.
    + rewrite Ha. by rewrite Hlow.
    + rewrite Hb. by rewrite Hlow.
    + rewrite Hc. by rewrite Hlow.
    + by rewrite Hperm.
Qed.

(** *** Insertion sort sorts *)

Lemma insert_middle {A} (l1 l2 : list A) (x y : A) (n : nat) :
  length l1 = n -> <[n := y]> (l1 ++ x :: l2) = l1 ++ y :: l2.
Proof.
  intros <-. replace (length l1) with (length l1 + 0)%nat by lia.
  by rewrite insert_app_r.
Qed.

Lemma lookup_middle {A} (l1 l2 : list A) (x : A) (n : nat) :
  length l1 = n -> (l1 ++ x :: l2) !! n = Some x.
Proof. intros <-. apply list_lookup_middle. done. Qed.

Lemma split_two {A} (l : list A) (i j : nat) (a b : A) :
  i < j -> l !! i = Some a -> l !! j = Some b ->
  exists l1 l2 l3,
    l = l1 ++ a :: l2 ++ b :: l3
    /\ length l1 = i /\ length (l1 ++ a :: l2) = j.
Proof.
  intros Hij Hi Hj.
  pose proof (take_drop_middle l i a Hi) as E1.
  assert (Hj' : drop (S i) l !! (j - S i) = Some b).
  { rewrite lookup_drop. by replace (S i + (j - S i))%nat with j by lia. }
  pose proof (take_drop_middle _ _ _ Hj') as E2.
  exists (take i l), (take (j - S i) (drop (S i) l)),
    (drop (S (j - S i)) (drop (S i) l)).
  assert (Hli : i < length l) by by apply lookup_lt_Some in Hi.
  assert (Hlj : j - S i < length (drop (S i) l)) by by apply lookup_lt_Some in Hj'.
  split; [by rewrite E2, E1|].
  split; [rewrite length_take; lia|].
  rewrite length_app. cbn. rewrite !length_take. lia.
Qed.

Lemma swap_Permutation_lt {A} (l : list A) (i j : nat) (a b : A) :
  i < j -> l !! i = Some a -> l !! j = Some b ->
  <[i := b]> (<[j := a]> l) ≡ₚ l.
Proof.
  intros Hij Hi Hj.
  destruct (split_two l i j a b Hij Hi Hj) as (l1 & l2 & l3 & -> & Hl1 & Hl2).
  replace (l1 ++ a :: l2 ++ b :: l3) with ((l1 ++ a :: l2) ++ b :: l3)
    by (by rewrite <- app_assoc).
  rewrite (insert_middle _ _ _ a j Hl2).
  rewrite <- !app_assoc. cbn.
  rewrite (insert_middle _ _ _ b i Hl1).
  apply Permutation_app_head.
  rewrite <- !Permutation_middle. apply perm_swap.
Qed.

Lemma users_Swap_Permutation (u : list User) (i j : nat) :
  users_Swap u i j ≡ₚ u.
Proof.
  unfold users_Swap.
  destruct (u !! i) as [a|] eqn:Hi; [|done].
  destruct (u !! j) as [b|] eqn:Hj; [|done].
  destruct (Nat.lt_trichotomy i j) as [Hlt|[->|Hgt]].
  - by apply swap_Permutation_lt.
  - simplify_eq. by rewrite list_insert_insert_eq, list_insert_id.
  - rewrite list_insert_insert_ne by lia. by apply swap_Permutation_lt.
Qed.

Lemma string_ltb_true_leb (a b : string) :
  String.ltb a b = true -> String.leb a b = true.
Proof.
  unfold String.ltb, String.leb. by destruct (String.compare a b).
Qed.

Lemma string_leb_true_ltb (a b : string) :
  String.leb a b = true -> String.ltb b a = false.
Proof.
  unfold String.ltb, String.leb. rewrite (String.compare_antisym b a).
  by destruct (String.compare a b).
Qed.

Section InsertionSortUsers.
Variable ToLower : string -> string.

Lemma StronglySorted_users_IsSorted (l : list User) :
  StronglySorted (name_le ToLower) l -> IsSorted (users_Interface ToLower) l.
Proof.
  intros Hs i [Hi Hlen]. cbn in *. unfold users_Len in Hlen. unfold users_Less.
  destruct (l !! i) as [b|] eqn:Eb; [|done].
  destruct (l !! (i - 1)%nat) as [a|] eqn:Ea; [|done].
  apply string_leb_true_ltb.
  apply (StronglySorted_lookup_le (name_le ToLower) l (i - 1) i a b); try done.
  lia.
Qed.

Lemma snoc_of_length (pre : list User) (n : nat) :
  length pre = S n -> exists pre0 y, pre = pre0 ++ [y] /\ length pre0 = n.
Proof.
  destruct pre as [|y pre0 _] using rev_ind; [done|].
  rewrite length_app. cbn. intros Hl. exists pre0, y. split; [done|lia].
Qed.

(** The inner loop of [insertionSort] puts the element after a sorted prefix
    at its place in the prefix. *)
Lemma sink_sorted (j : nat) :
  forall (pre : list User) (x : User) (post : list User),
    length pre = j ->
    StronglySorted (name_le ToLower) pre ->
    exists p1 p2,
      pre = p1 ++ p2
      /\ sink (users_Interface ToLower) 0 j (pre ++ x :: post) = p1 ++ x :: p2 ++ post
      /\ StronglySorted (name_le ToLower) (p1 ++ x :: p2).
Proof.
  induction j as [|j IH]; intros pre x post Hlen Hs.
  - destruct pre; [|done]. exists [], []. cbn. repeat split; repeat constructor.
  - destruct (snoc_of_length pre j Hlen) as (pre0 & y & -> & Hlen0).
    rewrite <- app_assoc. cbn [app sink Less users_Interface].
    assert (Hy : (pre0 ++ y :: x :: post) !! j = Some y)
      by by apply lookup_middle.
    assert (Hx : (pre0 ++ y :: x :: post) !! S j = Some x).
    { replace (pre0 ++ y :: x :: post) with ((pre0 ++ [y]) ++ x :: post)
        by (by rewrite <- app_assoc).
      apply lookup_middle. rewrite length_app. cbn. lia. }
    unfold users_Less at 1. rewrite Hx, Hy. cbn [Nat.ltb Nat.leb andb].
    destruct (String.ltb (ToLower (User_FirstName x)) (ToLower (User_FirstName y)))
      eqn:Hlt.
    + assert (Hsw : Swap (users_Interface ToLower) (pre0 ++ y :: x :: post) (S j) j
                    = pre0 ++ x :: y :: post).
      { cbn. unfold users_Swap. rewrite Hx, Hy.
        rewrite (insert_middle pre0 _ y x j Hlen0).
        replace (pre0 ++ x :: x :: post) with ((pre0 ++ [x]) ++ x :: post)
          by (by rewrite <- app_assoc).
        rewrite (insert_middle (pre0 ++ [x]) post x y (S j))
          by (rewrite length_app; cbn; lia).
        by rewrite <- app_assoc. }
      rewrite Hsw.
      apply StronglySorted_app in Hs as (Hlast & Hs0 & _).
      destruct (IH pre0 x (y :: post) Hlen0 Hs0) as (p1 & p2 & -> & Hsink & Hsorted).
      exists p1, (p2 ++ [y]). rewrite Hsink.
      split; [by rewrite app_assoc|]. split; [by rewrite <- app_assoc|].
      replace (p1 ++ x :: p2 ++ [y]) with ((p1 ++ x :: p2) ++ [y])
        by (by rewrite <- app_assoc).
      apply StronglySorted_app_2; [|done|repeat constructor].
      intros x1 x2 Hx1 Hx2. apply list_elem_of_singleton in Hx2 as ->.
      apply elem_of_app in Hx1 as [Hx1|Hx1].
      * apply Hlast; [apply elem_of_app; by left|by left].
      * apply elem_of_cons in Hx1 as [->|Hx1].
        -- by apply string_ltb_true_leb.
        -- apply Hlast; [apply elem_of_app; by right|by left].
    + exists (pre0 ++ [y]), []. split; [by rewrite app_nil_r|].
      split; [by rewrite <- app_assoc|].
      apply StronglySorted_app_2; [|done|repeat constructor].
      intros x1 x2 Hx1 Hx2. apply list_elem_of_singleton in Hx2 as ->.
      assert (Hyx : name_le ToLower y x) by by apply string_ltb_false_leb.
      apply elem_of_app in Hx1 as [Hx1|Hx1].
      * apply StronglySorted_app in Hs as (Hlast & _ & _).
        transitivity y; [|done]. apply Hlast; [done|by left].
      * by apply list_elem_of_singleton in Hx1 as ->.
Qed.

Lemma insertionSort_loop (suf : list User) :
  forall (pre : list User) (i : nat),
    length pre = i ->
    StronglySorted (name_le ToLower) pre ->
    exists res,
      foldl (fun data i => sink (users_Interface ToLower) 0 i data)
            (pre ++ suf) (seq i (length suf)) = res
      /\ res ≡ₚ pre ++ suf
      /\ StronglySorted (name_le ToLower) res.
Proof.
  induction suf as [|x suf IH]; intros pre i Hlen Hs.
  - exists pre. cbn. by rewrite app_nil_r.
  - cbn [length seq foldl].
    destruct (sink_sorted i pre x suf Hlen Hs) as (p1 & p2 & -> & -> & Hsorted).
    replace (p1 ++ x :: p2 ++ suf) with ((p1 ++ x :: p2) ++ suf)
      by (by rewrite <- app_assoc).
    destruct (IH (p1 ++ x :: p2) (S i)) as (res & Hres & Hperm & Hss); [|done|].
    { rewrite length_app in *. cbn. lia. }
    exists res. split; [done|]. split; [|done].
    rewrite Hperm. rewrite <- !app_assoc. cbn.
    apply Permutation_app_head. by rewrite <- !Permutation_middle.
Qed.

Lemma insertionSort_sorts (data : list User) :
  insertionSort (users_Interface ToLower) data 0 (length data) ≡ₚ data
  /\ StronglySorted (name_le ToLower)
       (insertionSort (users_Interface ToLower) data 0 (length data)).
Proof.
  unfold insertionSort. destruct data as [|x0 rest].
  - cbn. split; [done|constructor].
  - cbn [length Nat.add Nat.sub]. rewrite Nat.sub_0_r.
    destruct (insertionSort_loop rest [x0] 1%nat) as (res & Hres & Hperm & Hss);
      [done|repeat constructor|].
    cbn in Hres. rewrite Hres. by split.
Qed.

Lemma insertion_Sort_sorts_users : sorts_users ToLower insertion_Sort.
Proof.
  intros data. unfold insertion_Sort. cbn [Len users_Interface]. unfold users_Len.
  destruct (insertionSort_sorts data) as [Hp Hs].
  split; [done|]. by apply StronglySorted_users_IsSorted.
Qed.

End InsertionSortUsers.

Lemma list_to_map_healthy {V} (l : list (Key * stored V)) :
  Forall (fun kv => kv.2 <> Corrupt) l -> healthy (list_to_map l : gmap Key (stored V)).
Proof.
  intros Hall k Hk. apply elem_of_list_to_map_2 in Hk.
  rewrite Forall_forall in Hall. by apply (Hall _ Hk).
Qed.

(** On a slice of at most 12 elements [sort.Sort] is the insertion sort. *)
Lemma Sort_short {D} (data_if : Interface D) (data : D) :
  Len data_if data <= 12 ->
  Sort D data_if data = insertion_Sort D data_if data.
Proof.
  intros Hn. unfold Sort, insertion_Sort.
  destruct (Nat.leb_spec (Len data_if data) 1) as [H1|H1].
  - unfold insertionSort.
    by replace (Len data_if data - (0 + 1))%nat with 0%nat by lia.
  - rewrite Nat.add_1_r. cbn [pdqsort]. rewrite Nat.sub_0_r.
    unfold maxInsertion. by rewrite (proj2 (Nat.leb_le _ _) Hn).
Qed.

Lemma listUsers_sorted_witness :
  exists stored us,
    TxFind (V:=User) abc_store (fun _ => true) = Ok stored
    /\ Users ascii_ToLower insertion_Sort abc_store = (us, None)
    /\ us ≡ₚ stored
    /\ (forall u, u ∈ us <-> exists k, users abc_store !! k = Some (Good u))
    /\ (forall i j a b,
          i <= j -> us !! i = Some a -> us !! j = Some b -> name_le ascii_ToLower a b)
    /\ (forall ua ub uc,
          (forall s, is_ascii s = true -> ascii_ToLower s = ascii_ToLower s) ->
          User_FirstName ua = "Alice" ->
          User_FirstName ub = "bob" ->
          User_FirstName uc = "charlie" ->
          stored ≡ₚ [ub; ua; uc] ->
          us = [ua; ub; uc]).
Proof.
  apply (listUsers_sorted ascii_ToLower insertion_Sort abc_store).
  - apply insertion_Sort_sorts_users.
  - apply list_to_map_healthy. repeat constructor; discriminate.
Defined.

Example listUsers_abc :
  Users ascii_ToLower Sort abc_store
  = ([tie_user 2 "Alice"; tie_user 1 "bob"; tie_user 3 "charlie"], None).
Proof. reflexivity. Qed.

(** C7 as stated fails.  Thirteen users are stored; the cursor meets them in
    the order of their keys, Bob (key 3) before bob (key 13).  [sort.Sort]
    takes fred as pivot and its partition exchanges liam, the first name
    that is not before fred, with bob, the last that is: the users come out
    in ascending order, but bob now precedes Bob, the opposite of their
    storage order. *)
Lemma listUsers_not_stable :
  let us := [tie_user 1 "alice"; tie_user 13 "bob"; tie_user 3 "Bob";
             tie_user 4 "carl"; tie_user 5 "dave"; tie_user 6 "erin";
             tie_user 7 "fred"; tie_user 8 "gina"; tie_user 9 "hank";
             tie_user 10 "ivan"; tie_user 11 "judy"; tie_user 12 "kate";
             tie_user 2 "liam"] in
  TxFind (V:=User) tie_store (fun _ => true) = Ok tie_users
  /\ Users ascii_ToLower Sort tie_store = (us, None)
  /\ filter (fun u => ascii_ToLower (User_FirstName u) = "bob") tie_users
     = [tie_user 3 "Bob"; tie_user 13 "bob"]
  /\ filter (fun u => ascii_ToLower (User_FirstName u) = "bob") us
     = [tie_user 13 "bob"; tie_user 3 "Bob"]
  /\ ~ stable_wrt ascii_ToLower tie_users us.
Proof.
  intros us.
  split; [by vm_compute|]. split; [by vm_compute|].
  split; [reflexivity|]. split; [reflexivity|].
  intros Hstable. specialize (Hstable "bob"). by vm_compute in Hstable.
Qed.

(** * Further properties of the db layer *)

(** ** Commands *)

Lemma clearCommand_cases_aux (id : string) (db : Store) :
  (cmds db !! KString id = None ->
   NodeDeleteCmd id db = (db, Some ErrNotFound))
  /\ (forall c,
        cmds db !! KString id = Some (Good c) ->
        nodes db !! KString id = None ->
        NodeDeleteCmd id db = (db, Some ErrNotFound)).
Proof.
  split.
  - intros Hc. unfold NodeDeleteCmd, update, TxDelete. cbn. by rewrite Hc.
  - intros c Hc Hn. unfold NodeDeleteCmd, update, TxDelete, TxGet. cbn.
    rewrite Hc. cbn. by rewrite Hn.
Qed.

(** X1. clearCommand fails with NotFound, changing nothing, when the node has
    no Command record, and also when the record exists but the node does not
    (the deletion of the record is rolled back); when both exist the record
    is removed, the flag is cleared and nothing else changes. *)
Theorem clearCommand_cases (id : string) (db : Store) :
  (cmds db !! KString id = None ->
   NodeDeleteCmd id db = (db, Some ErrNotFound))
  /\ (forall c,
        cmds db !! KString id = Some (Good c) ->
        nodes db !! KString id = None ->
        NodeDeleteCmd id db = (db, Some ErrNotFound)
        /\ cmds (NodeDeleteCmd id db).1 !! KString id = Some (Good c))
  /\ (forall c dev,
        cmds db !! KString id = Some (Good c) ->
        nodes db !! KString id = Some (Good dev) ->
        NodeDeleteCmd id db
        = (mkStore (<[KString id := Good (SetCmdPending false dev)]> (nodes db))
                   (delete (KString id) (cmds db))
                   (users db) (groups db) (rules db), None)
        /\ pending (NodeDeleteCmd id db).1 id = false
        /\ ~ has_command (NodeDeleteCmd id db).1 id).
Proof.
  split; [|split].
  - intros Hc. unfold NodeDeleteCmd, update, TxDelete. cbn. by rewrite Hc.
  - intros c Hc Hn. unfold NodeDeleteCmd, update, TxDelete, TxGet. cbn.
    rewrite Hc. cbn. by rewrite Hn.
  - intros c dev Hc Hn.
    assert (E : NodeDeleteCmd id db
                = (mkStore (<[KString id := Good (SetCmdPending false dev)]> (nodes db))
                     (delete (KString id) (cmds db))
                     (users db) (groups db) (rules db), None)).
    { unfold NodeDeleteCmd, update, TxDelete, TxGet, TxUpdate. cbn.
      rewrite Hc. cbn. by rewrite Hn. }
    rewrite E. split; [done|]. unfold pending, has_command; cbn.
    rewrite lookup_insert_eq, lookup_delete_eq. split; [done|]. by intros [? ?].
Qed.

Lemma clearCommand_cases_witness :
  NodeDeleteCmd "n1" demo_store = (demo_store, Some ErrNotFound)
  /\ (NodeDeleteCmd "n1" orphan_store = (orphan_store, Some ErrNotFound)
      /\ cmds (NodeDeleteCmd "n1" orphan_store).1 !! KString "n1" = Some (Good demo_cmd))
  /\ (NodeDeleteCmd "n1" demo_store_cmd
      = (mkStore (<[KString "n1" := Good (SetCmdPending false (SetCmdPending true demo_node))]>
                    (nodes demo_store_cmd))
                 (delete (KString "n1") (cmds demo_store_cmd))
                 (users demo_store_cmd) (groups demo_store_cmd) (rules demo_store_cmd),
         None)
      /\ pending (NodeDeleteCmd "n1" demo_store_cmd).1 "n1" = false
      /\ ~ has_command (NodeDeleteCmd "n1" demo_store_cmd).1 "n1").
Proof.
  split; [|split].
  - apply (proj1 (clearCommand_cases "n1" demo_store)). reflexivity.
  - apply (proj1 (proj2 (clearCommand_cases "n1" orphan_store)) demo_cmd);
      reflexivity.
  - apply (proj2 (proj2 (clearCommand_cases "n1" demo_store_cmd)) demo_cmd
             (SetCmdPending true demo_node)); reflexivity.
Defined.

Lemma NodeSetCmd_ok (cmd : NodeCmd) (db : Store) (dev : Node) :
  nodes db !! KString (NodeCmd_ID cmd) = Some (Good dev) ->
  cmds db !! KString (NodeCmd_ID cmd) <> Some Corrupt ->
  NodeSetCmd cmd db
  = (mkStore (<[KString (NodeCmd_ID cmd) := Good (SetCmdPending true dev)]> (nodes db))
             (<[KString (NodeCmd_ID cmd) := Good cmd]> (cmds db))
             (users db) (groups db) (rules db), None).
Proof.
  intros Hn Hc. unfold NodeSetCmd, update, TxUpsert, TxGet, TxUpdate. cbn.
  destruct (cmds db !! KString (NodeCmd_ID cmd)) as [[c|]|] eqn:E; cbn;
    try done; by rewrite Hn.
Qed.

(** X2. A command set for a stored node is delivered once: the next
    takeCommand returns exactly that command and removes it, the one after
    returns the empty command; a command set twice is delivered as set last.
    After the delivery the node is as it was before the command was set,
    with the flag cleared. *)
Theorem setCommand_takeCommand_once (cmd0 cmd : NodeCmd) (db : Store) (dev : Node) :
  NodeCmd_ID cmd0 = NodeCmd_ID cmd ->
  NodeCmd_Cmd cmd <> "" ->
  nodes db !! KString (NodeCmd_ID cmd) = Some (Good dev) ->
  cmds db !! KString (NodeCmd_ID cmd) <> Some Corrupt ->
  let id := NodeCmd_ID cmd in
  let db1 := (NodeSetCmd cmd (NodeSetCmd cmd0 db).1).1 in
  let db2 := (NodeGetCmd id db1).1 in
  (NodeSetCmd cmd0 db).2 = None
  /\ (NodeSetCmd cmd (NodeSetCmd cmd0 db).1).2 = None
  /\ (NodeGetCmd id db1).2 = (cmd, None)
  /\ (NodeGetCmd id db2) = (db2, (NodeCmd_zero, None))
  /\ nodes db2 = <[KString id := Good (SetCmdPending false dev)]> (nodes db)
  /\ cmds db2 = delete (KString id) (cmds db).
Proof.
  intros Hid Hne Hn Hc id db1 db2. subst db2 db1 id.
  rewrite (NodeSetCmd_ok cmd0 db dev) by (by rewrite Hid).
  cbn [fst snd]. split; [done|].
  rewrite (NodeSetCmd_ok cmd _ (SetCmdPending true dev)); cbn [nodes cmds].
  2:{ rewrite Hid. apply lookup_insert_eq. }
  2:{ rewrite Hid. by rewrite lookup_insert_eq. }
  cbn [fst snd users groups rules]. split; [done|].
  rewrite Hid, !insert_insert_eq.
  rewrite (NodeGetCmd_taken _ _ cmd (SetCmdPending true dev));
    cbn [nodes cmds users groups rules fst snd];
    [|apply lookup_insert_eq|done|apply lookup_insert_eq].
  split; [done|].
  rewrite insert_insert_eq, delete_insert_eq.
  split; [|done].
  apply NodeGetCmd_absent. cbn. apply lookup_delete_eq.
Qed.

Lemma setCommand_takeCommand_once_witness :
  let cmd0 := mkNodeCmd "n1" "update" in
  let db1 := (NodeSetCmd demo_cmd (NodeSetCmd cmd0 demo_store).1).1 in
  let db2 := (NodeGetCmd "n1" db1).1 in
  (NodeSetCmd cmd0 demo_store).2 = None
  /\ (NodeSetCmd demo_cmd (NodeSetCmd cmd0 demo_store).1).2 = None
  /\ (NodeGetCmd "n1" db1).2 = (demo_cmd, None)
  /\ (NodeGetCmd "n1" db2) = (db2, (NodeCmd_zero, None))
  /\ nodes db2 = <[KString "n1" := Good (SetCmdPending false demo_node)]> (nodes demo_store)
  /\ cmds db2 = delete (KString "n1") (cmds demo_store).
Proof.
  apply (setCommand_takeCommand_once (mkNodeCmd "n1" "update") demo_cmd
           demo_store demo_node).
  - reflexivity.
  - discriminate.
  - reflexivity.
  - discriminate.
Defined.

Lemma NodeDelete_with_rules (id : string) (db : Store) (device : Node) :
  nodes db !! KString id = Some (Good device) ->
  Node_Rules device <> [] ->
  NodeDelete id db = (db, Some ErrGobEncode).
Proof.
  intros Hn Hr. unfold NodeDelete, update, TxGet. cbn. rewrite Hn. cbn.
  by destruct (Node_Rules device).
Qed.

(** X3. deleteNode changes at most the Node record of its identifier: no
    Rule, Command, User or Group record and no other node is written or
    removed, whatever the outcome. *)
Theorem deleteNode_touches_one_node (id : string) (db : Store) :
  rules (NodeDelete id db).1 = rules db
  /\ cmds (NodeDelete id db).1 = cmds db
  /\ users (NodeDelete id db).1 = users db
  /\ groups (NodeDelete id db).1 = groups db
  /\ (forall k, k <> KString id ->
        nodes (NodeDelete id db).1 !! k = nodes db !! k).
Proof.
  destruct (nodes db !! KString id) as [[dev|]|] eqn:Hn.
  - destruct (Node_Rules dev) as [|r rs] eqn:Hr.
    + rewrite (NodeDelete_no_rules id db dev Hn Hr). cbn.
      repeat split. intros k Hk. by rewrite lookup_delete_ne.
    + rewrite (NodeDelete_with_rules id db dev Hn); [done|by rewrite Hr].
  - assert (E : NodeDelete id db = (db, Some ErrGobDecode)).
    { unfold NodeDelete, update, TxGet. cbn. by rewrite Hn. }
    by rewrite E.
  - by rewrite (NodeDelete_missing id db Hn).
Qed.

Lemma deleteNode_touches_one_node_witness :
  rules (NodeDelete "n1" demo_store_rule).1 = rules demo_store_rule
  /\ cmds (NodeDelete "n1" demo_store_cmd).1 = cmds demo_store_cmd
  /\ nodes (NodeDelete "n1" demo_store_cmd).1 !! KString "n2"
     = nodes demo_store_cmd !! KString "n2".
Proof.
  split; [|split].
  - apply (deleteNode_touches_one_node "n1" demo_store_rule).
  - apply (deleteNode_touches_one_node "n1" demo_store_cmd).
  - apply (deleteNode_touches_one_node "n1" demo_store_cmd). discriminate.
Defined.

(** X4. Deleting a node that has a pending command leaves the Command record
    behind, and while the node is missing that command is stuck: every
    takeCommand returns it together with NotFound and deletes nothing,
    clearCommand fails with NotFound, and so does a setCommand that would
    replace it. *)
Theorem deleteNode_orphans_command (id : string) (db : Store) (dev : Node)
    (c c' : NodeCmd) :
  nodes db !! KString id = Some (Good dev) ->
  Node_Rules dev = [] ->
  cmds db !! KString id = Some (Good c) ->
  NodeCmd_Cmd c <> "" ->
  NodeCmd_ID c' = id ->
  let db' := (NodeDelete id db).1 in
  (NodeDelete id db).2 = None
  /\ nodes db' !! KString id = None
  /\ cmds db' !! KString id = Some (Good c)
  /\ NodeGetCmd id db' = (db', (c, Some ErrNotFound))
  /\ NodeDeleteCmd id db' = (db', Some ErrNotFound)
  /\ NodeSetCmd c' db' = (db', Some ErrNotFound).
Proof.
  intros Hn Hr Hc Hne Hid db'. subst db'.
  rewrite (NodeDelete_no_rules id db dev Hn Hr). cbn [fst snd].
  set (db' := mkStore _ _ _ _ _).
  assert (Hn' : nodes db' !! KString id = None) by apply lookup_delete_eq.
  assert (Hc' : cmds db' !! KString id = Some (Good c)) by done.
  repeat split; try done.
  - unfold NodeGetCmd, NodeGetCmd_tx, update, TxGet, TxDelete. cbn -[db'].
    rewrite Hc'. cbn [decode].
    repeat case_decide; try done. cbn -[db']. rewrite ?Hc'. cbn -[db'].
    by rewrite ?Hn'.
  - by apply (proj2 (clearCommand_cases_aux id db') c).
  - unfold NodeSetCmd, update, TxUpsert, TxGet. rewrite Hid. cbn -[db'].
    rewrite Hc'. cbn -[db']. by rewrite Hn'.
Qed.

Lemma deleteNode_orphans_command_witness :
  let db' := (NodeDelete "n1" demo_store_cmd).1 in
  (NodeDelete "n1" demo_store_cmd).2 = None
  /\ nodes db' !! KString "n1" = None
  /\ cmds db' !! KString "n1" = Some (Good demo_cmd)
  /\ NodeGetCmd "n1" db' = (db', (demo_cmd, Some ErrNotFound))
  /\ NodeDeleteCmd "n1" db' = (db', Some ErrNotFound)
  /\ NodeSetCmd (mkNodeCmd "n1" "halt") db' = (db', Some ErrNotFound).
Proof.
  apply (deleteNode_orphans_command "n1" demo_store_cmd
           (SetCmdPending true demo_node) demo_cmd (mkNodeCmd "n1" "halt")).
  - reflexivity.
  - reflexivity.
  - reflexivity.
  - discriminate.
  - reflexivity.
Defined.

(** ** Node state, groups and visibility *)

(** X5. setNodeState and setNodeSwUpdateState never answer NotFound: for an
    identifier without a record they store a new node carrying that
    identifier and the state, with no points, groups, rules or pending
    command; for a stored node only the state field changes; a record that
    does not decode is reported and left as it is. *)
Theorem setNodeState_upsert (id : string) (state : Z) (db : Store) :
  (nodes db !! KString id = None ->
   NodeSetState id state db
   = (mkStore (<[KString id := Good (mkNode id "" [] [] [] state false 0)]> (nodes db))
              (cmds db) (users db) (groups db) (rules db), None)
   /\ NodeSetSwUpdateState id state db
      = (mkStore (<[KString id := Good (mkNode id "" [] [] [] 0 false state)]> (nodes db))
                 (cmds db) (users db) (groups db) (rules db), None))
  /\ (forall dev,
        nodes db !! KString id = Some (Good dev) ->
        NodeSetState id state db
        = (mkStore (<[KString id := Good (SetState state dev)]> (nodes db))
                   (cmds db) (users db) (groups db) (rules db), None)
        /\ NodeSetSwUpdateState id state db
           = (mkStore (<[KString id := Good (SetSwUpdateState state dev)]> (nodes db))
                      (cmds db) (users db) (groups db) (rules db), None))
  /\ (nodes db !! KString id = Some Corrupt ->
      NodeSetState id state db = (db, Some ErrGobDecode)
      /\ NodeSetSwUpdateState id state db = (db, Some ErrGobDecode)).
Proof.
  split; [|split].
  - intros Hn. unfold NodeSetState, NodeSetSwUpdateState, update.
    rewrite (get_or_new_absent _ _ Hn). unfold TxUpsert. cbn. by rewrite Hn.
  - intros dev Hn. unfold NodeSetState, NodeSetSwUpdateState, update.
    rewrite (get_or_new_present _ _ _ Hn). unfold TxUpsert. cbn. by rewrite Hn.
  - intros Hn. unfold NodeSetState, NodeSetSwUpdateState, update, get_or_new, TxGet.
    cbn. rewrite Hn. cbn. by rewrite decide_False.
Qed.

Lemma setNodeState_upsert_witness :
  (NodeSetState "n9" SysStateOffline demo_store
   = (mkStore (<[KString "n9" := Good (mkNode "n9" "" [] [] [] SysStateOffline false 0)]>
                 (nodes demo_store))
              (cmds demo_store) (users demo_store) (groups demo_store)
              (rules demo_store), None)
   /\ NodeSetSwUpdateState "n9" SysStateOffline demo_store
      = (mkStore (<[KString "n9" := Good (mkNode "n9" "" [] [] [] 0 false SysStateOffline)]>
                    (nodes demo_store))
                 (cmds demo_store) (users demo_store) (groups demo_store)
                 (rules demo_store), None))
  /\ (NodeSetState "n1" SysStateOffline demo_store
      = (mkStore (<[KString "n1" := Good (SetState SysStateOffline demo_node)]>
                    (nodes demo_store))
                 (cmds demo_store) (users demo_store) (groups demo_store)
                 (rules demo_store), None)
      /\ NodeSetSwUpdateState "n1" SysStateOffline demo_store
         = (mkStore (<[KString "n1" := Good (SetSwUpdateState SysStateOffline demo_node)]>
                       (nodes demo_store))
                    (cmds demo_store) (users demo_store) (groups demo_store)
                    (rules demo_store), None))
  /\ (NodeSetState "n2" SysStateOffline faulty_store = (faulty_store, Some ErrGobDecode)
      /\ NodeSetSwUpdateState "n2" SysStateOffline faulty_store = (faulty_store, Some ErrGobDecode)).
Proof.
  split; [|split].
  - apply (proj1 (setNodeState_upsert "n9" SysStateOffline demo_store)). reflexivity.
  - split.
    + apply (proj1 (proj2 (setNodeState_upsert "n1" SysStateOffline demo_store))
               demo_node). reflexivity.
    + apply (proj1 (proj2 (setNodeState_upsert "n1" SysStateOffline demo_store))
               demo_node). reflexivity.
  - split.
    + apply (proj2 (proj2 (setNodeState_upsert "n2" SysStateOffline faulty_store))).
      reflexivity.
    + apply (proj2 (proj2 (setNodeState_upsert "n2" SysStateOffline faulty_store))).
      reflexivity.
Defined.

Lemma Groups_Contains_true (g : UUID) (n : Node) :
  Groups_Contains g n = true <-> g ∈ Node_Groups n.
Proof.
  unfold Groups_Contains. rewrite existsb_exists, list_elem_of_In. split.
  - intros (x & Hx & Heq). by apply bool_decide_eq_true in Heq as ->.
  - intros Hin. exists g. split; [done|]. by apply bool_decide_eq_true.
Qed.

Lemma NodesForGroup_elem_of (db : Store) (g : UUID) :
  healthy (nodes db) ->
  exists devices,
    NodesForGroup db g = (devices, None)
    /\ forall n, n ∈ devices
                 <-> g ∈ Node_Groups n /\ exists k, nodes db !! k = Some (Good n).
Proof.
  intros Hh. change (healthy (bucket_of (V:=Node) db)) in Hh.
  destruct (TxFind_healthy (V:=Node) db (Groups_Contains g) Hh) as [devices Hd].
  exists devices. unfold NodesForGroup. rewrite Hd. split; [done|].
  intros n. rewrite (TxFind_elem_of (V:=Node) db _ devices n Hd).
  by rewrite Groups_Contains_true.
Qed.

Lemma healthy_insert {V} (b : gmap Key (stored V)) (k : Key) (v : V) :
  healthy b -> healthy (<[k := Good v]> b).
Proof.
  intros Hh k'. destruct (decide (k = k')) as [<-|Hne].
  - by rewrite lookup_insert_eq.
  - rewrite lookup_insert_ne by done. apply Hh.
Qed.

(** X6. setNodeGroups fails with NotFound on an identifier without a record
    and creates nothing (unlike the state setters); on a stored node it
    replaces the group list and nothing else, and from then on the node is
    listed for a group exactly when the group is in the new list, while the
    listing of every other node is as before. *)
Theorem setNodeGroups_visibility (id : string) (gs : list UUID) (db : Store) :
  (nodes db !! KString id = None ->
   NodeUpdateGroups id gs db = (db, Some ErrNotFound))
  /\ (forall dev,
        nodes db !! KString id = Some (Good dev) ->
        healthy (nodes db) ->
        NodeUpdateGroups id gs db
        = (mkStore (<[KString id := Good (Node_with_Groups gs dev)]> (nodes db))
                   (cmds db) (users db) (groups db) (rules db), None)
        /\ forall g, exists devices,
             NodesForGroup (NodeUpdateGroups id gs db).1 g = (devices, None)
             /\ forall n,
                  n ∈ devices
                  <-> (n = Node_with_Groups gs dev /\ g ∈ gs)
                      \/ (exists k, k <> KString id
                                    /\ nodes db !! k = Some (Good n)
                                    /\ g ∈ Node_Groups n)).
Proof.
  split.
  - intros Hn. unfold NodeUpdateGroups, update, TxGet. cbn. by rewrite Hn.
  - intros dev Hn Hh.
    assert (E : NodeUpdateGroups id gs db
                = (mkStore (<[KString id := Good (Node_with_Groups gs dev)]> (nodes db))
                     (cmds db) (users db) (groups db) (rules db), None)).
    { unfold NodeUpdateGroups, update, TxGet, TxUpdate. cbn. by rewrite Hn. }
    rewrite E. split; [done|]. intros g. cbn [fst].
    set (db' := mkStore _ _ _ _ _).
    destruct (NodesForGroup_elem_of db' g) as (devices & Hd & Hmem).
    { by apply healthy_insert. }
    exists devices. split; [done|]. intros n. rewrite Hmem. cbn. split.
    + intros (Hg & k & Hk). destruct (decide (k = KString id)) as [->|Hne].
      * rewrite lookup_insert_eq in Hk. left. by simplify_eq.
      * rewrite lookup_insert_ne in Hk by done. right. by exists k.
    + intros [[-> Hg]|(k & Hne & Hk & Hg)].
      * split; [done|]. exists (KString id). apply lookup_insert_eq.
      * split; [done|]. exists k. by rewrite lookup_insert_ne.
Qed.

Lemma setNodeGroups_visibility_witness :
  NodeUpdateGroups "n9" [21%N] sound_store = (sound_store, Some ErrNotFound)
  /\ (NodeUpdateGroups "n1" [33%N] sound_store
      = (mkStore (<[KString "n1" := Good (Node_with_Groups [33%N] plant_node)]>
                    (nodes sound_store))
                 (cmds sound_store) (users sound_store) (groups sound_store)
                 (rules sound_store), None)
      /\ forall g, exists devices,
           NodesForGroup (NodeUpdateGroups "n1" [33%N] sound_store).1 g = (devices, None)
           /\ forall n,
                n ∈ devices
                <-> (n = Node_with_Groups [33%N] plant_node /\ g ∈ [33%N])
                    \/ (exists k, k <> KString "n1"
                                  /\ nodes sound_store !! k = Some (Good n)
                                  /\ g ∈ Node_Groups n)).
Proof.
  split.
  - apply (proj1 (setNodeGroups_visibility "n9" [21%N] sound_store)). reflexivity.
  - apply (proj2 (setNodeGroups_visibility "n1" [33%N] sound_store) plant_node).
    + reflexivity.
    + intros k Hk. cbn in Hk.
      apply lookup_singleton_Some in Hk as [_ Hk]. discriminate.
Defined.

(** X7. For a user who is not root, on a store whose group and node records
    all decode, nodesForUser lists exactly the nodes that nodesForGroup lists
    for some group of the user. *)
Theorem nodesForUser_is_union_of_groups (userID : UUID) (db : Store) :
  UserIsRoot userID db = (false, None) ->
  healthy (groups db) ->
  healthy (nodes db) ->
  (NodesForUser userID db).2 = None
  /\ forall n,
       n ∈ (NodesForUser userID db).1
       <-> exists g, user_in_group db userID g /\ n ∈ (NodesForGroup db g).1.
Proof.
  intros Hroot Hhg Hh.
  destruct (nodesForUser_groups userID db Hroot Hhg Hh) as (devices & -> & Hmem).
  split; [done|]. intros n. cbn. rewrite Hmem. split.
  - intros (Hk & g & Hg & Hu). exists g. split; [done|].
    destruct (NodesForGroup_elem_of db g Hh) as (ds & -> & Hds). cbn.
    by apply Hds.
  - intros (g & Hu & Hin).
    destruct (NodesForGroup_elem_of db g Hh) as (ds & E & Hds).
    rewrite E in Hin. cbn in Hin. apply Hds in Hin as [Hg Hk]. eauto.
Qed.

Lemma nodesForUser_is_union_of_groups_witness :
  (NodesForUser 5 sound_store).2 = None
  /\ forall n,
       n ∈ (NodesForUser 5 sound_store).1
       <-> exists g, user_in_group sound_store 5 g /\ n ∈ (NodesForGroup sound_store g).1.
Proof.
  apply (nodesForUser_is_union_of_groups 5 sound_store).
  - reflexivity.
  - intros k Hk. cbn in Hk.
    apply lookup_insert_Some in Hk as [[_ Hk]|[_ Hk]]; [done|].
    by apply lookup_singleton_Some in Hk as [_ Hk].
  - intros k Hk. cbn in Hk.
    apply lookup_singleton_Some in Hk as [_ Hk]. discriminate.
Defined.

(** ** Rules *)

(** X8. insertRule is all or nothing.  With an unused identifier drawn and
    the target node stored (under its own ID), the rule is stored under the
    drawn identifier with its ID field set to it, the identifier is appended
    to the Rules of the node, and the rule can be read back; if the target
    node is missing, NotFound is returned and the rule inserted at the start
    of the transaction is not kept; if the drawn identifier is in use,
    KeyExists is returned and nothing changes.  The drawn identifier is
    returned in every case. *)
Theorem insertRule_atomic (newID : UUID) (rule : Rule) (db : Store) :
  let k := KString (RuleConfig_NodeID (Rule_Config rule)) in
  (forall device,
      rules db !! KUUID newID = None ->
      nodes db !! k = Some (Good device) ->
      Node_ID device = RuleConfig_NodeID (Rule_Config rule) ->
      RuleInsert newID rule db
      = (mkStore (<[k := Good (Node_with_Rules (Node_Rules device ++ [newID]) device)]>
                    (nodes db))
                 (cmds db) (users db) (groups db)
                 (<[KUUID newID := Good (Rule_with_ID newID rule)]> (rules db)),
         (newID, None))
      /\ RuleByID newID (RuleInsert newID rule db).1 = Ok (Rule_with_ID newID rule))
  /\ (rules db !! KUUID newID = None ->
      nodes db !! k = None ->
      RuleInsert newID rule db = (db, (newID, Some ErrNotFound))
      /\ RuleByID newID (RuleInsert newID rule db).1 = Err ErrNotFound)
  /\ (is_Some (rules db !! KUUID newID) ->
      RuleInsert newID rule db = (db, (newID, Some ErrKeyExists))).
Proof.
  intros k. split; [|split].
  - intros device Hr Hn Hid.
    assert (E : RuleInsert newID rule db
                = (mkStore (<[k := Good (Node_with_Rules (Node_Rules device ++ [newID]) device)]>
                              (nodes db))
                     (cmds db) (users db) (groups db)
                     (<[KUUID newID := Good (Rule_with_ID newID rule)]> (rules db)),
                   (newID, None))).
    { unfold RuleInsert, update, TxInsert, TxGet, TxUpdate. cbn. rewrite Hr. cbn.
      fold k. rewrite Hn. cbn. rewrite Hid. fold k. by rewrite Hn. }
    rewrite E. split; [done|].
    unfold RuleByID, view, TxGet. cbn. by rewrite lookup_insert_eq.
  - intros Hr Hn.
    assert (E : RuleInsert newID rule db = (db, (newID, Some ErrNotFound))).
    { unfold RuleInsert, update, TxInsert, TxGet. cbn. rewrite Hr. cbn.
      fold k. by rewrite Hn. }
    rewrite E. split; [done|]. unfold RuleByID, view, TxGet. cbn. by rewrite Hr.
  - intros [x Hx]. unfold RuleInsert, update, TxInsert. cbn. by rewrite Hx.
Qed.

Lemma insertRule_atomic_witness :
  (RuleInsert 7 demo_rule demo_store
   = (mkStore (<[KString "n1" := Good (Node_with_Rules (Node_Rules demo_node ++ [7%N]) demo_node)]>
                 (nodes demo_store))
              (cmds demo_store) (users demo_store) (groups demo_store)
              (<[KUUID 7 := Good (Rule_with_ID 7 demo_rule)]> (rules demo_store)),
      (7%N, None))
   /\ RuleByID 7 (RuleInsert 7 demo_rule demo_store).1 = Ok (Rule_with_ID 7 demo_rule))
  /\ (RuleInsert 7 demo_rule empty_store = (empty_store, (7%N, Some ErrNotFound))
      /\ RuleByID 7 (RuleInsert 7 demo_rule empty_store).1 = Err ErrNotFound)
  /\ RuleInsert 7 demo_rule demo_store_rule = (demo_store_rule, (7%N, Some ErrKeyExists)).
Proof.
  split; [|split].
  - apply (proj1 (insertRule_atomic 7 demo_rule demo_store) demo_node); reflexivity.
  - apply (proj1 (proj2 (insertRule_atomic 7 demo_rule empty_store))); reflexivity.
  - apply (proj2 (proj2 (insertRule_atomic 7 demo_rule demo_store_rule))).
    eexists. reflexivity.
Defined.

(** X9. updateRuleConfig and updateRuleState fail with NotFound on a missing
    rule; on a stored rule they replace the one field, keep the ID and the
    other field, and write no node.  updateRuleConfig does not look at the
    node the new config names: the rule can be pointed at a node that does
    not exist, and deleteRule on that rule then fails with NotFound and
    leaves it stored. *)
Theorem updateRule_fields (id : UUID) (config : RuleConfig) (state : Z) (db : Store) :
  (rules db !! KUUID id = None ->
   RuleUpdateConfig id config db = (db, Some ErrNotFound)
   /\ RuleUpdateState id state db = (db, Some ErrNotFound))
  /\ (forall rule,
        rules db !! KUUID id = Some (Good rule) ->
        RuleUpdateConfig id config db
        = (mkStore (nodes db) (cmds db) (users db) (groups db)
                   (<[KUUID id := Good (mkRule (Rule_ID rule) config (Rule_State rule))]>
                      (rules db)), None)
        /\ RuleUpdateState id state db
           = (mkStore (nodes db) (cmds db) (users db) (groups db)
                      (<[KUUID id := Good (mkRule (Rule_ID rule) (Rule_Config rule) state)]>
                         (rules db)), None)
        /\ (nodes db !! KString (RuleConfig_NodeID config) = None ->
            RuleDelete id (RuleUpdateConfig id config db).1
            = ((RuleUpdateConfig id config db).1, Some ErrNotFound))).
Proof.
  split.
  - intros Hr. unfold RuleUpdateConfig, RuleUpdateState, update, TxGet. cbn.
    by rewrite Hr.
  - intros rule Hr.
    assert (E : RuleUpdateConfig id config db
                = (mkStore (nodes db) (cmds db) (users db) (groups db)
                     (<[KUUID id := Good (mkRule (Rule_ID rule) config (Rule_State rule))]>
                        (rules db)), None)).
    { unfold RuleUpdateConfig, update, TxGet, TxUpdate. cbn. by rewrite Hr. }
    rewrite E. split; [done|]. split.
    + unfold RuleUpdateState, update, TxGet, TxUpdate. cbn. by rewrite Hr.
    + intros Hn. cbn [fst]. unfold RuleDelete, update, TxGet. cbn.
      rewrite lookup_insert_eq. cbn. by rewrite Hn.
Qed.

Lemma updateRule_fields_witness :
  (RuleUpdateConfig 8 (mkRuleConfig "ghost" "") demo_store_rule
   = (demo_store_rule, Some ErrNotFound)
   /\ RuleUpdateState 8 1 demo_store_rule = (demo_store_rule, Some ErrNotFound))
  /\ (RuleUpdateConfig 7 (mkRuleConfig "ghost" "") demo_store_rule
      = (mkStore (nodes demo_store_rule) (cmds demo_store_rule) (users demo_store_rule)
                 (groups demo_store_rule)
                 (<[KUUID 7 := Good (mkRule (Rule_ID (Rule_with_ID 7 demo_rule))
                                            (mkRuleConfig "ghost" "")
                                            (Rule_State (Rule_with_ID 7 demo_rule)))]>
                    (rules demo_store_rule)), None)
      /\ RuleUpdateState 7 1 demo_store_rule
         = (mkStore (nodes demo_store_rule) (cmds demo_store_rule) (users demo_store_rule)
                    (groups demo_store_rule)
                    (<[KUUID 7 := Good (mkRule (Rule_ID (Rule_with_ID 7 demo_rule))
                                               (Rule_Config (Rule_with_ID 7 demo_rule)) 1)]>
                       (rules demo_store_rule)), None)
      /\ (nodes demo_store_rule !! KString (RuleConfig_NodeID (mkRuleConfig "ghost" "")) = None ->
          RuleDelete 7 (RuleUpdateConfig 7 (mkRuleConfig "ghost" "") demo_store_rule).1
          = ((RuleUpdateConfig 7 (mkRuleConfig "ghost" "") demo_store_rule).1,
             Some ErrNotFound))).
Proof.
  split.
  - apply (proj1 (updateRule_fields 8 (mkRuleConfig "ghost" "") 1 demo_store_rule)).
    reflexivity.
  - apply (proj2 (updateRule_fields 7 (mkRuleConfig "ghost" "") 1 demo_store_rule)
             (Rule_with_ID 7 demo_rule)). reflexivity.
Defined.

Example retargeted_rule_cannot_be_deleted :
  let db := (RuleUpdateConfig 7 (mkRuleConfig "ghost" "") demo_store_rule).1 in
  RuleDelete 7 db = (db, Some ErrNotFound)
  /\ RuleByID 7 db = Ok (mkRule 7 (mkRuleConfig "ghost" "") 0).
Proof. split; reflexivity. Qed.

(** ** Node records and their keys *)

Lemma nodes_step_keys_ok (db db' : Store) :
  nodes_step db db' -> node_keys_ok db -> node_keys_ok db'.
Proof.
  intros [E|[[k E]|[n E]]] Hok k' n' Hk; rewrite E in Hk.
  - by apply Hok.
  - destruct (decide (k = k')) as [->|Hne].
    + by rewrite lookup_delete_eq in Hk.
    + rewrite lookup_delete_ne in Hk by done. by apply Hok.
  - destruct (decide (KString (Node_ID n) = k')) as [<-|Hne].
    + rewrite lookup_insert_eq in Hk. by simplify_eq.
    + rewrite lookup_insert_ne in Hk by done. by apply Hok.
Qed.

Ltac unfold_tx :=
  unfold update, view, TxFindOne, TxFind, TxDeleteMatching,
    TxInsert, TxUpdate, TxUpsert, TxDelete, TxGet; cbn.

Ltac same_nodes :=
  left; unfold_tx; unfold mbind, result_bind in *;
  repeat (case_match; cbn in *; unfold mbind, result_bind in *; simplify_eq; cbn);
  done.

Lemma ProcessPoint_ID (p : Point) (dev : Node) :
  Node_ID (ProcessPoint p dev) = Node_ID dev.
Proof. unfold ProcessPoint. by destruct (existsb _ _). Qed.

Lemma get_or_new_cases (tx : Store) (id : string) :
  (exists dev, nodes tx !! KString id = Some (Good dev) /\ get_or_new tx id = Ok dev)
  \/ (nodes tx !! KString id = None
      /\ get_or_new tx id = Ok (Node_with_ID id Node_zero))
  \/ (nodes tx !! KString id = Some Corrupt /\ get_or_new tx id = Err ErrGobDecode).
Proof.
  destruct (nodes tx !! KString id) as [[dev|]|] eqn:Hn.
  - left. exists dev. split; [done|]. by apply get_or_new_present.
  - right; right. split; [done|]. unfold get_or_new, TxGet. cbn. rewrite Hn. cbn.
    by rewrite decide_False.
  - right; left. split; [done|]. by apply get_or_new_absent.
Qed.

(** The three upserting setters write a node that carries the identifier. *)
Lemma upsert_nodes_step (id : string) (f : Node -> Node) (db : Store) :
  (forall n, Node_ID (f n) = Node_ID n) ->
  node_keys_ok db ->
  nodes_step db (update (fun tx => dev ← get_or_new tx id;
                                   TxUpsert tx (GoString id) (f dev)) db).1.
Proof.
  intros Hf Hok. unfold update.
  destruct (get_or_new_cases db id) as [(dev & Hn & ->)|[[Hn ->]|[Hn ->]]].
  - unfold TxUpsert. cbn. rewrite Hn. cbn. right; right. exists (f dev).
    rewrite Hf. pose proof (Hok _ _ Hn) as Hk. by simplify_eq.
  - unfold TxUpsert. cbn. rewrite Hn. cbn. right; right.
    exists (f (Node_with_ID id Node_zero)). by rewrite Hf.
  - by left.
Qed.

Lemma call_nodes_step (op : DbOp) (db : Store) :
  node_keys_ok db -> nodes_step db (call op db).
Proof.
  intros Hok. destruct op; cbn [call].
  - (* NodeDelete *)
    destruct (nodes db !! KString id) as [[dev|]|] eqn:Hn.
    + destruct (Node_Rules dev) as [|r rs] eqn:Hr.
      * rewrite (NodeDelete_no_rules id db dev Hn Hr). right; left. by eexists.
      * rewrite (NodeDelete_with_rules id db dev Hn) by (by rewrite Hr). by left.
    + left. unfold NodeDelete, update, TxGet. cbn. by rewrite Hn.
    + rewrite (NodeDelete_missing id db Hn). by left.
  - (* NodeUpdateGroups *)
    unfold NodeUpdateGroups, update, TxGet, TxUpdate. cbn.
    destruct (nodes db !! KString id) as [[dev|]|] eqn:Hn; cbn; try by left.
    right; right. exists (Node_with_Groups gs dev). cbn.
    by rewrite <- (Hok _ _ Hn).
  - (* NodePoint *)
    pose proof (NodePoint_store id point (mkDb db None)) as E. cbn [store] in E.
    pose proof (upsert_nodes_step id
                  (fun dev => SetState SysStateOnline (ProcessPoint point dev)) db) as H.
    cbn beta in H. rewrite <- E in H. cbn [fst] in H. apply H; [|done].
    intros n. cbn. apply ProcessPoint_ID.
  - by apply (upsert_nodes_step id (SetState state) db).
  - by apply (upsert_nodes_step id (SetSwUpdateState state) db).
  - (* NodeSetCmd *)
    destruct (NodeSetCmd_spec cmd db) as [(dev & Hn & _ & ->)|(e & -> & _)];
      [|by left].
    right; right. exists (SetCmdPending true dev). cbn.
    by rewrite <- (Hok _ _ Hn).
  - (* NodeDeleteCmd *)
    destruct (NodeDeleteCmd_spec id db) as [(c & dev & _ & Hn & ->)|(e & ->)];
      [|by left].
    right; right. exists (SetCmdPending false dev). cbn.
    by rewrite <- (Hok _ _ Hn).
  - (* NodeGetCmd *)
    destruct (cmds db !! KString id) as [[c|]|] eqn:Hc.
    + destruct (decide (NodeCmd_Cmd c = "")) as [He|He].
      { rewrite (NodeGetCmd_empty _ _ _ Hc He). by left. }
      destruct (nodes db !! KString id) as [[dev|]|] eqn:Hn.
      * rewrite (NodeGetCmd_taken _ _ _ _ Hc He Hn). right; right.
        exists (SetCmdPending false dev). cbn.
        by rewrite <- (Hok _ _ Hn).
      * destruct (NodeGetCmd_node_unreadable id db c Hc He) as [e ->];
          [congruence|by left].
      * destruct (NodeGetCmd_node_unreadable id db c Hc He) as [e ->];
          [congruence|by left].
    + rewrite (NodeGetCmd_corrupt _ _ Hc). by left.
    + rewrite (NodeGetCmd_absent _ _ Hc). by left.
  - unfold initialize. same_nodes.
  - unfold UserInsert. same_nodes.
  - unfold UserUpdate. same_nodes.
  - unfold UserDelete. same_nodes.
  - unfold GroupInsert. same_nodes.
  - unfold GroupUpdate. same_nodes.
  - unfold GroupDelete. same_nodes.
  - (* RuleInsert *)
    unfold RuleInsert, update, TxInsert, TxGet, TxUpdate. cbn.
    destruct (rules db !! KUUID drawn) as [x|]; cbn; [by left|].
    destruct (nodes db !! KString (RuleConfig_NodeID (Rule_Config rule)))
      as [[device|]|] eqn:Hn; cbn; try by left.
    pose proof (Hok _ _ Hn) as Hk. simplify_eq. rewrite <- Hk, Hn. cbn.
    right; right. exists (Node_with_Rules (Node_Rules device ++ [drawn]) device).
    cbn. by rewrite Hk.
  - unfold RuleUpdateConfig. same_nodes.
  - unfold RuleUpdateState. same_nodes.
  - unfold RuleDelete. same_nodes.
Qed.

(** X10. Every node record is stored under its own ID field: this holds in
    the empty store and is kept by every function of db.go that writes to
    the store, in any order and whether the calls succeed or fail. *)
Theorem node_ids_are_keys (ops : list DbOp) (db : Store) :
  node_keys_ok db -> node_keys_ok (calls ops db).
Proof.
  revert db. induction ops as [|op ops IH]; intros db Hok; [done|].
  cbn. apply IH. apply (nodes_step_keys_ok db); [|done]. by apply call_nodes_step.
Qed.

Lemma node_ids_are_keys_witness :
  node_keys_ok
    (calls [CallNodePoint "n1" (demo_point 5 100); CallRuleInsert 7 demo_rule;
            CallNodeSetCmd demo_cmd; CallNodeSetState "n2" SysStateOffline;
            CallNodeDelete "n1"; CallNodeDelete "n2"] empty_store).
Proof.
  apply (node_ids_are_keys _ empty_store). intros k n Hk. cbn in Hk.
  by rewrite lookup_empty in Hk.
Defined.

(** ** Users and groups *)



Lemma is_member_true (id : UUID) (g : Group) :
  existsb (fun ur => bool_decide (UserRoles_UserID ur = id)) (Group_Users g) = true
  <-> exists ur, ur ∈ Group_Users g /\ UserRoles_UserID ur = id.
Proof.
  rewrite existsb_exists. split.
  - intros (ur & Hin & Heq). exists ur. rewrite list_elem_of_In.
    by apply bool_decide_eq_true in Heq.
  - intros (ur & Hin & Heq). exists ur. rewrite <- list_elem_of_In.
    split; [done|]. by apply bool_decide_eq_true.
Qed.

(** X11. isRoot walks the group records in the order of their keys and
    stops at the first one whose ID field is all-zero, under whatever key it
    is stored: a user is root exactly when that group lists the user, and
    the records behind it are not read (they may even be undecodable).  If
    no group has that ID field the answer is false with NotFound.  If an
    undecodable record comes before every group with the all-zero ID field,
    the answer is false with the decode error. *)
Theorem isRoot_by_ID_field (id : UUID) (db : Store) :
  (forall k0 g0,
      groups db !! k0 = Some (Good g0) ->
      Group_ID g0 = zero ->
      (forall k raw, groups db !! k = Some raw -> k <> k0 -> key_le k k0 = true ->
         exists g, raw = Good g /\ Group_ID g <> zero) ->
      exists b,
        UserIsRoot id db = (b, None)
        /\ (b = true <-> exists ur, ur ∈ Group_Users g0 /\ UserRoles_UserID ur = id))
  /\ (healthy (groups db) ->
      (forall k g, groups db !! k = Some (Good g) -> Group_ID g <> zero) ->
      UserIsRoot id db = (false, Some ErrNotFound))
  /\ (forall k0,
      groups db !! k0 = Some Corrupt ->
      (forall k raw, groups db !! k = Some raw -> k <> k0 -> key_le k k0 = true ->
         exists g, raw = Good g /\ Group_ID g <> zero) ->
      UserIsRoot id db = (false, Some ErrGobDecode)).
Proof.
  assert (Hpass : forall raw : stored Group,
            (exists g, raw = Good g /\ Group_ID g <> zero) ->
            passed (fun g => bool_decide (Group_ID g = zero)) raw).
  { intros raw (g & -> & Hg). exists g. split; [done|].
    by apply bool_decide_eq_false. }
  split; [|split].
  - intros k0 g0 Hk0 Hz Hbefore.
    change (bucket_of (V:=Group) db !! k0 = Some (Good g0)) in Hk0.
    unfold UserIsRoot, view.
    rewrite (TxFindOne_first (V:=Group) db _ k0 g0 Hk0).
    + eexists. split; [done|]. apply is_member_true.
    + by apply bool_decide_eq_true.
    + intros k raw Hk Hne Hle. apply Hpass. by apply (Hbefore k).
  - intros Hh Hnone. unfold UserIsRoot, view.
    change (healthy (bucket_of (V:=Group) db)) in Hh.
    rewrite (TxFindOne_none (V:=Group) db); [done|].
    apply healthy_passed; [done|].
    intros k g Hk. apply bool_decide_eq_false. by apply (Hnone k).
  - intros k0 Hk0 Hbefore. unfold UserIsRoot, view.
    change (bucket_of (V:=Group) db !! k0 = Some Corrupt) in Hk0.
    rewrite (TxFindOne_corrupt (V:=Group) db _ k0 Hk0); [done|].
    intros k raw Hk Hne Hle. apply Hpass. by apply (Hbefore k).
Qed.

Lemma stray_root_store_groups :
  groups stray_root_store = {[ KUUID 42 := Good (Group_with_Parent zero ops_group) ]}.
Proof. reflexivity. Qed.

Lemma singleton_healthy {V} (k : Key) (v : V) :
  healthy ({[ k := Good v ]} : gmap Key (stored V)).
Proof. intros k' Hk. apply lookup_singleton_Some in Hk as [_ Hk]. discriminate. Qed.

(** Nothing precedes the all-zero key. *)
Lemma nothing_before_zero {V} (P : stored V -> Prop) (m : gmap Key (stored V)) :
  forall k raw, m !! k = Some raw -> k <> KUUID zero -> key_le k (KUUID zero) = true ->
                P raw.
Proof. intros k raw _ Hne Hle. by apply key_le_zero_inv in Hle. Qed.

Lemma isRoot_by_ID_field_witness :
  (exists b,
      UserIsRoot 5 stray_root_store = (b, None)
      /\ (b = true <-> exists ur, ur ∈ Group_Users (Group_with_Parent zero ops_group)
                                  /\ UserRoles_UserID ur = 5%N))
  /\ (exists b,
        UserIsRoot zero root_corrupt_store = (b, None)
        /\ (b = true <-> exists ur, ur ∈ Group_Users root_group
                                    /\ UserRoles_UserID ur = zero))
  /\ UserIsRoot 5 empty_store = (false, Some ErrNotFound)
  /\ UserIsRoot 5 corrupt_stray_store = (false, Some ErrGobDecode).
Proof.
  split; [|split; [|split]].
  - apply (proj1 (isRoot_by_ID_field 5 stray_root_store) (KUUID 42)
             (Group_with_Parent zero ops_group)).
    + reflexivity.
    + reflexivity.
    + intros k raw Hk Hne _. rewrite stray_root_store_groups in Hk.
      by apply lookup_singleton_Some in Hk as [? _].
  - apply (proj1 (isRoot_by_ID_field zero root_corrupt_store) (KUUID zero) root_group).
    + reflexivity.
    + reflexivity.
    + apply nothing_before_zero.
  - apply (proj1 (proj2 (isRoot_by_ID_field 5 empty_store))).
    + intros k Hk. cbn in Hk. by rewrite lookup_empty in Hk.
    + intros k g Hk. cbn in Hk. by rewrite lookup_empty in Hk.
  - apply (proj2 (proj2 (isRoot_by_ID_field 5 corrupt_stray_store)) (KUUID 1)).
    + reflexivity.
    + intros k raw Hk Hne Hle. cbn in Hk.
      apply lookup_insert_Some in Hk as [[? _]|[_ Hk]]; [done|].
      apply lookup_singleton_Some in Hk as [<- _]. discriminate.
Defined.

Example inserted_group_with_zero_ID_grants_root :
  UserIsRoot 5 stray_root_store = (true, None)
  /\ UserIsRoot zero root_corrupt_store = (true, None).
Proof. split; reflexivity. Qed.

(** X12. initialize does nothing when a group named "root" is stored.
    Otherwise, with nothing stored under the all-zero key for users and
    groups, it stores the admin user and the root group under that key, a
    second call changes nothing, and from then on isRoot is true for the
    admin and false for every other identifier, whatever other groups are
    stored: the all-zero key is the first of the bucket.  If the all-zero
    user key is taken, it fails with KeyExists; if only the all-zero group
    key is taken, it fails with KeyExists and the admin user inserted just
    before is not kept. *)
Theorem initialize_idempotent (db : Store) :
  let admin := mkUser zero "admin" "user" "admin@admin.com" "admin" in
  let db' := mkStore (nodes db) (cmds db) (<[KUUID zero := Good admin]> (users db))
                     (<[KUUID zero := Good root_group]> (groups db)) (rules db) in
  healthy (groups db) ->
  (forall k g, groups db !! k = Some (Good g) -> Group_Name g = "root" ->
     initialize db = (db, None))
  /\ ((forall k g, groups db !! k = Some (Good g) -> Group_Name g <> "root") ->
      (users db !! KUUID zero = None ->
       groups db !! KUUID zero = None ->
       initialize db = (db', None)
       /\ initialize db' = (db', None)
       /\ UserIsRoot zero db' = (true, None)
       /\ forall u, u <> zero -> UserIsRoot u db' = (false, None))
      /\ (is_Some (users db !! KUUID zero) ->
          initialize db = (db, Some ErrKeyExists))
      /\ (users db !! KUUID zero = None ->
          is_Some (groups db !! KUUID zero) ->
          initialize db = (db, Some ErrKeyExists))).
Proof.
  intros admin db' Hh.
  change (healthy (bucket_of (V:=Group) db)) in Hh.
  split.
  - intros k g Hk Hname.
    change (bucket_of (V:=Group) db !! k = Some (Good g)) in Hk.
    destruct (TxFindOne_healthy (V:=Group) db
                (fun g => bool_decide (Group_Name g = "root")) Hh)
      as (k1 & g1 & Hf & _).
    { exists k, g. split; [done|]. by apply bool_decide_eq_true. }
    unfold initialize, view. by rewrite Hf.
  - intros Hnoroot.
    assert (Hf : TxFindOne (V:=Group) db
                   (fun g => bool_decide (Group_Name g = "root")) = Err ErrNotFound).
    { apply TxFindOne_none. apply healthy_passed; [done|]. intros k g Hk.
      apply bool_decide_eq_false. by apply (Hnoroot k). }
    split; [|split].
    + intros Hu Hg.
      assert (E : initialize db = (db', None)).
      { unfold initialize, view. rewrite Hf. rewrite decide_True by done.
        unfold update, TxInsert. cbn. rewrite Hu. cbn. by rewrite Hg. }
      split; [done|].
      assert (Hfirst : forall query : Group -> bool,
                query root_group = true ->
                TxFindOne (V:=Group) db' query = Ok root_group).
      { intros query Hq. apply (TxFindOne_first (V:=Group) db' query (KUUID zero)).
        - apply lookup_insert_eq.
        - done.
        - apply nothing_before_zero. }
      split.
      * unfold initialize, view. by rewrite Hfirst.
      * assert (Hroot : forall u,
                  UserIsRoot u db'
                  = (existsb (fun ur => bool_decide (UserRoles_UserID ur = u))
                             (Group_Users root_group), None)).
        { intros u. unfold UserIsRoot, view. by rewrite Hfirst. }
        split; [by rewrite Hroot|].
        intros u Hu'. rewrite Hroot. cbn.
        by rewrite bool_decide_eq_false_2.
    + intros [x Hx]. unfold initialize, view. rewrite Hf.
      rewrite decide_True by done. unfold update, TxInsert. cbn. by rewrite Hx.
    + intros Hu [x Hx]. unfold initialize, view. rewrite Hf.
      rewrite decide_True by done. unfold update, TxInsert. cbn.
      rewrite Hu. cbn. by rewrite Hx.
Qed.

Lemma empty_healthy {V} : healthy (∅ : gmap Key (stored V)).
Proof. intros k Hk. by rewrite lookup_empty in Hk. Qed.

Lemma sound_store_groups_healthy : healthy (groups sound_store).
Proof. apply healthy_insert, singleton_healthy. Qed.

Lemma no_groups (P : Key -> Group -> Prop) :
  forall k g, (∅ : gmap Key (stored Group)) !! k = Some (Good g) -> P k g.
Proof. intros k g Hk. by rewrite lookup_empty in Hk. Qed.

Lemma initialize_idempotent_witness :
  let admin := mkUser zero "admin" "user" "admin@admin.com" "admin" in
  let db' := mkStore ∅ ∅ (<[KUUID zero := Good admin]> ∅)
                     (<[KUUID zero := Good root_group]> (groups stray_root_store)) ∅ in
  initialize sound_store = (sound_store, None)
  /\ (initialize stray_root_store = (db', None)
      /\ initialize db' = (db', None)
      /\ UserIsRoot zero db' = (true, None)
      /\ forall u, u <> zero -> UserIsRoot u db' = (false, None))
  /\ initialize zero_user_store = (zero_user_store, Some ErrKeyExists)
  /\ initialize zero_group_store = (zero_group_store, Some ErrKeyExists).
Proof.
  intros admin db'. split; [|split; [|split]].
  - apply (proj1 (initialize_idempotent sound_store sound_store_groups_healthy)
             (KUUID zero) root_group); reflexivity.
  - refine (proj1 (proj2 (initialize_idempotent stray_root_store _) _) _ _).
    + rewrite stray_root_store_groups. apply singleton_healthy.
    + intros k g Hk. rewrite stray_root_store_groups in Hk.
      apply lookup_singleton_Some in Hk as [_ Hk]. by simplify_eq.
    + reflexivity.
    + reflexivity.
  - apply (proj1 (proj2 (proj2 (initialize_idempotent zero_user_store empty_healthy)
                            (no_groups _)))).
    eexists. reflexivity.
  - refine (proj2 (proj2 (proj2 (initialize_idempotent zero_group_store
                                   (singleton_healthy (KUUID zero) ops_group)) _)) _ _).
    + intros k g Hk. change (groups zero_group_store)
        with ({[ KUUID zero := Good ops_group ]} : gmap Key (stored Group)) in Hk.
      apply lookup_singleton_Some in Hk as [_ Hk]. by simplify_eq.
    + reflexivity.
    + eexists. reflexivity.
Defined.

(** The store that a caller reaches by inserting a group with its ID field
    left at zero and then initializing: isRoot answers from the root group,
    which sits under the first key, not from the inserted group. *)
Example initialize_after_stray_group :
  let db := (initialize stray_root_store).1 in
  UserIsRoot zero db = (true, None) /\ UserIsRoot 5 db = (false, None).
Proof. split; reflexivity. Qed.

(** X13. authenticate walks the user records in the order of their keys and
    returns the first one whose email and password are both equal to the
    ones given, without reading the records behind it; on a bucket whose
    records all decode it finds such a user whenever there is one, and
    returns no user and no error when there is none.  An undecodable
    record that comes before every such user gives the decode error.  A
    user it returns is always a stored user with that email and that
    password, and comes with no error. *)
Theorem authenticate_exact_match (email password : string) (db : Store) :
  (forall k0 u0,
      users db !! k0 = Some (Good u0) ->
      User_Email u0 = email -> User_Pass u0 = password ->
      (forall k raw, users db !! k = Some raw -> k <> k0 -> key_le k k0 = true ->
         exists u, raw = Good u /\ ~ (User_Email u = email /\ User_Pass u = password)) ->
      UserCheck email password db = (Some u0, None))
  /\ (healthy (users db) ->
      (exists k u, users db !! k = Some (Good u)
                   /\ User_Email u = email /\ User_Pass u = password) ->
      exists k u,
        UserCheck email password db = (Some u, None)
        /\ users db !! k = Some (Good u)
        /\ User_Email u = email /\ User_Pass u = password)
  /\ (healthy (users db) ->
      (forall k u, users db !! k = Some (Good u) ->
                   ~ (User_Email u = email /\ User_Pass u = password)) ->
      UserCheck email password db = (None, None))
  /\ (forall k0,
      users db !! k0 = Some Corrupt ->
      (forall k raw, users db !! k = Some raw -> k <> k0 -> key_le k k0 = true ->
         exists u, raw = Good u /\ ~ (User_Email u = email /\ User_Pass u = password)) ->
      UserCheck email password db = (None, Some ErrGobDecode))
  /\ (forall u e,
      UserCheck email password db = (Some u, e) ->
      e = None
      /\ (exists k, users db !! k = Some (Good u))
      /\ User_Email u = email /\ User_Pass u = password).
Proof.
  set (query := fun u : User => bool_decide (User_Email u = email)
                                && bool_decide (User_Pass u = password)).
  assert (Hq : forall u, query u = true
                         <-> User_Email u = email /\ User_Pass u = password).
  { intros u. unfold query. rewrite andb_true_iff, !bool_decide_eq_true. done. }
  assert (Hpass : forall raw : stored User,
            (exists u, raw = Good u
                       /\ ~ (User_Email u = email /\ User_Pass u = password)) ->
            passed query raw).
  { intros raw (u & -> & Hu). exists u. split; [done|].
    destruct (query u) eqn:E; [|done]. by apply Hq in E. }
  assert (Hcheck : UserCheck email password db
                   = match TxFindOne (V:=User) db query with
                     | Err e => if decide (e <> ErrNotFound) then (None, Some e)
                                else (None, None)
                     | Ok u => (Some u, None)
                     end) by reflexivity.
  rewrite Hcheck. clear Hcheck.
  split; [|split; [|split; [|split]]].
  - intros k0 u0 Hk0 He Hp Hbefore.
    change (bucket_of (V:=User) db !! k0 = Some (Good u0)) in Hk0.
    rewrite (TxFindOne_first (V:=User) db query k0 u0 Hk0); [done|by apply Hq|].
    intros k raw Hk Hne Hle. apply Hpass. by apply (Hbefore k).
  - intros Hh (k0 & u0 & Hk0 & He & Hp).
    change (healthy (bucket_of (V:=User) db)) in Hh.
    destruct (TxFindOne_healthy (V:=User) db query Hh) as (k & u & Hf & Hk & Hu).
    { exists k0, u0. split; [done|]. by apply Hq. }
    apply Hq in Hu as [Hu1 Hu2]. exists k, u. by rewrite Hf.
  - intros Hh Hnone. change (healthy (bucket_of (V:=User) db)) in Hh.
    rewrite (TxFindOne_none (V:=User) db query).
    + by rewrite decide_False by (intros Hc; by apply Hc).
    + apply healthy_passed; [done|]. intros k u Hk.
      destruct (query u) eqn:E; [|done]. apply Hq in E. by destruct (Hnone k u Hk).
  - intros k0 Hk0 Hbefore.
    change (bucket_of (V:=User) db !! k0 = Some Corrupt) in Hk0.
    rewrite (TxFindOne_corrupt (V:=User) db query k0 Hk0).
    + by rewrite decide_True.
    + intros k raw Hk Hne Hle. apply Hpass. by apply (Hbefore k).
  - intros u e. destruct (TxFindOne (V:=User) db query) as [u1|e1] eqn:Hf.
    + intros [= <- <-]. split; [done|].
      apply (TxFindOne_inv (V:=User)) in Hf as [Hu Hk]. split; [done|].
      by apply Hq.
    + case_decide; discriminate.
Qed.

Lemma initialized_store_users :
  users initialized_store
  = {[ KUUID zero := Good (mkUser zero "admin" "user" "admin@admin.com" "admin") ]}.
Proof. reflexivity. Qed.

Lemma authenticate_exact_match_witness :
  UserCheck "admin@admin.com" "admin" admin_corrupt_store
  = (Some (mkUser zero "admin" "user" "admin@admin.com" "admin"), None)
  /\ (exists k u,
        UserCheck "admin@admin.com" "admin" initialized_store = (Some u, None)
        /\ users initialized_store !! k = Some (Good u)
        /\ User_Email u = "admin@admin.com" /\ User_Pass u = "admin")
  /\ UserCheck "admin@admin.com" "Admin" initialized_store = (None, None)
  /\ UserCheck "admin@admin.com" "Admin" admin_corrupt_store = (None, Some ErrGobDecode)
  /\ (forall u e,
        UserCheck "admin@admin.com" "admin" initialized_store = (Some u, e) ->
        e = None
        /\ (exists k, users initialized_store !! k = Some (Good u))
        /\ User_Email u = "admin@admin.com" /\ User_Pass u = "admin").
Proof.
  split; [|split; [|split; [|split]]].
  - apply (proj1 (authenticate_exact_match "admin@admin.com" "admin" admin_corrupt_store)
             (KUUID zero)).
    + reflexivity.
    + reflexivity.
    + reflexivity.
    + apply nothing_before_zero.
  - apply (proj1 (proj2 (authenticate_exact_match "admin@admin.com" "admin"
                           initialized_store))).
    + rewrite initialized_store_users. apply singleton_healthy.
    + exists (KUUID zero). eexists. split; [reflexivity|]. split; reflexivity.
  - apply (proj1 (proj2 (proj2 (authenticate_exact_match "admin@admin.com" "Admin"
                                  initialized_store)))).
    + rewrite initialized_store_users. apply singleton_healthy.
    + intros k u Hk [_ Hp]. rewrite initialized_store_users in Hk.
      apply lookup_singleton_Some in Hk as [_ Hk]. by simplify_eq.
  - apply (proj1 (proj2 (proj2 (proj2 (authenticate_exact_match "admin@admin.com" "Admin"
                                         admin_corrupt_store)))) (KUUID 1)).
    + reflexivity.
    + intros k raw Hk Hne Hle. cbn in Hk.
      apply lookup_insert_Some in Hk as [[? _]|[_ Hk]]; [done|].
      rewrite initialized_store_users in Hk.
      apply lookup_singleton_Some in Hk as [_ <-].
      eexists. split; [reflexivity|]. intros [_ Hp]. discriminate.
  - apply (proj2 (proj2 (proj2 (proj2 (authenticate_exact_match "admin@admin.com" "admin"
                                         initialized_store))))).
Defined.

Lemma UsersForGroup_loop_ok (db : Store) (roles : list UserRoles) (us ret : list User) :
  Forall2 (fun role u => users db !! KUUID (UserRoles_UserID role) = Some (Good u))
          roles us ->
  forall rest,
    UsersForGroup_loop db (roles ++ rest) ret = UsersForGroup_loop db rest (ret ++ us).
Proof.
  intros Hall. revert ret.
  induction Hall as [|role u roles us Hu Hall IH]; intros ret rest; cbn.
  - by rewrite app_nil_r.
  - unfold TxGet. cbn. rewrite Hu. cbn. fold (@TxGet User _).
    rewrite IH. by rewrite <- app_assoc.
Qed.

(** X14. usersForGroup reads the members of the group in the order of its
    member list, each by the storage key equal to the member's UserID (a
    user listed twice is returned twice).  If the group is missing it fails
    with NotFound.  If a member has no User record it fails with NotFound
    and returns, together with the error, the users of the members before
    that one. *)
Theorem usersForGroup_members (id : UUID) (db : Store) :
  (groups db !! KUUID id = None -> UsersForGroup id db = ([], Some ErrNotFound))
  /\ (forall group us,
        groups db !! KUUID id = Some (Good group) ->
        Forall2 (fun role u => users db !! KUUID (UserRoles_UserID role) = Some (Good u))
                (Group_Users group) us ->
        UsersForGroup id db = (us, None))
  /\ (forall group before missing after us,
        groups db !! KUUID id = Some (Good group) ->
        Group_Users group = before ++ missing :: after ->
        Forall2 (fun role u => users db !! KUUID (UserRoles_UserID role) = Some (Good u))
                before us ->
        users db !! KUUID (UserRoles_UserID missing) = None ->
        UsersForGroup id db = (us, Some ErrNotFound)).
Proof.
  split; [|split].
  - intros Hg. unfold UsersForGroup, TxGet. cbn. by rewrite Hg.
  - intros group us Hg Hall. unfold UsersForGroup, TxGet at 1. cbn. rewrite Hg. cbn.
    pose proof (UsersForGroup_loop_ok db _ us [] Hall []) as E.
    rewrite app_nil_r in E. by rewrite E.
  - intros group before missing after us Hg Hsplit Hall Hmiss.
    unfold UsersForGroup, TxGet at 1. cbn. rewrite Hg. cbn. rewrite Hsplit.
    rewrite (UsersForGroup_loop_ok db _ us [] Hall). cbn.
    unfold TxGet. cbn. by rewrite Hmiss.
Qed.

Lemma usersForGroup_members_witness :
  UsersForGroup 22 crew_store = ([], Some ErrNotFound)
  /\ UsersForGroup zero initialized_store
     = ([mkUser zero "admin" "user" "admin@admin.com" "admin"], None)
  /\ UsersForGroup 21 crew_store
     = ([tie_user 5 "eve"; tie_user 6 "fay"], Some ErrNotFound).
Proof.
  split; [|split].
  - apply (proj1 (usersForGroup_members 22 crew_store)). reflexivity.
  - apply (proj1 (proj2 (usersForGroup_members zero initialized_store)) root_group).
    + reflexivity.
    + repeat constructor.
  - apply (proj2 (proj2 (usersForGroup_members 21 crew_store))
             (mkGroup 21 "crew" zero
                [mkUserRoles 5 ["user"]; mkUserRoles 6 ["user"];
                 mkUserRoles 8 ["user"]; mkUserRoles 5 ["admin"]])
             [mkUserRoles 5 ["user"]; mkUserRoles 6 ["user"]]
             (mkUserRoles 8 ["user"]) [mkUserRoles 5 ["admin"]]).
    + reflexivity.
    + reflexivity.
    + repeat constructor.
    + reflexivity.
Defined.

(** X15. On a user bucket whose records all decode, updateUser always
    succeeds and leaves the user stored under the key equal to its ID field,
    touching no other bucket.  If a record was stored under that key, no
    other user record changes.  If none was, every record whose ID field
    equals the user's is removed, under whatever key it was stored, and the
    other records are kept. *)
Theorem updateUser_by_ID_field (user : User) (db : Store) :
  healthy (users db) ->
  let key := KUUID (User_ID user) in
  exists db',
    UserUpdate user db = (db', None)
    /\ nodes db' = nodes db /\ cmds db' = cmds db
    /\ groups db' = groups db /\ rules db' = rules db
    /\ users db' !! key = Some (Good user)
    /\ (is_Some (users db !! key) ->
        forall k, k <> key -> users db' !! k = users db !! k)
    /\ (users db !! key = None ->
        forall k, k <> key ->
          users db' !! k
          = match users db !! k with
            | Some (Good v) =>
                if bool_decide (User_ID v = User_ID user) then None else Some (Good v)
            | other => other
            end).
Proof.
  intros Hh key.
  destruct (users db !! key) as [[old|]|] eqn:Hkey.
  - eexists. split.
    { unfold UserUpdate, update, TxUpdate. cbn. fold key. rewrite Hkey. cbn.
      reflexivity. }
    cbn. repeat split; try done.
    + apply lookup_insert_eq.
    + intros _ k Hk. by rewrite lookup_insert_ne.
  - by destruct (Hh key).
  - change (healthy (bucket_of (V:=User) db)) in Hh.
    destruct (scan_healthy (V:=User) db Hh) as [rows Hrows].
    set (q := fun u : User => bool_decide (User_ID u = User_ID user)).
    set (swept := foldr (fun kv b => if q kv.2 then delete kv.1 b else b)
                        (users db) rows).
    assert (Hswept : forall k,
              swept !! k
              = match users db !! k with
                | Some (Good v) => if q v then None else Some (Good v)
                | other => other
                end).
    { intros k. unfold swept.
      destruct (users db !! k) as [[v|]|] eqn:Hk.
      - destruct (q v) eqn:Hq.
        + apply (foldr_delete_matching_hit q rows _ k v); [|done].
          by apply (scan_elem_of (V:=User) db rows).
        + rewrite foldr_delete_matching_miss; [done|].
          intros v' Hin. apply (scan_elem_of (V:=User) db rows) in Hin; [|done].
          cbn in Hin. by simplify_eq.
      - by destruct (Hh k).
      - rewrite foldr_delete_matching_miss; [done|].
        intros v' Hin. apply (scan_elem_of (V:=User) db rows) in Hin; [|done].
        cbn in Hin. congruence. }
    assert (E : UserUpdate user db
                = (mkStore (nodes db) (cmds db) (<[key := Good user]> swept)
                           (groups db) (rules db), None)).
    { unfold UserUpdate, update, TxUpdate, TxDeleteMatching, TxUpsert. cbn.
      fold key. rewrite Hkey. cbn. rewrite Hrows. cbn. fold q. fold swept.
      rewrite Hswept, Hkey. done. }
    eexists. split; [exact E|]. cbn. repeat split; try done.
    + apply lookup_insert_eq.
    + intros _ k Hk. rewrite lookup_insert_ne by done. apply Hswept.
Qed.

Lemma updateUser_by_ID_field_witness :
  let db := (UserInsert 9 demo_user empty_store).1 in
  let user := mkUser zero "Alice" "Roe" "alice@example.com" "secret" in
  exists db',
    UserUpdate user db = (db', None)
    /\ nodes db' = nodes db /\ cmds db' = cmds db
    /\ groups db' = groups db /\ rules db' = rules db
    /\ users db' !! KUUID zero = Some (Good user)
    /\ (is_Some (users db !! KUUID zero) ->
        forall k, k <> KUUID zero -> users db' !! k = users db !! k)
    /\ (users db !! KUUID zero = None ->
        forall k, k <> KUUID zero ->
          users db' !! k
          = match users db !! k with
            | Some (Good v) =>
                if bool_decide (User_ID v = zero) then None else Some (Good v)
            | other => other
            end).
Proof.
  intros db user.
  apply (updateUser_by_ID_field user db).
  change (users db) with ({[ KUUID 9 := Good demo_user ]} : gmap Key (stored User)).
  apply singleton_healthy.
Defined.

Lemma store_eta (db : Store) :
  mkStore (nodes db) (cmds db) (users db) (groups db) (rules db) = db.
Proof. by destruct db. Qed.

(** X16. insertUser followed by deleteUser with the returned identifier
    gives back the store as it was.  deleteUser with the ID field of the
    inserted user instead finds nothing (when the field is not the drawn
    identifier and no record is stored under it): it fails with NotFound and
    the inserted record stays. *)
Theorem insertUser_deleteUser (drawn : UUID) (user : User) (db : Store) :
  users db !! KUUID drawn = None ->
  UserDelete drawn (UserInsert drawn user db).1 = (db, None)
  /\ (User_ID user <> drawn ->
      users db !! KUUID (User_ID user) = None ->
      UserDelete (User_ID user) (UserInsert drawn user db).1
      = ((UserInsert drawn user db).1, Some ErrNotFound)
      /\ users (UserInsert drawn user db).1 !! KUUID drawn = Some (Good user)).
Proof.
  intros Hfresh.
  assert (E : UserInsert drawn user db
              = (mkStore (nodes db) (cmds db) (<[KUUID drawn := Good user]> (users db))
                         (groups db) (rules db), (UUID_String drawn, None))).
  { unfold UserInsert, update, TxInsert. cbn. by rewrite Hfresh. }
  rewrite E. cbn [fst]. split.
  - unfold UserDelete, update, TxDelete. cbn. rewrite lookup_insert_eq. cbn.
    rewrite delete_insert_eq. rewrite delete_id by done. by rewrite store_eta.
  - intros Hne Hnone. split; [|apply lookup_insert_eq].
    unfold UserDelete, update, TxDelete. cbn.
    rewrite lookup_insert_ne by congruence. by rewrite Hnone.
Qed.

Lemma insertUser_deleteUser_witness :
  UserDelete 9 (UserInsert 9 demo_user empty_store).1 = (empty_store, None)
  /\ (UserDelete (User_ID demo_user) (UserInsert 9 demo_user empty_store).1
      = ((UserInsert 9 demo_user empty_store).1, Some ErrNotFound)
      /\ users (UserInsert 9 demo_user empty_store).1 !! KUUID 9 = Some (Good demo_user)).
Proof.
  destruct (insertUser_deleteUser 9 demo_user empty_store eq_refl) as [H1 H2].
  split; [exact H1|]. apply H2; [discriminate|reflexivity].
Defined.

(** ** Dump *)

Lemma find_all {V} {SV : Storer V} (db : Store) :
  healthy (bucket_of (V:=V) db) ->
  exists found,
    TxFind (V:=V) db (fun _ => true) = Ok found
    /\ forall v, v ∈ found <-> holds (bucket_of (V:=V) db) v.
Proof.
  intros Hh. destruct (TxFind_healthy db (fun _ => true) Hh) as [found Hf].
  exists found. split; [done|]. intros v.
  rewrite (TxFind_elem_of db _ found v Hf). unfold holds.
  split; [by intros [_ ?]|by intros ?; split].
Qed.

(** X17. On a store whose records all decode, the dump hands the encoder one
    document whose five sequences hold exactly the stored nodes, users,
    groups, rules and commands.  When a record does not decode, nothing is
    written and the error is returned: the decode error for nodes, and for
    groups (nodes and users being sound) the decode error wrapped as
    "problem finding groups". *)
Theorem dumpDb_complete {W : Type} (ToLower : string -> string)
    (sort_Sort : forall S, Interface S -> S -> S)
    (Encode : dbDump -> W -> W * error) (db : Store) (out : W) :
  sorts_users ToLower sort_Sort ->
  (healthy (nodes db) -> healthy (users db) -> healthy (groups db) ->
   healthy (rules db) -> healthy (cmds db) ->
   exists d,
     DumpDb ToLower sort_Sort Encode db out = Encode d out
     /\ (forall n, n ∈ dump_Nodes d <-> holds (nodes db) n)
     /\ (forall u, u ∈ dump_Users d <-> holds (users db) u)
     /\ (forall g, g ∈ dump_Groups d <-> holds (groups db) g)
     /\ (forall r, r ∈ dump_Rules d <-> holds (rules db) r)
     /\ (forall c, c ∈ dump_NodeCmds d <-> holds (cmds db) c))
  /\ (forall k, nodes db !! k = Some Corrupt ->
      DumpDb ToLower sort_Sort Encode db out = (out, Some ErrGobDecode))
  /\ (forall k, healthy (nodes db) -> healthy (users db) ->
      groups db !! k = Some Corrupt ->
      DumpDb ToLower sort_Sort Encode db out
      = (out, Some (Errorf "problem finding groups" ErrGobDecode))).
Proof.
  intros Hsort. split; [|split].
  - intros Hn Hu Hg Hr Hc.
    destruct (find_all (SV:=Node_storer) db Hn) as (ns & En & Hns).
    destruct (find_all (SV:=User_storer) db Hu) as (us & Eu & Hus).
    destruct (find_all (SV:=Group_storer) db Hg) as (gs & Eg & Hgs).
    destruct (find_all (SV:=Rule_storer) db Hr) as (rs & Er & Hrs).
    destruct (find_all (SV:=NodeCmd_storer) db Hc) as (cs & Ec & Hcs).
    destruct (Hsort us) as [Hperm _].
    exists (mkDbDump ns (sort_Sort (list User) (users_Interface ToLower) us) gs rs cs).
    unfold DumpDb, Nodes_list, Nodes, Users, Groups, Rules, NodeCmds, view.
    rewrite En, Eu, Eg, Er, Ec. split; [done|]. cbn.
    repeat split; try apply Hns; try apply Hgs; try apply Hrs; try apply Hcs.
    + intros Hin. rewrite Hperm in Hin. by apply Hus.
    + intros Hin. rewrite Hperm. by apply Hus.
  - intros k Hk. change (bucket_of (V:=Node) db !! k = Some Corrupt) in Hk.
    unfold DumpDb, Nodes_list, Nodes, view.
    by rewrite (TxFind_corrupt (V:=Node) db _ k Hk).
  - intros k Hn Hu Hk.
    destruct (find_all (SV:=Node_storer) db Hn) as (ns & En & _).
    destruct (find_all (SV:=User_storer) db Hu) as (us & Eu & _).
    change (bucket_of (V:=Group) db !! k = Some Corrupt) in Hk.
    unfold DumpDb, Nodes_list, Nodes, Users, Groups, view.
    by rewrite En, Eu, (TxFind_corrupt (V:=Group) db _ k Hk).
Qed.

Lemma dumpDb_complete_witness :
  (exists d,
      DumpDb ascii_ToLower insertion_Sort append_dump sound_store [] = append_dump d []
      /\ (forall n, n ∈ dump_Nodes d <-> holds (nodes sound_store) n)
      /\ (forall u, u ∈ dump_Users d <-> holds (users sound_store) u)
      /\ (forall g, g ∈ dump_Groups d <-> holds (groups sound_store) g)
      /\ (forall r, r ∈ dump_Rules d <-> holds (rules sound_store) r)
      /\ (forall c, c ∈ dump_NodeCmds d <-> holds (cmds sound_store) c))
  /\ DumpDb ascii_ToLower insertion_Sort append_dump faulty_store []
     = ([], Some ErrGobDecode)
  /\ DumpDb ascii_ToLower insertion_Sort append_dump corrupt_group_store []
     = ([], Some (Errorf "problem finding groups" ErrGobDecode)).
Proof.
  pose proof (insertion_Sort_sorts_users ascii_ToLower) as Hsort.
  split; [|split].
  - apply (proj1 (dumpDb_complete ascii_ToLower insertion_Sort append_dump sound_store []
                    Hsort)).
    + apply singleton_healthy.
    + apply empty_healthy.
    + apply sound_store_groups_healthy.
    + apply empty_healthy.
    + apply empty_healthy.
  - apply (proj1 (proj2 (dumpDb_complete ascii_ToLower insertion_Sort append_dump
                           faulty_store [] Hsort)) (KString "n2")).
    reflexivity.
  - apply (proj2 (proj2 (dumpDb_complete ascii_ToLower insertion_Sort append_dump
                           corrupt_group_store [] Hsort)) (KUUID 1)).
    + apply empty_healthy.
    + apply empty_healthy.
    + reflexivity.
Defined.

(** ** The time-series sink of applyPoint *)

(** X18. The sink plays no part in what applyPoint stores or returns: the
    store and the error are the same with no sink, a reachable sink and an
    unreachable one.  A reachable sink receives the sample of the point
    before the transaction runs, so it also receives it when the
    transaction fails and stores nothing. *)
Theorem applyPoint_sink_independent (id : string) (point : Point) (st : Store)
    (i : Influx) :
  store (NodePoint id point (mkDb st (Some i))).1
  = store (NodePoint id point (mkDb st None)).1
  /\ (NodePoint id point (mkDb st (Some i))).2
     = (NodePoint id point (mkDb st None)).2
  /\ influx (NodePoint id point (mkDb st None)).1 = None
  /\ (Influx_reachable i = true ->
      influx (NodePoint id point (mkDb st (Some i))).1
      = Some (mkInflux true (Influx_written i ++ [mkInfluxSample id point])))
  /\ (Influx_reachable i = false ->
      influx (NodePoint id point (mkDb st (Some i))).1 = Some i)
  /\ (nodes st !! KString id = Some Corrupt ->
      store (NodePoint id point (mkDb st (Some i))).1 = st
      /\ (NodePoint id point (mkDb st (Some i))).2 = Some ErrGobDecode).
Proof.
  pose proof (NodePoint_store id point (mkDb st (Some i))) as E1.
  pose proof (NodePoint_store id point (mkDb st None)) as E2.
  cbn [store] in E1, E2. rewrite <- E2 in E1. inversion E1 as [[Hs He]].
  split; [done|]. split; [done|].
  assert (Hinf : forall o,
            influx (NodePoint id point (mkDb st o)).1
            = match o with
              | Some i => Some (WriteSamples [PointToInfluxSample id point] i).1
              | None => None
              end).
  { intros o. unfold NodePoint. cbn [influx store]. by destruct (update _ st). }
  split; [apply Hinf|]. split; [|split].
  - intros Hr. rewrite Hinf. unfold WriteSamples. by rewrite Hr.
  - intros Hr. rewrite Hinf. unfold WriteSamples. by rewrite Hr.
  - intros Hn. rewrite Hs, He.
    assert (E : update (fun tx => dev ← get_or_new tx id;
                          TxUpsert tx (GoString id)
                            (SetState SysStateOnline (ProcessPoint point dev))) st
                = (st, Some ErrGobDecode)).
    { unfold update, get_or_new, TxGet. cbn. rewrite Hn. cbn.
      by rewrite decide_False. }
    rewrite E in E2. injection E2 as H1 H2. by split.
Qed.

Lemma applyPoint_sink_independent_witness :
  let i := mkInflux true [] in
  let p := demo_point 5 100 in
  store (NodePoint "n2" p (mkDb faulty_store (Some i))).1
  = store (NodePoint "n2" p (mkDb faulty_store None)).1
  /\ (NodePoint "n2" p (mkDb faulty_store (Some i))).2
     = (NodePoint "n2" p (mkDb faulty_store None)).2
  /\ influx (NodePoint "n2" p (mkDb faulty_store None)).1 = None
  /\ influx (NodePoint "n2" p (mkDb faulty_store (Some i))).1
     = Some (mkInflux true (Influx_written i ++ [mkInfluxSample "n2" p]))
  /\ influx (NodePoint "n2" p (mkDb faulty_store (Some (mkInflux false [])))).1
     = Some (mkInflux false [])
  /\ (store (NodePoint "n2" p (mkDb faulty_store (Some i))).1 = faulty_store
      /\ (NodePoint "n2" p (mkDb faulty_store (Some i))).2 = Some ErrGobDecode).
Proof.
  intros i p.
  destruct (applyPoint_sink_independent "n2" p faulty_store i)
    as (H1 & H2 & H3 & H4 & _ & H6).
  destruct (applyPoint_sink_independent "n2" p faulty_store (mkInflux false []))
    as (_ & _ & _ & _ & H5 & _).
  split; [exact H1|]. split; [exact H2|]. split; [exact H3|].
  split; [exact (H4 eq_refl)|]. split; [exact (H5 eq_refl)|].
  exact (H6 eq_refl).
Defined.

(** ** The register simulation of the modbus server *)

Lemma succ_mod_20 (n : nat) :
  (n mod 20 < 19 /\ S n mod 20 = S (n mod 20))%nat
  \/ (n mod 20 = 19 /\ S n mod 20 = 0)%nat.
Proof.
  pose proof (Nat.div_mod_eq n 20) as Hn.
  pose proof (Nat.mod_upper_bound n 20 ltac:(lia)) as Hm.
  destruct (decide (n mod 20 = 19)%nat) as [E|E].
  - right. split; [done|]. symmetry.
    apply (Nat.mod_unique (S n) 20 (S (n / 20)) 0); lia.
  - left. split; [lia|]. symmetry.
    apply (Nat.mod_unique (S n) 20 (n / 20) (S (n mod 20))); lia.
Qed.

Lemma triangle_range (n : nat) : (0 <= triangle n <= 10)%Z.
Proof.
  unfold triangle.
  pose proof (Nat.mod_upper_bound n 20 ltac:(lia)) as Hm.
  destruct (Z.leb_spec (Z.of_nat (n mod 20)) 10); lia.
Qed.

Lemma triangle_cases (n : nat) :
  (n mod 20 <= 10 /\ triangle n = Z.of_nat (n mod 20))%nat
  \/ (10 < n mod 20 /\ triangle n = (20 - Z.of_nat (n mod 20))%Z)%nat.
Proof.
  unfold triangle. destruct (Z.leb_spec (Z.of_nat (n mod 20)) 10); [left|right]; lia.
Qed.

Lemma loop_pass_at (n : nat) :
  loop_pass (loop_state_at n)
  = (loop_state_at (S n), (Nat.even (S n), triangle (S n))).
Proof.
  unfold loop_pass, loop_state_at. cbn [loop_value loop_regValue loop_up].
  assert (Hv : negb (Nat.even n) = Nat.even (S n)).
  { rewrite Nat.even_succ. by rewrite Nat.negb_even. }
  rewrite Hv.
  pose proof (triangle_range (S n)) as Hr.
  pose proof (Nat.mod_upper_bound n 20 ltac:(lia)) as Hm.
  assert (Ht : triangle (S n)
               = if (n mod 20 <? 10)%nat then (triangle n + 1)%Z
                 else (triangle n - 1)%Z).
  { destruct (triangle_cases n) as [[? ?]|[? ?]];
      destruct (triangle_cases (S n)) as [[? ?]|[? ?]];
      destruct (succ_mod_20 n) as [[? ?]|[? ?]];
      destruct (Nat.ltb_spec (n mod 20) 10); lia. }
  assert (Hu : (S n mod 20 <? 10)%nat
               = if (n mod 20 <? 10)%nat
                 then (if (10 <=? triangle n + 1)%Z then false else true)
                 else (if (triangle n - 1 <=? 0)%Z then true else false)).
  { destruct (triangle_cases n) as [[? ?]|[? ?]];
      destruct (succ_mod_20 n) as [[? ?]|[? ?]];
      destruct (Nat.ltb_spec (n mod 20) 10);
      destruct (Nat.ltb_spec (S n mod 20) 10);
      repeat match goal with
             | |- context [Z.leb ?a ?b] => destruct (Z.leb_spec a b)
             end; first [done | exfalso; lia]. }
  destruct (n mod 20 <? 10)%nat;
    rewrite Hu; cbv iota in Ht; rewrite <- Ht; unfold uint16;
    by rewrite Z.mod_small by lia.
Qed.

Lemma loop_run_at (n m : nat) :
  loop_run n (loop_state_at m)
  = (loop_state_at (m + n),
     map (fun j => (Nat.even (m + S j), triangle (m + S j))) (seq 0 n)).
Proof.
  revert m. induction n as [|n IH]; intros m; cbn [loop_run].
  - by rewrite Nat.add_0_r.
  - rewrite loop_pass_at, (IH (S m)). cbn [seq map].
    rewrite <- seq_shift, map_map. f_equal; [f_equal; lia|].
    f_equal; [by rewrite Nat.add_1_r|].
    apply map_ext. intros j. by rewrite !Nat.add_succ_r.
Qed.

(** X19. The register simulation is a triangle wave: after n passes of the
    loop the register value is n mod 20 if that is at most 10 and
    20 - n mod 20 otherwise, so it stays between 0 and 10 and returns to
    its start every 20 passes; the coil value is true after an even number
    of passes.  Pass i writes exactly these two values: the conversion to
    uint16 never wraps. *)
Theorem register_triangle_wave (n : nat) :
  (loop_run n SimLoop_init).1 = loop_state_at n
  /\ (0 <= loop_regValue (loop_run n SimLoop_init).1 <= 10)%Z
  /\ (loop_run (n + 20) SimLoop_init).1 = (loop_run n SimLoop_init).1
  /\ length (loop_run n SimLoop_init).2 = n
  /\ (forall i w,
        (loop_run n SimLoop_init).2 !! i = Some w ->
        w = (Nat.even (S i), triangle (S i)) /\ (0 <= w.2 <= 10)%Z).
Proof.
  change SimLoop_init with (loop_state_at 0).
  rewrite !loop_run_at. cbn [fst snd Nat.add].
  split; [done|]. split; [apply triangle_range|]. split; [|split].
  - unfold loop_state_at, triangle.
    replace ((n + 20) mod 20)%nat with (n mod 20)%nat.
    2:{ replace (n + 20)%nat with (n + 1 * 20)%nat by lia.
        by rewrite Nat.Div0.mod_add. }
    f_equal. replace (n + 20)%nat with (S (S (n + 18)))%nat by lia.
    rewrite !Nat.even_succ_succ.
    replace (n + 18)%nat with (n + 2 * 9)%nat by lia.
    by rewrite Nat.even_add_mul_2.
  - by rewrite length_map, length_seq.
  - intros i w Hw. rewrite list_lookup_fmap in Hw.
    destruct (seq 0 n !! i) as [j|] eqn:Hj; [|done].
    apply lookup_seq in Hj as [-> _]. cbn in Hw. simplify_eq.
    split; [done|]. apply triangle_range.
Qed.

Example register_first_passes :
  map snd (loop_run 22 SimLoop_init).2
  = [1; 2; 3; 4; 5; 6; 7; 8; 9; 10; 9; 8; 7; 6; 5; 4; 3; 2; 1; 0; 1; 2]%Z.
Proof. reflexivity. Qed.

Lemma register_triangle_wave_witness :
  (loop_run 25 SimLoop_init).1 = loop_state_at 25
  /\ (0 <= loop_regValue (loop_run 25 SimLoop_init).1 <= 10)%Z
  /\ (loop_run (25 + 20) SimLoop_init).1 = (loop_run 25 SimLoop_init).1
  /\ length (loop_run 25 SimLoop_init).2 = 25%nat
  /\ ((true, 2%Z) = (Nat.even 22, triangle 22) /\ (0 <= (true, 2%Z).2 <= 10)%Z).
Proof.
  destruct (register_triangle_wave 25) as (H1 & H2 & H3 & H4 & H5).
  split; [exact H1|]. split; [exact H2|]. split; [exact H3|]. split; [exact H4|].
  apply (H5 21%nat (true, 2%Z)). reflexivity.
Defined.

(** ** The pending flag under the other calls *)

Ltac same_nodes_cmds :=
  split; [|intros ?; unfold pending];
  unfold_tx; unfold mbind, result_bind in *;
  repeat (case_match; cbn in *; unfold mbind, result_bind in *; simplify_eq; cbn);
  done.

Lemma keeps_pending_insert (db : Store) (id : string) (n : Node) (b : bool) :
  pending db id = Node_CmdPending n ->
  forall id',
    (match <[KString id := Good n]> (nodes db) !! KString id' with
     | Some (Good n') => Node_CmdPending n'
     | _ => false
     end) = pending db id'.
Proof.
  intros Hp id'. unfold pending in *.
  destruct (decide (id = id')) as [<-|Hne].
  - by rewrite lookup_insert_eq.
  - by rewrite lookup_insert_ne by congruence.
Qed.

Lemma upsert_keeps_pending (id : string) (f : Node -> Node) (db : Store) :
  (forall n, Node_CmdPending (f n) = Node_CmdPending n) ->
  keeps_pending db (update (fun tx => dev ← get_or_new tx id;
                                      TxUpsert tx (GoString id) (f dev)) db).1.
Proof.
  intros Hf. unfold update.
  destruct (get_or_new_cases db id) as [(dev & Hn & ->)|[[Hn ->]|[Hn ->]]].
  - unfold TxUpsert. cbn. rewrite Hn. cbn. split; [done|].
    unfold pending at 1. cbn. apply (keeps_pending_insert db id (f dev) true).
    unfold pending. by rewrite Hn, Hf.
  - unfold TxUpsert. cbn. rewrite Hn. cbn. split; [done|].
    unfold pending at 1. cbn. apply (keeps_pending_insert db id _ true).
    unfold pending. by rewrite Hn, Hf.
  - by split.
Qed.

Lemma ProcessPoint_CmdPending (p : Point) (dev : Node) :
  Node_CmdPending (ProcessPoint p dev) = Node_CmdPending dev.
Proof. unfold ProcessPoint. by destruct (existsb _ _). Qed.

Lemma call_keeps_pending (op : DbOp) (db : Store) :
  node_keys_ok db ->
  is_NodeDelete op = false ->
  is_command_call op = false ->
  keeps_pending db (call op db).
Proof.
  intros Hok Hd Hc. destruct op; try discriminate; cbn [call].
  - (* NodeUpdateGroups *)
    unfold NodeUpdateGroups, update, TxGet, TxUpdate. cbn.
    destruct (nodes db !! KString id) as [[dev|]|] eqn:Hn; cbn; try by split.
    split; [done|]. unfold pending at 1. cbn.
    apply (keeps_pending_insert db id _ true). unfold pending. by rewrite Hn.
  - (* NodePoint *)
    pose proof (NodePoint_store id point (mkDb db None)) as E. cbn [store] in E.
    pose proof (upsert_keeps_pending id
                  (fun dev => SetState SysStateOnline (ProcessPoint point dev)) db) as H.
    cbn beta in H. rewrite <- E in H. cbn [fst] in H. apply H.
    intros n. cbn. apply ProcessPoint_CmdPending.
  - by apply (upsert_keeps_pending id (SetState state) db).
  - by apply (upsert_keeps_pending id (SetSwUpdateState state) db).
  - unfold initialize. same_nodes_cmds.
  - unfold UserInsert. same_nodes_cmds.
  - unfold UserUpdate. same_nodes_cmds.
  - unfold UserDelete. same_nodes_cmds.
  - unfold GroupInsert. same_nodes_cmds.
  - unfold GroupUpdate. same_nodes_cmds.
  - unfold GroupDelete. same_nodes_cmds.
  - (* RuleInsert *)
    unfold RuleInsert, update, TxInsert, TxGet, TxUpdate. cbn.
    destruct (rules db !! KUUID drawn) as [x|]; cbn; [by split|].
    destruct (nodes db !! KString (RuleConfig_NodeID (Rule_Config rule)))
      as [[device|]|] eqn:Hn; cbn; try by split.
    rewrite <- (Hok _ _ Hn), Hn. cbn.
    split; [done|]. unfold pending at 1. cbn.
    apply (keeps_pending_insert db _ _ true). unfold pending. by rewrite Hn.
  - unfold RuleUpdateConfig. same_nodes_cmds.
  - unfold RuleUpdateState. same_nodes_cmds.
  - unfold RuleDelete. same_nodes_cmds.
Qed.

Lemma keeps_pending_invariant (db db' : Store) (id : string) :
  keeps_pending db db' -> cmd_invariant db id -> cmd_invariant db' id.
Proof.
  intros [Hc Hp] Hinv. unfold cmd_invariant, has_command in *.
  by rewrite Hc, Hp.
Qed.

Lemma call_invariant (op : DbOp) (db : Store) (id : string) :
  is_NodeDelete op = false ->
  node_keys_ok db -> cmd_invariant db id -> cmd_invariant (call op db) id.
Proof.
  intros Hd Hok Hinv. destruct (is_command_call op) eqn:Hc.
  - destruct op; try discriminate; cbn [call].
    + apply (cmd_step_invariant db); [apply (run_op_step (OpSetCommand cmd))|done].
    + apply (cmd_step_invariant db); [apply (run_op_step (OpClearCommand id0))|done].
    + apply (cmd_step_invariant db); [apply (run_op_step (OpTakeCommand id0))|done].
  - apply (keeps_pending_invariant db); [|done]. by apply call_keeps_pending.
Qed.

(** X20. The agreement between the pending flag of a node and the presence
    of its Command record is kept not only by the three command functions
    but by every writing function of db.go other than deleteNode, in any
    order and whether the calls succeed or fail, on stores where node
    records sit under their own ID. *)
Theorem pending_invariant_all_calls (id : string) (ops : list DbOp) (db : Store) :
  forallb (fun op => negb (is_NodeDelete op)) ops = true ->
  node_keys_ok db ->
  cmd_invariant db id ->
  cmd_invariant (calls ops db) id.
Proof.
  revert db. induction ops as [|op ops IH]; intros db Hops Hok Hinv; [done|].
  cbn in Hops. apply andb_true_iff in Hops as [Hop Hops].
  apply negb_true_iff in Hop. cbn. apply IH; [done| |].
  - apply (nodes_step_keys_ok db); [|done]. by apply call_nodes_step.
  - by apply call_invariant.
Qed.

Lemma empty_store_invariant (id : string) : cmd_invariant empty_store id.
Proof.
  unfold cmd_invariant, pending, has_command. cbn. rewrite !lookup_empty.
  split; [done|]. by intros [? ?].
Qed.

Lemma pending_invariant_all_calls_witness :
  cmd_invariant
    (calls [CallNodePoint "n1" (demo_point 5 100); CallNodeSetCmd demo_cmd;
            CallRuleInsert 7 demo_rule; CallNodeSetState "n1" SysStateOffline;
            CallNodeUpdateGroups "n1" [21%N]; CallInitialize;
            CallNodeGetCmd "n1"; CallNodePoint "n1" (demo_point 6 200)]
           empty_store) "n1".
Proof.
  apply (pending_invariant_all_calls "n1" _ empty_store).
  - reflexivity.
  - intros k n Hk. cbn in Hk. by rewrite lookup_empty in Hk.
  - apply empty_store_invariant.
Defined.

(** *** A set flag comes with a command in every store the layer reaches

    deleteNode breaks the command/pending agreement in one direction only:
    it can leave a command without a flag, never a flag without a command.
    In every store reached from the empty store by calls of the db layer, a
    node whose pending flag is set has a Command record. *)

Lemma cmd_step_flag (db db' : Store) :
  cmd_step db db' -> flag_has_command db -> flag_has_command db'.
Proof.
  intros [->|(k & dev & c & Hn & Hc)] Hinv id; [apply Hinv|].
  unfold pending, has_command. rewrite Hn, Hc.
  destruct (decide (k = id)) as [->|Hne].
  - rewrite lookup_insert_eq. destruct c as [c|]; cbn; [|done].
    rewrite lookup_insert_eq. eauto.
  - assert (KString k <> KString id) by congruence.
    rewrite lookup_insert_ne by done. intros Hp.
    destruct c as [c|]; [rewrite lookup_insert_ne by done
                        |rewrite lookup_delete_ne by done]; by apply Hinv.
Qed.

Lemma NodeDelete_flag (id : string) (db : Store) :
  flag_has_command db -> flag_has_command (NodeDelete id db).1.
Proof.
  intros Hinv. destruct (nodes db !! KString id) as [[device|]|] eqn:Hn.
  - destruct (Node_Rules device) as [|r rs] eqn:Hr.
    + rewrite (NodeDelete_no_rules id db device Hn Hr). cbn.
      intros i Hp. unfold pending in Hp. cbn in Hp.
      destruct (decide (id = i)) as [<-|Hne].
      * by rewrite lookup_delete_eq in Hp.
      * rewrite lookup_delete_ne in Hp by congruence. by apply Hinv.
    + by rewrite (NodeDelete_with_rules id db device Hn) by (by rewrite Hr).
  - assert (E : NodeDelete id db = (db, Some ErrGobDecode)).
    { unfold NodeDelete, update, TxGet. cbn. by rewrite Hn. }
    by rewrite E.
  - by rewrite (NodeDelete_missing id db Hn).
Qed.

Lemma call_flag (op : DbOp) (db : Store) :
  node_keys_ok db -> flag_has_command db -> flag_has_command (call op db).
Proof.
  intros Hok Hinv. destruct (is_NodeDelete op) eqn:Hd.
  { destruct op; try discriminate. by apply NodeDelete_flag. }
  destruct (is_command_call op) eqn:Hc.
  - destruct op; try discriminate; cbn [call].
    + apply (cmd_step_flag db); [apply (run_op_step (OpSetCommand cmd))|done].
    + apply (cmd_step_flag db); [apply (run_op_step (OpClearCommand id))|done].
    + apply (cmd_step_flag db); [apply (run_op_step (OpTakeCommand id))|done].
  - destruct (call_keeps_pending op db Hok Hd Hc) as [Hcmds Hp].
    intros id. unfold has_command. rewrite Hcmds, Hp. apply Hinv.
Qed.

Lemma calls_flag (ops : list DbOp) (db : Store) :
  node_keys_ok db -> flag_has_command db -> flag_has_command (calls ops db).
Proof.
  revert db. induction ops as [|op ops IH]; intros db Hok Hinv; [done|].
  cbn. apply IH.
  - apply (nodes_step_keys_ok db); [|done]. by apply call_nodes_step.
  - by apply call_flag.
Qed.

Lemma reachable_flag_has_command (ops : list DbOp) :
  flag_has_command (calls ops empty_store).
Proof.
  apply calls_flag.
  - intros k n Hk. cbn in Hk. by rewrite lookup_empty in Hk.
  - intros id Hp. unfold pending in Hp. cbn in Hp. by rewrite lookup_empty in Hp.
Qed.

(** The store of the counterexample to C5 is such a store. *)
Example orphan_store_reachable :
  calls [CallNodeSetState "n1" SysStateOnline; CallNodeSetCmd demo_cmd;
         CallNodeDelete "n1"] empty_store
  = (NodeDelete "n1" (NodeSetCmd demo_cmd demo_store).1).1.
Proof. reflexivity. Qed.
